(** * tiny-app: the Drive cache layer and the sandbox message protocol

    A shallow embedding of [src/lib/drive-client.js] (class [DriveClient]),
    [src/lib/google-auth.js] (method [getToken]) and
    [src/components/app-runner.js] (class [AppRunner], message handling),
    followed by the properties of the specification that concern them.

    JavaScript values are an inductive type; [localStorage], the session
    storage of the auth module, the clock, the network and the guest
    windows form an explicit world that every operation threads through
    a state-and-exception monad. *)

From Stdlib Require Import ZArith List Lia Permutation Ascii String.
From stdpp Require Import gmap strings list fin_maps pretty sorting.

Local Open Scope string_scope.
Local Open Scope Z_scope.
Local Open Scope list_scope.

(** ** JavaScript values *)

#[local] Set Warnings "-register-all".

(** Numbers are the integers the program handles (timestamps, counts).
    An object lists its own properties in enumeration order. *)
Inductive value : Type :=
| VUndef
| VNull
| VBool (b : bool)
| VNum (n : Z)
| VStr (s : string)
| VArr (items : list value)
| VObj (fields : list (string * value)).

Definition obj : Type := list (string * value).

(** ToBoolean. *)
Definition truthy (v : value) : bool :=
  match v with
  | VUndef | VNull => false
  | VBool b => b
  | VNum n => negb (n =? 0)
  | VStr s => negb (String.eqb s "")
  | VArr _ | VObj _ => true
  end.

(** [a || b] *)
Definition js_or (a b : value) : value := if truthy a then a else b.

Fixpoint obj_get (o : obj) (k : string) : value :=
  match o with
  | [] => VUndef
  | (k', v) :: o' => if String.eqb k' k then v else obj_get o' k
  end.

(** [o[k] = v] for the keys the program sets ([data], [syncTime], none of
    them an array index): an existing property keeps its place, a new one
    comes last. *)
Fixpoint obj_set (o : obj) (k : string) (v : value) : obj :=
  match o with
  | [] => [(k, v)]
  | (k', v') :: o' =>
      if String.eqb k' k then (k, v) :: o' else (k', v') :: obj_set o' k v
  end.

(** [v.k] for the property names the program reads ([type], [data], [id],
    [files], [syncTime], ...): none of them is an index or [length], so only
    an object can have them. [None] is the TypeError of reading a property of
    [undefined] or [null]. *)
Definition get_prop (v : value) (k : string) : option value :=
  match v with
  | VUndef | VNull => None
  | VObj o => Some (obj_get o k)
  | _ => Some VUndef
  end.

(** [v[0]] *)
Definition get_first (v : value) : option value :=
  match v with
  | VUndef | VNull => None
  | VArr l => Some (hd VUndef l)
  | VObj o => Some (obj_get o "0")
  | VStr (String c _) => Some (VStr (String c ""))
  | _ => Some VUndef
  end.

(** The own enumerable properties that [{...v}] copies. *)
Definition index_fields (l : list value) : obj :=
  imap (fun i x => (pretty (N.of_nat i), x)) l.

Fixpoint string_chars (s : string) : list value :=
  match s with
  | EmptyString => []
  | String c r => VStr (String c "") :: string_chars r
  end.

Definition spread (v : value) : obj :=
  match v with
  | VObj o => o
  | VArr l => index_fields l
  | VStr s => index_fields (string_chars s)
  | _ => []
  end.

(** [{...a, ...b}] on property lists. *)
Definition obj_assign (a b : obj) : obj :=
  fold_left (fun acc kv => obj_set acc kv.1 kv.2) b a.

(** String(v), as a template literal applies it. *)
Fixpoint to_string (v : value) : string :=
  match v with
  | VUndef => "undefined"
  | VNull => "null"
  | VBool true => "true"
  | VBool false => "false"
  | VNum n => pretty n
  | VStr s => s
  | VArr l =>
      (fix join (first : bool) (l : list value) : string :=
         match l with
         | [] => ""
         | x :: r =>
             (if first then "" else ",") +:+
             match x with VUndef | VNull => "" | _ => to_string x end +:+
             join false r
         end) true l
  | VObj _ => "[object Object]"
  end.

(** JSON.parse(JSON.stringify(v)) for [v] other than [undefined]:
    properties holding [undefined] are dropped, array holes become [null]. *)
Fixpoint json_clean (v : value) : value :=
  match v with
  | VUndef => VNull
  | VArr l => VArr (map json_clean l)
  | VObj o =>
      VObj ((fix fields (o : obj) : obj :=
               match o with
               | [] => []
               | (k, VUndef) :: r => fields r
               | (k, x) :: r => (k, json_clean x) :: fields r
               end) o)
  | _ => v
  end.

(** What a property reads as once its object went through JSON. *)
Definition json_clean_prop (v : value) : value :=
  match v with VUndef => VUndef | _ => json_clean v end.

(** A value JSON represents as it is. *)
Fixpoint is_json (v : value) : bool :=
  match v with
  | VUndef => false
  | VArr l => forallb is_json l
  | VObj o =>
      (fix fields (o : obj) : bool :=
         match o with
         | [] => true
         | (_, x) :: r => is_json x && fields r
         end) o
  | _ => true
  end.

(** ** Stable sorting by a numeric key

    [Array.prototype.sort] with the comparator [(a, b) => key a - key b]:
    ascending, and stable. *)
Section SortBy.
Context {A : Type} (key : A -> Z).

Fixpoint insert_by (x : A) (l : list A) : list A :=
  match l with
  | [] => [x]
  | y :: r => if key x <=? key y then x :: l else y :: insert_by x r
  end.

Fixpoint sort_by (l : list A) : list A :=
  match l with
  | [] => []
  | x :: r => insert_by x (sort_by r)
  end.

Definition key_le (a b : A) : Prop := key a <= key b.
End SortBy.

(** ** Property enumeration order of an object

    [Object.entries] lists array-index keys first, in ascending numeric
    order, then the other keys in insertion order. *)
Definition digit_of (c : ascii) : option N :=
  let n := N_of_ascii c in
  if ((48 <=? n) && (n <=? 57))%N then Some (n - 48)%N else None.

Fixpoint digits_value (s : string) (acc : N) : option N :=
  match s with
  | EmptyString => Some acc
  | String c r =>
      match digit_of c with
      | Some d => digits_value r (10 * acc + d)%N
      | None => None
      end
  end.

(** The array index a key denotes: a canonical numeric string below 2^32 - 1. *)
Definition array_index (k : string) : option N :=
  match k with
  | EmptyString => None
  | _ =>
      match digits_value k 0 with
      | Some n =>
          if String.eqb (pretty n) k && (n <? 4294967295)%N then Some n else None
      | None => None
      end
  end.

Definition is_index {B : Type} (kv : string * B) : bool :=
  match array_index kv.1 with Some _ => true | None => false end.

Definition index_key {B : Type} (kv : string * B) : Z :=
  match array_index kv.1 with Some n => Z.of_N n | None => 0 end.

Definition entries {B : Type} (o : list (string * B)) : list (string * B) :=
  sort_by index_key (List.filter is_index o) ++
  List.filter (fun kv => negb (is_index kv)) o.

(** ** String operations of the program *)

Fixpoint starts_with (p s : string) : bool :=
  match p, s with
  | EmptyString, _ => true
  | String a p', String b s' => Ascii.eqb a b && starts_with p' s'
  | String _ _, EmptyString => false
  end.

Fixpoint drop_chars (n : nat) (s : string) : string :=
  match n, s with
  | O, _ => s
  | S n', String _ s' => drop_chars n' s'
  | S _, EmptyString => EmptyString
  end.

(** [s.replace(p, r)] for a string pattern [p] and a replacement [r] without
    [$]: the first occurrence of [p], if there is one, becomes [r]. *)
Fixpoint replace_first (p r s : string) : string :=
  if starts_with p s then r +:+ drop_chars (String.length p) s
  else match s with
       | EmptyString => EmptyString
       | String c s' => String c (replace_first p r s')
       end.

(** Whether [p] occurs in [s]. *)
Fixpoint occurs (p s : string) : bool :=
  starts_with p s ||
  match s with
  | EmptyString => false
  | String _ s' => occurs p s'
  end.

(** [s.replace(/c/g, r)] for one character [c]. *)
Fixpoint replace_all_char (c : ascii) (r s : string) : string :=
  match s with
  | EmptyString => EmptyString
  | String a s' =>
      (if Ascii.eqb a c then r else String a EmptyString) +:+
      replace_all_char c r s'
  end.

Fixpoint has_char (c : ascii) (s : string) : bool :=
  match s with
  | EmptyString => false
  | String a s' => Ascii.eqb a c || has_char c s'
  end.

(** The double quote character. *)
Definition dquote : ascii := ascii_of_nat 34.

(** ** The browser: storage, clock, network, windows *)

(** Platform functions the program calls and no property depends on. *)
Record Platform : Type := {
  JSON_stringify : value -> string;         (* JSON.stringify(v) *)
  JSON_stringify_pretty : value -> string;  (* JSON.stringify(v, null, 2) *)
  JSON_parse : string -> option value;      (* None: SyntaxError *)
  encodeURIComponent : string -> string;
  toISOString : Z -> string;                (* new Date(t).toISOString() *)
  parseInt : string -> option Z             (* None: NaN *)
}.

(** One entry of the app files table: what
    [{ ...data, cachedAt: Date.now() }] holds. *)
Record AppData : Type := {
  manifest : value;
  params : value;
  appHtml : value;
  syncTime : value
}.

Record AppEntry : Type := {
  bundle : AppData;
  cachedAt : Z
}.

Definition AppTable : Type := list (string * AppEntry).

(** A [localStorage] item holds text; the model keeps the document the text
    parses to, or [Garbled] for text that [JSON.parse] rejects. *)
Inductive item : Type :=
| Garbled
| Doc (v : value).

(** [localStorage], split by key: the items under [CACHE_PREFIX + key], and
    the item under [APP_CACHE_KEY] ([None]: absent or unparsable). *)
Record Storage : Type := {
  items : gmap string item;
  appTable : option AppTable
}.

Inductive exn : Type :=
| Error (message : string)
| TypeError (message : string)
| SyntaxError (message : string).

Definition message_of (e : exn) : string :=
  match e with Error m | TypeError m | SyntaxError m => m end.

Inductive Body : Type :=
| NoBody
| TextBody (text : string)
| FormBody (parts : list (string * string * string)). (* name, type, content *)

Record Request : Type := {
  req_url : string;
  req_method : string;
  req_headers : list (string * string);
  req_body : Body
}.

Record Response : Type := {
  ok : bool;
  status : Z;
  body_text : string
}.

Inductive NetResult : Type :=
| NetFail (message : string)   (* fetch rejects *)
| NetResp (r : Response).

(** [sessionStorage], as the auth module uses it. *)
Record AuthStore : Type := {
  tokenItem : option string;
  expiryItem : option string
}.

Definition window : Type := nat.

Record World : Type := {
  localStorage : Storage;
  quota : Storage -> bool;        (* whether [setItem] accepts the new content *)
  sessionStorage : AuthStore;
  clock : nat -> Z;               (* successive readings of [Date.now()] *)
  ticks : nat;
  network : nat -> NetResult;     (* the answer to the n-th [fetch] *)
  arrival : list nat -> nat;      (* of the requests awaiting their answer,
                                     the position of the one answered first *)
  fetched : list Request;         (* the requests issued so far, oldest first *)
  posted : list (window * value)  (* [postMessage] calls so far, oldest first *)
}.

Definition set_localStorage (s : Storage) (w : World) : World :=
  {| localStorage := s; quota := quota w; sessionStorage := sessionStorage w;
     clock := clock w; ticks := ticks w; network := network w;
     arrival := arrival w; fetched := fetched w; posted := posted w |}.

Definition set_sessionStorage (a : AuthStore) (w : World) : World :=
  {| localStorage := localStorage w; quota := quota w; sessionStorage := a;
     clock := clock w; ticks := ticks w; network := network w;
     arrival := arrival w; fetched := fetched w; posted := posted w |}.

Definition set_ticks (n : nat) (w : World) : World :=
  {| localStorage := localStorage w; quota := quota w;
     sessionStorage := sessionStorage w;
     clock := clock w; ticks := n; network := network w;
     arrival := arrival w; fetched := fetched w; posted := posted w |}.

Definition set_fetched (l : list Request) (w : World) : World :=
  {| localStorage := localStorage w; quota := quota w;
     sessionStorage := sessionStorage w;
     clock := clock w; ticks := ticks w; network := network w;
     arrival := arrival w; fetched := l; posted := posted w |}.

Definition set_posted (l : list (window * value)) (w : World) : World :=
  {| localStorage := localStorage w; quota := quota w;
     sessionStorage := sessionStorage w;
     clock := clock w; ticks := ticks w; network := network w;
     arrival := arrival w; fetched := fetched w; posted := l |}.

(** ** Computations: state and exceptions *)

Inductive Outcome (A : Type) : Type :=
| Ok (a : A)
| Throw (e : exn).
Arguments Ok {A} a.
Arguments Throw {A} e.

Definition M (A : Type) : Type := World -> Outcome A * World.

Definition ret {A} (a : A) : M A := fun w => (Ok a, w).

Definition throw {A} (e : exn) : M A := fun w => (Throw e, w).

Definition bind {A B} (m : M A) (k : A -> M B) : M B :=
  fun w =>
    match m w with
    | (Ok a, w') => k a w'
    | (Throw e, w') => (Throw e, w')
    end.

(** [try { m } catch (e) { h e }] *)
Definition try_catch {A} (m : M A) (h : exn -> M A) : M A :=
  fun w =>
    match m w with
    | (Ok a, w') => (Ok a, w')
    | (Throw e, w') => h e w'
    end.

Declare Scope js_scope.
Delimit Scope js_scope with js.
Notation "'let*' x ':=' m 'in' k" := (bind m (fun x => k))
  (at level 10, x pattern, m at level 100, k at level 200) : js_scope.
Notation "m ';;' k" := (bind m (fun _ => k))
  (at level 100, k at level 200, right associativity) : js_scope.
Local Open Scope js_scope.

(** A property read that raises TypeError on [undefined] and [null]. *)
Definition member (v : value) (k : string) : M value :=
  match get_prop v k with
  | Some x => ret x
  | None => throw (TypeError ("Cannot read properties of " +:+ to_string v))
  end.

Definition first_of (v : value) : M value :=
  match get_first v with
  | Some x => ret x
  | None => throw (TypeError ("Cannot read properties of " +:+ to_string v))
  end.

Definition Date_now : M Z :=
  fun w => (Ok (clock w (ticks w)), set_ticks (S (ticks w)) w).

(** [fetch]: the request goes out, the network answers. *)
Definition fetch (r : Request) : M Response :=
  fun w =>
    let w' := set_fetched (fetched w ++ [r]) w in
    match network w (length (fetched w)) with
    | NetFail m => (Throw (TypeError m), w')
    | NetResp resp => (Ok resp, w')
    end.

(** [fetch] cut at its [await]: the request goes out and gets its number,
    the place it has among the requests issued; later the answer to it
    comes in. *)
Definition send (r : Request) : M nat :=
  fun w => (Ok (length (fetched w)), set_fetched (fetched w ++ [r]) w).

Definition receive (i : nat) : M Response :=
  fun w =>
    match network w i with
    | NetFail m => (Throw (TypeError m), w)
    | NetResp resp => (Ok resp, w)
    end.

(** [response.json()] *)
Definition response_json (P : Platform) (r : Response) : M value :=
  match JSON_parse P (body_text r) with
  | Some v => ret v
  | None => throw (SyntaxError "Unexpected token in JSON")
  end.

Definition postMessage (target : window) (msg : value) : M unit :=
  fun w => (Ok tt, set_posted (posted w ++ [(target, msg)]) w).

(** The calls of [f] on the elements of [l], one after the other. *)
Fixpoint mapM {A B : Type} (f : A -> M B) (l : list A) : M (list B) :=
  match l with
  | [] => ret []
  | x :: r =>
      let* y := f x in
      let* ys := mapM f r in
      ret (y :: ys)
  end.

(** ** google-auth.js *)

Module GoogleAuth.
Section WithPlatform.
Context (P : Platform).

Definition signOut : M unit :=
  fun w =>
    (Ok tt, set_sessionStorage {| tokenItem := None; expiryItem := None |} w).

(** [!s] for what [getItem] returned. *)
Definition missing (s : option string) : bool :=
  match s with
  | None => true
  | Some t => String.eqb t ""
  end.

Definition getToken : M (option string) :=
  fun w =>
    let token := tokenItem (sessionStorage w) in
    let expiry := expiryItem (sessionStorage w) in
    if missing token || missing expiry then (Ok None, w)
    else
      (let* now := Date_now in
       match parseInt P (default "" expiry) with
       | Some e =>
           if now >? e - 300000 then (signOut ;; ret None) else ret token
       | None => ret token   (* a comparison with NaN is false *)
       end) w.

(** [this.getToken() !== null] *)
Definition isSignedIn : M bool :=
  let* token := getToken in
  ret (match token with Some _ => true | None => false end).
End WithPlatform.
End GoogleAuth.

(** ** drive-client.js *)

Module DriveClient.

Definition DRIVE_API : string := "https://www.googleapis.com/drive/v3".
Definition UPLOAD_API : string := "https://www.googleapis.com/upload/drive/v3".
Definition CACHE_PREFIX : string := "tiny_app_cache_".
Definition APP_CACHE_KEY : string := "tiny_app_files_cache".
Definition APP_CACHE_MAX : nat := 4.

(** *** Cache helpers *)

Definition cacheGet_in (s : Storage) (key : string) : value :=
  match items s !! (CACHE_PREFIX +:+ key) with
  | Some (Doc v) => v
  | Some Garbled | None => VNull
  end.

(** The item [JSON.stringify(value)] leaves: for [undefined] the text is
    "undefined", which does not parse. *)
Definition stored (v : value) : item :=
  match v with
  | VUndef => Garbled
  | _ => Doc (json_clean v)
  end.

Definition put_item (key : string) (v : value) (s : Storage) : Storage :=
  {| items := <[CACHE_PREFIX +:+ key := stored v]> (items s);
     appTable := appTable s |}.

Definition remove_item (key : string) (s : Storage) : Storage :=
  {| items := delete (CACHE_PREFIX +:+ key) (items s);
     appTable := appTable s |}.

(** [setItem] inside [try]/[catch]: a refused write only logs a warning. *)
Definition commit (s' : Storage) : M unit :=
  fun w => (Ok tt, if quota w s' then set_localStorage s' w else w).

Definition cacheGet (key : string) : M value :=
  fun w => (Ok (cacheGet_in (localStorage w) key), w).

Definition cacheSet (key : string) (v : value) : M unit :=
  fun w => commit (put_item key v (localStorage w)) w.

Definition cacheDelete (key : string) : M unit :=
  fun w => (Ok tt, set_localStorage (remove_item key (localStorage w)) w).

(** *** App files LRU cache *)

(** The table [getAppCache] reads: [{}] when the item is absent or does not
    parse. *)
Definition getAppCache_in (s : Storage) : AppTable := default [] (appTable s).

(** The own property [appId] of the table, when it has one. *)
Definition table_get (c : AppTable) (appId : string) : option AppEntry :=
  snd <$> List.find (fun kv => String.eqb kv.1 appId) c.

(** The property names every object inherits from [Object.prototype]: a
    table has them without holding an entry of that name. *)
Definition inherited_names : list string :=
  ["constructor"; "__defineGetter__"; "__defineSetter__"; "hasOwnProperty";
   "__lookupGetter__"; "__lookupSetter__"; "isPrototypeOf";
   "propertyIsEnumerable"; "toString"; "valueOf"; "__proto__";
   "toLocaleString"].

Definition inherited (k : string) : bool := bool_decide (k ∈ inherited_names).

(** What [cache[appId]] reads: an entry of the table; for an id that is not
    in the table and names an inherited property, the inherited value (a
    function, or the prototype itself), which is truthy and has none of the
    fields of an entry; [undefined] otherwise. *)
Inductive Cached : Type :=
| Entry (e : AppEntry)
| Builtin
| Nothing.

Definition table_read (c : AppTable) (appId : string) : Cached :=
  match table_get c appId with
  | Some e => Entry e
  | None => if inherited appId then Builtin else Nothing
  end.

(** An own property is given a value: an existing one keeps its place, a
    new one comes last. *)
Fixpoint table_put (c : AppTable) (appId : string) (e : AppEntry) : AppTable :=
  match c with
  | [] => [(appId, e)]
  | (k, e') :: c' =>
      if String.eqb k appId then (appId, e) :: c'
      else (k, e') :: table_put c' appId e
  end.

(** [cache[appId] = e]. The assignment gives the table an own property,
    except for the id ["__proto__"] when the table (as [JSON.parse] built
    it) has no own property of that name: the assignment then reaches the
    setter inherited from [Object.prototype], which replaces the prototype
    of the table and adds no property, so that [Object.entries] and
    [JSON.stringify] see the table as it was. *)
Definition table_set (c : AppTable) (appId : string) (e : AppEntry) : AppTable :=
  match table_get c appId with
  | Some _ => table_put c appId e
  | None => if String.eqb appId "__proto__" then c else table_put c appId e
  end.

(** [delete cache[id]] *)
Definition table_delete (c : AppTable) (id : string) : AppTable :=
  List.filter (fun kv => negb (String.eqb kv.1 id)) c.

Definition entry_time (kv : string * AppEntry) : Z := cachedAt kv.2.

(** The entries [setAppCache] removes: none up to [APP_CACHE_MAX], else
    the first [length - APP_CACHE_MAX] in ascending [cachedAt]. *)
Definition toRemove (c : AppTable) : list (string * AppEntry) :=
  let es := entries c in
  if Nat.ltb APP_CACHE_MAX (length es)
  then firstn (length es - APP_CACHE_MAX) (sort_by entry_time es)
  else [].

Definition evict (c : AppTable) : AppTable :=
  fold_left (fun c kv => table_delete c kv.1) (toRemove c) c.

(** Whether an entry survives the deletion of the ids of [r]. *)
Definition outside (r : AppTable) (kv : string * AppEntry) : bool :=
  forallb (fun x : string * AppEntry => negb (String.eqb kv.1 x.1)) r.

(** The entries past the removed prefix, in ascending [cachedAt]. *)
Definition kept (c : AppTable) : AppTable :=
  skipn (length c - APP_CACHE_MAX) (sort_by entry_time (entries c)).

(** What the table reads as after [JSON.stringify] and [JSON.parse]. *)
Definition clean_data (d : AppData) : AppData :=
  {| manifest := json_clean_prop (manifest d);
     params := json_clean_prop (params d);
     appHtml := json_clean_prop (appHtml d);
     syncTime := json_clean_prop (syncTime d) |}.

Definition clean_entry (kv : string * AppEntry) : string * AppEntry :=
  (kv.1, {| bundle := clean_data (bundle kv.2); cachedAt := cachedAt kv.2 |}).

Definition persisted (c : AppTable) : AppTable := clean_entry <$> entries c.

(** The table [setAppCache] hands to [setItem] at time [now]. *)
Definition updated_table (c : AppTable) (appId : string) (data : AppData)
    (now : Z) : AppTable :=
  persisted (evict (table_set c appId {| bundle := data; cachedAt := now |})).

Definition getAppCache : M AppTable :=
  fun w => (Ok (getAppCache_in (localStorage w)), w).

(** [localStorage.setItem(APP_CACHE_KEY, JSON.stringify(cache))] *)
Definition writeAppCache (c : AppTable) : M unit :=
  fun w => commit {| items := items (localStorage w); appTable := Some c |} w.

Definition setAppCache (appId : string) (data : AppData) : M unit :=
  let* cache := getAppCache in
  let* now := Date_now in
  writeAppCache (updated_table cache appId data now).

(** [cache[appId] || null] *)
Definition getAppFromCache (appId : string) : M Cached :=
  let* cache := getAppCache in
  ret (table_read cache appId).

Section WithPlatform.
Context (P : Platform).

(** *** API helpers *)

Record Options : Type := {
  opt_method : option string;
  opt_headers : list (string * string);
  opt_body : Body
}.

Definition no_options : Options :=
  {| opt_method := None; opt_headers := []; opt_body := NoBody |}.

Definition json_post (method : string) (body : value) : Options :=
  {| opt_method := Some method;
     opt_headers := [("Content-Type", "application/json")];
     opt_body := TextBody (JSON_stringify P body) |}.

(** [`Bearer ${token}`] *)
Definition bearer (token : option string) : string :=
  "Bearer " +:+ default "null" token.

Definition request (url : string) (options : Options) : M value :=
  let* token := GoogleAuth.getToken P in
  if GoogleAuth.missing token then throw (Error "Not authenticated")
  else
    let* response :=
      fetch {| req_url := url;
               req_method := default "GET" (opt_method options);
               req_headers :=
                 ("Authorization", bearer token) :: opt_headers options;
               req_body := opt_body options |} in
    if negb (ok response) then
      let* error :=
        try_catch (response_json P response) (fun _ => ret (VObj [])) in
      let* inner := member error "error" in
      let message :=
        match get_prop inner "message" with
        | Some m => m
        | None => VUndef
        end in
      throw (Error (to_string
        (js_or message
               (VStr ("Drive API error: " +:+ pretty (status response))))))
    else response_json P response.

(** *** File operations *)

Definition createFile (parentId : value) (name content : string) : M value :=
  let metadata := VObj [("name", VStr name); ("parents", VArr [parentId])] in
  let form :=
    FormBody [("metadata", "application/json", JSON_stringify P metadata);
              ("file", "text/plain", content)] in
  let* token := GoogleAuth.getToken P in
  let* response :=
    fetch {| req_url := UPLOAD_API +:+ "/files?uploadType=multipart";
             req_method := "POST";
             req_headers := [("Authorization", bearer token)];
             req_body := form |} in
  if negb (ok response)
  then throw (Error ("Failed to create file: " +:+ name))
  else response_json P response.

Definition updateFile (fileId : value) (content : string) : M value :=
  let* token := GoogleAuth.getToken P in
  let* response :=
    fetch {| req_url :=
               UPLOAD_API +:+ "/files/" +:+ to_string fileId +:+
               "?uploadType=media";
             req_method := "PATCH";
             req_headers := [("Authorization", bearer token);
                             ("Content-Type", "text/plain")];
             req_body := TextBody content |} in
  if negb (ok response)
  then throw (Error "Failed to update file")
  else response_json P response.

Definition getFileContent (fileId : value) : M string :=
  let* token := GoogleAuth.getToken P in
  let* response :=
    fetch {| req_url :=
               DRIVE_API +:+ "/files/" +:+ to_string fileId +:+ "?alt=media";
             req_method := "GET";
             req_headers := [("Authorization", bearer token)];
             req_body := NoBody |} in
  if negb (ok response)
  then throw (Error "Failed to get file content")
  else ret (body_text response).

Definition findFile (parentId name : string) : M value :=
  let cacheKey := "fileId_" +:+ parentId +:+ "_" +:+ name in
  let* cachedId := cacheGet cacheKey in
  if truthy cachedId
  then ret (VObj [("id", cachedId); ("name", VStr name)])
  else
    let query :=
      "'" +:+ parentId +:+ "' in parents and name='" +:+ name +:+
      "' and trashed=false" in
    let* result :=
      request (DRIVE_API +:+ "/files?q=" +:+ encodeURIComponent P query +:+
               "&fields=files(id,name)") no_options in
    let* files := member result "files" in
    let* first := first_of files in
    let file := js_or first VNull in
    if truthy file
    then (let* id := member file "id" in
          cacheSet cacheKey id ;; ret file)
    else ret file.

(** *** The lookups of [getAppFiles], run together

    [Promise.all] starts its three lookups one after the other; each runs
    until it has to wait for the network, and goes on when the answer to its
    request has come in, in the order the answers arrive. For that the
    functions a lookup calls are cut at their [await]: the part up to the
    request, and the part from the answer on. *)

(** [request] up to [await fetch(...)]. *)
Definition request_sent (url : string) (options : Options) : M nat :=
  let* token := GoogleAuth.getToken P in
  if GoogleAuth.missing token then throw (Error "Not authenticated")
  else
    send {| req_url := url;
            req_method := default "GET" (opt_method options);
            req_headers :=
              ("Authorization", bearer token) :: opt_headers options;
            req_body := opt_body options |}.

(** [request] from the answer on. *)
Definition request_answered (i : nat) : M value :=
  let* response := receive i in
  if negb (ok response) then
    let* error :=
      try_catch (response_json P response) (fun _ => ret (VObj [])) in
    let* inner := member error "error" in
    let message :=
      match get_prop inner "message" with
      | Some m => m
      | None => VUndef
      end in
    throw (Error (to_string
      (js_or message
             (VStr ("Drive API error: " +:+ pretty (status response))))))
  else response_json P response.

Definition getFileContent_sent (fileId : value) : M nat :=
  let* token := GoogleAuth.getToken P in
  send {| req_url :=
            DRIVE_API +:+ "/files/" +:+ to_string fileId +:+ "?alt=media";
          req_method := "GET";
          req_headers := [("Authorization", bearer token)];
          req_body := NoBody |}.

Definition getFileContent_answered (i : nat) : M string :=
  let* response := receive i in
  if negb (ok response)
  then throw (Error "Failed to get file content")
  else ret (body_text response).

(** [findFile] up to its [await]: the file, when its id is cached, or the
    number of the query sent. *)
Definition findFile_sent (parentId name : string) : M (value + nat) :=
  let cacheKey := "fileId_" +:+ parentId +:+ "_" +:+ name in
  let* cachedId := cacheGet cacheKey in
  if truthy cachedId
  then ret (inl (VObj [("id", cachedId); ("name", VStr name)]))
  else
    let query :=
      "'" +:+ parentId +:+ "' in parents and name='" +:+ name +:+
      "' and trashed=false" in
    let* i :=
      request_sent (DRIVE_API +:+ "/files?q=" +:+
                    encodeURIComponent P query +:+
                    "&fields=files(id,name)") no_options in
    ret (inr i).

Definition findFile_answered (parentId name : string) (i : nat) : M value :=
  let cacheKey := "fileId_" +:+ parentId +:+ "_" +:+ name in
  let* result := request_answered i in
  let* files := member result "files" in
  let* first := first_of files in
  let file := js_or first VNull in
  if truthy file
  then (let* id := member file "id" in
        cacheSet cacheKey id ;; ret file)
  else ret file.

(** One lookup,
    [findFile(appId, name).then(f => f ? this.getFileContent(f.id) : null)],
    where it stands: waiting for the answer to its query or to its read
    (request [i]), about to run the callback on a file found in the cache,
    or settled. *)
Inductive FileLookup : Type :=
| Listing (name : string) (i : nat)
| Found (f : value)
| Reading (i : nat)
| Fulfilled (text : option string)
| Rejected (e : exn).

(** An exception inside a lookup rejects its promise. *)
Definition rejecting (m : M FileLookup) : M FileLookup :=
  try_catch m (fun e => ret (Rejected e)).

Definition lookup_begin (appId name : string) : M FileLookup :=
  rejecting
    (let* s := findFile_sent appId name in
     ret (match s with inl f => Found f | inr i => Listing name i end)).

(** The callback of [then], up to the [await] of [getFileContent]. *)
Definition lookup_then (f : value) : M FileLookup :=
  rejecting
    (if truthy f
     then (let* id := member f "id" in
           let* i := getFileContent_sent id in
           ret (Reading i))
     else ret (Fulfilled None)).

(** A lookup goes on: with the answer it waited for, or with its callback. *)
Definition lookup_resume (appId : string) (l : FileLookup) : M FileLookup :=
  match l with
  | Listing name i =>
      rejecting (let* f := findFile_answered appId name i in lookup_then f)
  | Found f => lookup_then f
  | Reading i =>
      rejecting (let* text := getFileContent_answered i in
                 ret (Fulfilled (Some text)))
  | Fulfilled _ | Rejected _ => ret l
  end.

Definition waiting (l : FileLookup) : option nat :=
  match l with
  | Listing _ i | Reading i => Some i
  | _ => None
  end.

Definition found (l : FileLookup) : bool :=
  match l with Found _ => true | _ => false end.

Definition rejection (l : FileLookup) : option exn :=
  match l with Rejected e => Some e | _ => None end.

(** The lookups chosen by [which] go on, in the order they are listed.
    [failed] is the first rejection so far: the one [Promise.all] rejects
    with. *)
Fixpoint advance (appId : string) (which : FileLookup -> bool)
    (ls : list FileLookup) (failed : option exn)
    : M (list FileLookup * option exn) :=
  match ls with
  | [] => ret ([], failed)
  | l :: rest =>
      let* l' := (if which l then lookup_resume appId l else ret l) in
      let failed' :=
        match failed with
        | Some e => Some e
        | None => rejection l'
        end in
      let* r := advance appId which rest failed' in
      ret (l' :: r.1, r.2)
  end.

(** One answer comes in, that of the request the network answers first
    among those awaited, and the lookup that awaited it goes on. *)
Definition deliver (appId : string) (r : list FileLookup * option exn)
    : M (list FileLookup * option exn) :=
  fun w =>
    match omap waiting r.1 with
    | [] => (Ok r, w)
    | i0 :: rest =>
        let i := nth (arrival w (i0 :: rest)) (i0 :: rest) i0 in
        advance appId (fun l => bool_decide (waiting l = Some i)) r.1 r.2 w
    end.

Fixpoint settle (n : nat) (appId : string) (r : list FileLookup * option exn)
    : M (list FileLookup * option exn) :=
  match n with
  | O => ret r
  | S n' => let* r' := deliver appId r in settle n' appId r'
  end.

Definition text_of (l : FileLookup) : option string :=
  match l with Fulfilled t => t | _ => None end.

(** The lookups of [names], run together: every lookup is started; the
    callbacks of those answered from the cache run next; then the answers
    come in, two for a lookup at most. *)
Definition race (appId : string) (names : list string)
    : M (list FileLookup * option exn) :=
  let* started := mapM (lookup_begin appId) names in
  let* called :=
    advance appId found started (head (omap rejection started)) in
  settle (2 * length names) appId called.

(** [Promise.all] over the lookups of [names]: the texts they are fulfilled
    with, in the order of the lookups, or the first rejection. The lookups
    still under way when one is rejected go on to their end: the model
    carries them through before it hands the rejection on. *)
Definition lookups (appId : string) (names : list string)
    : M (list (option string)) :=
  let* r := race appId names in
  match r.2 with
  | Some e => throw e
  | None => ret (text_of <$> r.1)
  end.

(** *** App files (cached) *)

(** [text ? JSON.parse(text) : null] *)
Definition parsedOrNull (text : option string) : M value :=
  match text with
  | Some t =>
      if String.eqb t "" then ret VNull
      else match JSON_parse P t with
           | Some v => ret v
           | None => throw (SyntaxError "Unexpected token in JSON")
           end
  | None => ret VNull
  end.

Definition getAppFiles (appId : string) (forceRefresh : bool) : M AppData :=
  let* cached :=
    (if forceRefresh then ret Nothing else getAppFromCache appId) in
  match cached with
  | Entry e =>
      ret {| manifest := manifest (bundle e);
             params := params (bundle e);
             appHtml := appHtml (bundle e);
             syncTime := VNum (cachedAt e) |}
  | Builtin =>
      ret {| manifest := VUndef; params := VUndef; appHtml := VUndef;
             syncTime := VUndef |}
  | Nothing =>
      let* texts :=
        lookups appId ["manifest.json"; "params.json"; "app.html"] in
      let manifestText := nth 0 texts None in
      let paramsText := nth 1 texts None in
      let htmlText := nth 2 texts None in
      let* m := parsedOrNull manifestText in
      let* p := parsedOrNull paramsText in
      let html := match htmlText with Some t => VStr t | None => VNull end in
      let* now := Date_now in
      let result :=
        {| manifest := m; params := p; appHtml := html;
           syncTime := VNum now |} in
      setAppCache appId result ;;
      ret result
  end.

(** [file ? updateFile(file.id, content) : createFile(parent, name, content)] *)
Definition writeFile (file : value) (parentId name content : string)
    : M value :=
  if truthy file
  then (let* id := member file "id" in updateFile id content)
  else createFile (VStr parentId) name content.

Definition saveAppHtml (appId content : string) : M value :=
  let* file := findFile appId "app.html" in
  let* result := writeFile file appId "app.html" content in
  let* cached := getAppFromCache appId in
  match cached with
  | Entry e =>
      setAppCache appId
        {| manifest := manifest (bundle e);
           params := params (bundle e);
           appHtml := VStr content;
           syncTime := syncTime (bundle e) |} ;;
      ret result
  | Builtin =>
      setAppCache appId
        {| manifest := VUndef; params := VUndef; appHtml := VStr content;
           syncTime := VUndef |} ;;
      ret result
  | Nothing => ret result
  end.

(** "No caching - just save to Drive" *)
Definition saveManifest (appId : string) (manifest : value) : M value :=
  let* file := findFile appId "manifest.json" in
  let content := JSON_stringify_pretty P manifest in
  writeFile file appId "manifest.json" content.

(** "No caching - just save to Drive" *)
Definition saveParams (appId : string) (params : value) : M value :=
  let* file := findFile appId "params.json" in
  let content := JSON_stringify_pretty P params in
  writeFile file appId "params.json" content.

(** *** Session operations (cached) *)

Definition sessionsFolder (appId : string) : Options :=
  json_post "POST"
    (VObj [("name", VStr "sessions");
           ("mimeType", VStr "application/vnd.google-apps.folder");
           ("parents", VArr [VStr appId])]).

Definition getSessionsFolderId (appId : string) : M value :=
  let* cached := cacheGet ("sessionsFolderId_" +:+ appId) in
  if truthy cached then ret cached
  else
    let* folder := findFile appId "sessions" in
    if negb (truthy folder) then
      let* newFolder :=
        request (DRIVE_API +:+ "/files") (sessionsFolder appId) in
      let* id := member newFolder "id" in
      cacheSet ("sessionsFolderId_" +:+ appId) id ;;
      ret id
    else
      let* id := member folder "id" in
      cacheSet ("sessionsFolderId_" +:+ appId) id ;;
      ret id.

(** [{ ...data, syncTime: t }] *)
Definition withSyncTime (data t : value) : value :=
  VObj (obj_set (spread data) "syncTime" t).

Definition getSession (sessionId : string) (forceRefresh : bool) : M value :=
  let cacheKey := "session_" +:+ sessionId in
  let* cached := (if forceRefresh then ret VNull else cacheGet cacheKey) in
  if negb forceRefresh && truthy cached then
    let* data := member cached "data" in
    let* t := member cached "syncTime" in
    ret (withSyncTime data t)
  else
    let* content := getFileContent (VStr sessionId) in
    match JSON_parse P content with
    | None => throw (SyntaxError "Unexpected token in JSON")
    | Some data =>
        let* now := Date_now in
        cacheSet cacheKey (VObj [("data", data); ("syncTime", VNum now)]) ;;
        ret (withSyncTime data (VNum now))
    end.

Definition saveSession (sessionId : string) (data : value) : M value :=
  let* result :=
    updateFile (VStr sessionId) (JSON_stringify_pretty P data) in
  let* now := Date_now in
  cacheSet ("session_" +:+ sessionId)
           (VObj [("data", data); ("syncTime", VNum now)]) ;;
  ret result.

(** [{ name, createdAt: new Date().toISOString(), data: {} }], the date
    being built at time [t]. *)
Definition sessionData (name : string) (t : Z) : value :=
  VObj [("name", VStr name);
        ("createdAt", VStr (toISOString P t));
        ("data", VObj [])].

Definition createSession (appId name : string) : M value :=
  let* sessionsFolderId := getSessionsFolderId appId in
  let* created := Date_now in
  let* file :=
    createFile sessionsFolderId (name +:+ ".json")
               (JSON_stringify_pretty P (sessionData name created)) in
  let* id := member file "id" in
  cacheSet ("session_" +:+ to_string id) (sessionData name created) ;;
  cacheDelete ("sessions_" +:+ appId) ;;
  ret (VObj [("id", id); ("name", VStr name);
             ("data", sessionData name created)]).

(** [f.name.replace('.json', '')]: only a string has [replace]. *)
Definition sessionName (name : value) : M value :=
  match name with
  | VStr n => ret (VStr (replace_first ".json" "" n))
  | VUndef | VNull =>
      throw (TypeError ("Cannot read properties of " +:+ to_string name))
  | _ => throw (TypeError "f.name.replace is not a function")
  end.

(** [{ id: f.id, name: f.name.replace('.json', ''),
       modifiedTime: f.modifiedTime }] *)
Definition sessionOf (f : value) : M value :=
  let* id := member f "id" in
  let* name := member f "name" in
  let* shown := sessionName name in
  let* modifiedTime := member f "modifiedTime" in
  ret (VObj [("id", id); ("name", shown); ("modifiedTime", modifiedTime)]).

(** [files.map(f => ...)]: only an array has [map]. *)
Definition mapFiles (files : value) : M value :=
  match files with
  | VArr l => let* l' := mapM sessionOf l in ret (VArr l')
  | VUndef | VNull =>
      throw (TypeError ("Cannot read properties of " +:+ to_string files))
  | _ => throw (TypeError "result.files.map is not a function")
  end.

Definition listSessions (appId : string) : M value :=
  let* sessionsFolderId := getSessionsFolderId appId in
  let query :=
    "'" +:+ to_string sessionsFolderId +:+ "' in parents and trashed=false" in
  let* result :=
    request (DRIVE_API +:+ "/files?q=" +:+ encodeURIComponent P query +:+
             "&fields=files(id,name,modifiedTime)&orderBy=modifiedTime desc")
            no_options in
  let* files := member result "files" in
  let* sessions := mapFiles files in
  cacheSet ("sessions_" +:+ appId) sessions ;;
  ret sessions.

(** *** App deletion *)

Definition deleteApp (appId : string) : M value :=
  cacheDelete ("appFiles_" +:+ appId) ;;
  cacheDelete ("sessionsFolderId_" +:+ appId) ;;
  cacheDelete ("sessions_" +:+ appId) ;;
  cacheDelete ("fileId_" +:+ appId +:+ "_manifest.json") ;;
  cacheDelete ("fileId_" +:+ appId +:+ "_app.html") ;;
  cacheDelete ("fileId_" +:+ appId +:+ "_params.json") ;;
  request (DRIVE_API +:+ "/files/" +:+ appId)
          (json_post "PATCH" (VObj [("trashed", VBool true)])).
End WithPlatform.
End DriveClient.

(** ** app-runner.js: the host side of the guest protocol *)

Module AppRunner.

Record Iframe : Type := {
  contentWindow : option window    (* [None]: [null] *)
}.

(** The fields of the element that message handling reads or writes. *)
Record Runner : Type := {
  appId : string;
  manifest : value;
  params : value;
  currentSession : option obj;     (* [None]: [null] *)
  iframe : option Iframe           (* [None]: [null] *)
}.

Record MessageEvent : Type := {
  source : option window;          (* [None]: [null] *)
  data : value
}.

Definition set_currentSession (s : option obj) (r : Runner) : Runner :=
  {| appId := appId r; manifest := manifest r; params := params r;
     currentSession := s; iframe := iframe r |}.

(** [this.iframe?.contentWindow] *)
Definition guestWindow (r : Runner) : option window :=
  match iframe r with
  | Some f => contentWindow f
  | None => None
  end.

(** [this.currentSession?.data || {}] *)
Definition sessionForGuest (r : Runner) : value :=
  js_or (match currentSession r with
         | Some s => obj_get s "data"
         | None => VUndef
         end)
        (VObj []).

(** What that expression comes to. *)
Definition sessionSent (s : option obj) : value :=
  match s with
  | Some o => if truthy (obj_get o "data") then obj_get o "data" else VObj []
  | None => VObj []
  end.

Definition initMessage (r : Runner) : value :=
  VObj [("type", VStr "init");
        ("manifest", manifest r);
        ("params", params r);
        ("session", sessionForGuest r)].

Definition sendInitToIframe (r : Runner) : M unit :=
  match guestWindow r with
  | None => ret tt
  | Some win => postMessage win (initMessage r)
  end.

Definition sendMessageToIframe (r : Runner) (message : value) : M unit :=
  match guestWindow r with
  | None => ret tt
  | Some win => postMessage win message
  end.

Section WithPlatform.
Context (P : Platform).

(** The save is carried through to its acknowledgement in one step: the
    model does not interleave other events with a save in flight. *)
Definition saveCurrentSession (r : Runner) : M unit :=
  match currentSession r with
  | None => ret tt
  | Some s =>
      try_catch
        (DriveClient.saveSession P (to_string (obj_get s "id"))
           (VObj [("name", obj_get s "name");
                  ("createdAt", obj_get s "createdAt");
                  ("data", obj_get s "data")]) ;;
         sendMessageToIframe r
           (VObj [("type", VStr "session-saved");
                  ("success", VBool true)]))
        (fun err =>
           sendMessageToIframe r
             (VObj [("type", VStr "session-saved");
                    ("success", VBool false);
                    ("error", VStr (message_of err))]))
  end.

Definition handleSessionUpdate (d : value) (r : Runner) : M Runner :=
  match currentSession r with
  | None => ret r
  | Some s =>
      let r' := set_currentSession (Some (obj_set s "data" d)) r in
      saveCurrentSession r' ;;
      ret r'
  end.

(** [event.source !== this.iframe.contentWindow] *)
Definition fromGuest (event : MessageEvent) (f : Iframe) : bool :=
  bool_decide (source event = contentWindow f).

Definition handleMessage (event : MessageEvent) (r : Runner) : M Runner :=
  match iframe r with
  | None => ret r
  | Some f =>
      if negb (fromGuest event f) then ret r
      else
        let payload := js_or (data event) (VObj []) in
        let type := default VUndef (get_prop payload "type") in
        let d := default VUndef (get_prop payload "data") in
        match type with
        | VStr "ready" => sendInitToIframe r ;; ret r
        | VStr "update-session" => handleSessionUpdate d r
        | _ => ret r
        end
  end.

(** [this.currentSession = { id: sessionId, ...session }], a failed load
    being logged and nothing more. *)
Definition loadSession (sessionId : string) (forceRefresh : bool)
    (r : Runner) : M Runner :=
  try_catch
    (let* session := DriveClient.getSession P sessionId forceRefresh in
     ret (set_currentSession
            (Some (obj_assign [("id", VStr sessionId)] (spread session))) r))
    (fun _ => ret r).

Definition handleSessionChange (sessionId : string) (r : Runner) : M Runner :=
  let* r' := loadSession sessionId false r in
  sendInitToIframe r' ;;
  ret r'.
End WithPlatform.

(** [formatSyncTime(timestamp)], for the timestamps the element holds:
    [null] ([None]) or a number. *)
Definition formatSyncTime (timestamp : option Z) : M string :=
  match timestamp with
  | None => ret ""
  | Some t =>
      if t =? 0 then ret ""
      else
        let* now := Date_now in
        let diff := now - t in
        let seconds := diff / 1000 in
        if seconds <? 60 then ret "just now"
        else
          let minutes := seconds / 60 in
          if minutes <? 60 then ret (pretty minutes +:+ "m ago")
          else
            let hours := minutes / 60 in
            if hours <? 24 then ret (pretty hours +:+ "h ago")
            else
              let days := hours / 24 in
              ret (pretty days +:+ "d ago")
  end.

(** [escapeAttr(str)], called on strings. *)
Definition escapeAttr (str : string) : string :=
  if String.eqb str "" then ""
  else replace_all_char dquote "&quot;" (replace_all_char "&" "&amp;" str).
End AppRunner.

(** ** session-manager.js *)

Module SessionManager.

(** [escapeHtml(str)], called on strings. *)
Definition escapeHtml (str : string) : string :=
  if String.eqb str "" then ""
  else
    replace_all_char dquote "&quot;"
      (replace_all_char ">" "&gt;"
         (replace_all_char "<" "&lt;"
            (replace_all_char "&" "&amp;" str))).

End SessionManager.

(** ** Frame conditions *)

(** What an operation that only talks to the network leaves alone. *)
Definition net_only (w w' : World) : Prop :=
  localStorage w' = localStorage w /\ quota w' = quota w /\
  posted w' = posted w.

(** An operation that may write the item [k] and nothing else in storage. *)
Definition only_item (k : string) (w w' : World) : Prop :=
  appTable (localStorage w') = appTable (localStorage w) /\
  (forall k', k' <> k ->
     items (localStorage w') !! k' = items (localStorage w) !! k') /\
  quota w' = quota w /\ posted w' = posted w.

(** An operation that leaves the app files table alone. *)
Definition table_kept (w w' : World) : Prop :=
  appTable (localStorage w') = appTable (localStorage w) /\
  quota w' = quota w /\ posted w' = posted w.

(** The request a file operation sends when [getToken] gave [null]. *)
Definition unauthorized (method url : string) (extra : list (string * string))
    (body : Body) : Request :=
  {| req_url := url; req_method := method;
     req_headers := ("Authorization", "Bearer null") :: extra;
     req_body := body |}.

(** An operation relates every world to the world it leaves. *)
Definition preserves {A} (R : World -> World -> Prop) (m : M A) : Prop :=
  forall w, R w (m w).2.

(** ** Concrete worlds *)

Module Toy.

(** A platform with three documents the network can send. *)
Definition platform : Platform :=
  {| JSON_stringify := to_string;
     JSON_stringify_pretty := to_string;
     JSON_parse := fun text =>
       if String.eqb text "file f1" then Some (VObj [("id", VStr "f1")])
       else if String.eqb text "list f1"
       then Some (VObj [("files", VArr [VObj [("id", VStr "f1")]])])
       else if String.eqb text "list none"
       then Some (VObj [("files", VArr [])])
       else None;
     encodeURIComponent := fun s => s;
     toISOString := fun t => "T" +:+ pretty t;
     parseInt := fun _ => None |}.

Definition answer (text : string) : NetResult :=
  NetResp {| ok := true; status := 200; body_text := text |}.

Definition failure : NetResult :=
  NetResp {| ok := false; status := 500; body_text := "" |}.

Definition denied : NetResult :=
  NetResp {| ok := false; status := 401; body_text := "" |}.

Definition signedIn : AuthStore :=
  {| tokenItem := Some "token"; expiryItem := Some "later" |}.

Definition signedOut : AuthStore :=
  {| tokenItem := None; expiryItem := None |}.

Definition world (s : Storage) (q : Storage -> bool) (a : AuthStore)
    (net : nat -> NetResult) : World :=
  {| localStorage := s; quota := q; sessionStorage := a;
     clock := fun n => 5 + Z.of_nat n; ticks := 0;
     network := net; arrival := fun _ => 0%nat;
     fetched := []; posted := [] |}.

Definition emptyStorage : Storage := {| items := ∅; appTable := None |}.

Definition bundleOf (name : string) : AppData :=
  {| manifest := VObj [("name", VStr name)];
     params := VObj [];
     appHtml := VStr "<p>old</p>";
     syncTime := VNum 1 |}.

Definition entryOf (name : string) (t : Z) : AppEntry :=
  {| bundle := bundleOf name; cachedAt := t |}.

(** Four apps cached at times 1 to 4, and one cached session. *)
Definition fullStorage : Storage :=
  {| items :=
       {[ DriveClient.CACHE_PREFIX +:+ "session_s1" :=
            Doc (VObj [("data", VObj [("name", VStr "old")]);
                       ("syncTime", VNum 1)]) ]};
     appTable :=
       Some [("A", entryOf "a" 1); ("B", entryOf "b" 2);
             ("C", entryOf "c" 3); ("D", entryOf "d" 4)] |}.

Definition online : World :=
  world fullStorage (fun _ => true) signedIn (fun _ => answer "file f1").

(** The storage is full: every write is refused. *)
Definition overQuota : World :=
  world fullStorage (fun _ => false) signedIn (fun _ => answer "file f1").

(** The lookup finds the file, the write that follows fails. *)
Definition writeFails : World :=
  world emptyStorage (fun _ => true) signedIn
        (fun n => match n with O => answer "list f1" | _ => failure end).

(** Every write to the remote store fails. *)
Definition offline : World :=
  world fullStorage (fun _ => true) signedIn (fun _ => failure).

(** The lookup finds the file, the write that follows succeeds. *)
Definition saving : World :=
  world fullStorage (fun _ => true) signedIn
        (fun n => match n with O => answer "list f1" | _ => answer "file f1" end).

Definition noToken : World :=
  world fullStorage (fun _ => true) signedOut (fun _ => denied).

(** The sessions folder is found, the session file is created. *)
Definition creating : World :=
  world emptyStorage (fun _ => true) signedIn
        (fun n => match n with O => answer "list f1" | _ => answer "file f1" end).

Definition guest : window := 1%nat.

Definition runner (session : option obj) : AppRunner.Runner :=
  {| AppRunner.appId := "A";
     AppRunner.manifest := VObj [("name", VStr "a")];
     AppRunner.params := VObj [];
     AppRunner.currentSession := session;
     AppRunner.iframe := Some {| AppRunner.contentWindow := Some guest |} |}.

Definition message (source : option window) (type : string)
    : AppRunner.MessageEvent :=
  {| AppRunner.source := source;
     AppRunner.data := VObj [("type", VStr type); ("data", VNum 7)] |}.

(** The iframe the host tracks has no window. *)
Definition detached (session : option obj) : AppRunner.Runner :=
  {| AppRunner.appId := "A";
     AppRunner.manifest := VObj [("name", VStr "a")];
     AppRunner.params := VObj [];
     AppRunner.currentSession := session;
     AppRunner.iframe := Some {| AppRunner.contentWindow := None |} |}.

(** A loaded session whose data is [null]. *)
Definition nullSession : obj :=
  [("id", VStr "s1"); ("name", VStr "Default"); ("data", VNull)].

Definition liveSession : obj :=
  [("id", VStr "s1"); ("name", VStr "Default");
   ("data", VObj [("count", VNum 3)])].

(** A platform that reads numbers and knows a list of session files. *)
Definition timed : Platform :=
  {| JSON_stringify := to_string;
     JSON_stringify_pretty := to_string;
     JSON_parse := fun text =>
       if String.eqb text "file f1" then Some (VObj [("id", VStr "f1")])
       else if String.eqb text "list f1"
       then Some (VObj [("files", VArr [VObj [("id", VStr "f1")]])])
       else if String.eqb text "sessions"
       then Some (VObj [("files",
                         VArr [VObj [("id", VStr "s1");
                                     ("name", VStr "Default.json");
                                     ("modifiedTime", VStr "T1")]])])
       else if String.eqb text "session s1"
       then Some (VObj [("name", VStr "fresh"); ("data", VObj [])])
       else None;
     encodeURIComponent := fun s => s;
     toISOString := fun t => "T" +:+ pretty t;
     parseInt := fun text =>
       if String.eqb text "300010" then Some 300010 else None |}.

(** A token that expires at 300010, five minutes and ten milliseconds after
    time 0. *)
Definition expiring : AuthStore :=
  {| tokenItem := Some "token"; expiryItem := Some "300010" |}.

(** The clock of [world] starts at 5: the token is still good. *)
Definition inTime : World :=
  world fullStorage (fun _ => true) expiring (fun _ => answer "file f1").

(** A minute later it is not. *)
Definition tooLate : World :=
  {| localStorage := fullStorage; quota := fun _ => true;
     sessionStorage := expiring;
     clock := fun n => 60000 + Z.of_nat n; ticks := 0;
     network := fun _ => answer "file f1"; arrival := fun _ => 0%nat;
     fetched := []; posted := [] |}.

(** The file id of app.html of app A is cached. *)
Definition lookedUp : World :=
  world {| items :=
             {[ DriveClient.CACHE_PREFIX +:+ "fileId_A_app.html" :=
                  Doc (VStr "f1") ]};
           appTable := None |}
        (fun _ => true) signedIn (fun _ => failure).

(** The content of session s1 is fetched. *)
Definition refreshing : World :=
  world fullStorage (fun _ => true) signedIn (fun _ => answer "session s1").

(** The sessions folder is found, then its files are listed. *)
Definition listing : World :=
  world emptyStorage (fun _ => true) signedIn
        (fun n => match n with O => answer "list f1" | _ => answer "sessions" end).

(** The three queries are answered first (the manifest is found, the
    parameters are not, the html is found), then the two reads. *)
Definition fetching : World :=
  world emptyStorage (fun _ => true) signedIn
        (fun n => match n with
                  | 0%nat => answer "list f1"
                  | 1%nat => answer "list none"
                  | 2%nat => answer "list f1"
                  | 3%nat => answer "file f1"
                  | _ => answer "<p>new</p>"
                  end).

(** Five entries, the first two cached at the same time. *)
Definition tied : AppTable :=
  [("A", entryOf "a" 1); ("B", entryOf "b" 1); ("C", entryOf "c" 2);
   ("D", entryOf "d" 3); ("E", entryOf "e" 4)].

(** A string with a double quote and an ampersand in it. *)
Definition quoted : string := String dquote "a&b".

End Toy.

(** ** Well-formed tables *)

(** What every table the program writes satisfies: one entry per id, at most
    [APP_CACHE_MAX] entries. *)
Definition table_ok (c : AppTable) : Prop :=
  NoDup c.*1 /\ (length c <= DriveClient.APP_CACHE_MAX)%nat.

(** An entry as it reads once stored. *)
Definition cleaned (e : AppEntry) : AppEntry :=
  {| bundle := DriveClient.clean_data (bundle e); cachedAt := cachedAt e |}.

(** The acknowledgement the host sends for a save that ended as [o]. *)
Definition sessionSaved (o : Outcome value) : value :=
  match o with
  | Ok _ => VObj [("type", VStr "session-saved"); ("success", VBool true)]
  | Throw e =>
      VObj [("type", VStr "session-saved"); ("success", VBool false);
            ("error", VStr (message_of e))]
  end.

(** A lookup that has come to its end. *)
Definition settled (l : DriveClient.FileLookup) : bool :=
  match l with
  | DriveClient.Fulfilled _ | DriveClient.Rejected _ => true
  | _ => false
  end.

(** The answers a lookup may still wait for, its own callback being one
    step more. *)
Definition waits (l : DriveClient.FileLookup) : nat :=
  match l with
  | DriveClient.Listing _ _ | DriveClient.Found _ => 2
  | DriveClient.Reading _ => 1
  | DriveClient.Fulfilled _ | DriveClient.Rejected _ => 0
  end.

(** How a round of [advance] may change a lookup: one that is chosen comes
    nearer to its end, unless it is at it; the others stay. *)
Definition stepped (which : DriveClient.FileLookup -> bool)
    (l l' : DriveClient.FileLookup) : Prop :=
  if which l
  then DriveClient.found l' = false /\
       ((waits l' < waits l)%nat \/ (settled l = true /\ l' = l))
  else l' = l.

(** The failure on record belongs to a rejected lookup, and there is one on
    record when a lookup is rejected. *)
Definition consistent (r : list DriveClient.FileLookup * option exn) : Prop :=
  (r.2 = None -> omap DriveClient.rejection r.1 = []) /\
  (forall e, r.2 = Some e -> DriveClient.Rejected e ∈ r.1).

(** The world [w'] has the requests of [w] and maybe more. *)
Definition sent_more (w w' : World) : Prop :=
  exists more, fetched w' = fetched w ++ more.

(** [a] comes before [b] in [l]. *)
Definition before {A : Type} (a b : A) (l : list A) : Prop :=
  exists l1 l2 l3, l = l1 ++ a :: l2 ++ b :: l3.

(** * Properties *)

(** ** Sorting and enumeration *)

Section SortByFacts.
Context {A : Type} (key : A -> Z).

Lemma insert_by_Permutation (x : A) (l : list A) :
  insert_by key x l ≡ₚ x :: l.
Proof.
  induction l as [|y r IH]; simpl; [done|].
  destruct (key x <=? key y); [done|].
  rewrite IH. apply perm_swap.
Qed.

Lemma sort_by_Permutation (l : list A) : sort_by key l ≡ₚ l.
Proof.
  induction l as [|x r IH]; simpl; [done|].
  by rewrite insert_by_Permutation, IH.
Qed.

Lemma insert_by_sorted (x : A) (l : list A) :
  StronglySorted (key_le key) l ->
  StronglySorted (key_le key) (insert_by key x l).
Proof.
  induction l as [|y r IH]; simpl; intros Hs.
  - repeat constructor.
  - apply StronglySorted_cons in Hs as [Hall Hr].
    destruct (Z.leb_spec (key x) (key y)) as [Hle|Hlt].
    + constructor; [by constructor|].
      constructor; [done|].
      eapply Forall_impl; [exact Hall|].
      intros z Hz. unfold key_le in *. lia.
    + constructor; [by apply IH|].
      rewrite insert_by_Permutation.
      constructor; [unfold key_le; lia | done].
Qed.

Lemma sort_by_sorted (l : list A) :
  StronglySorted (key_le key) (sort_by key l).
Proof.
  induction l as [|x r IH]; simpl; [constructor|].
  by apply insert_by_sorted.
Qed.

Lemma sort_by_length (l : list A) : length (sort_by key l) = length l.
Proof. by rewrite sort_by_Permutation. Qed.

(** The sort is stable: elements with the same key keep their order. *)
Lemma insert_by_stable (x : A) (l : list A) (k : Z) :
  List.filter (fun y => key y =? k) (insert_by key x l) =
  List.filter (fun y => key y =? k) (x :: l).
Proof.
  induction l as [|y r IH]; [done|].
  cbn [insert_by]. destruct (Z.leb_spec (key x) (key y)) as [Hle|Hlt]; [done|].
  cbn [List.filter] in *. rewrite IH.
  destruct (Z.eqb_spec (key x) k) as [Hx|Hx]; [|done].
  destruct (Z.eqb_spec (key y) k) as [Hy|Hy]; [lia|done].
Qed.

Lemma sort_by_stable (l : list A) (k : Z) :
  List.filter (fun y => key y =? k) (sort_by key l) =
  List.filter (fun y => key y =? k) l.
Proof.
  induction l as [|x r IH]; [done|].
  cbn [sort_by]. rewrite insert_by_stable. cbn [List.filter]. by rewrite IH.
Qed.
End SortByFacts.

Lemma filter_split_Permutation {A} (f : A -> bool) (l : list A) :
  List.filter f l ++ List.filter (fun x => negb (f x)) l ≡ₚ l.
Proof.
  induction l as [|x r IH]; simpl; [done|].
  destruct (f x); simpl.
  - by rewrite IH.
  - by rewrite <- Permutation_middle, IH.
Qed.

Lemma entries_Permutation {B} (o : list (string * B)) : entries o ≡ₚ o.
Proof.
  unfold entries. rewrite sort_by_Permutation. apply filter_split_Permutation.
Qed.

Lemma entries_length {B} (o : list (string * B)) :
  length (entries o) = length o.
Proof. by rewrite entries_Permutation. Qed.

Lemma filter_Permutation {A} (f : A -> bool) (l1 l2 : list A) :
  l1 ≡ₚ l2 -> List.filter f l1 ≡ₚ List.filter f l2.
Proof.
  induction 1 as [|x l1 l2 _ IH|x y l|l1 l2 l3 _ IH1 _ IH2]; simpl.
  - done.
  - destruct (f x); by rewrite IH.
  - destruct (f x), (f y); try done. apply perm_swap.
  - by rewrite IH1.
Qed.

Lemma filter_filter_andb {A} (f g : A -> bool) (l : list A) :
  List.filter f (List.filter g l) = List.filter (fun x => g x && f x) l.
Proof.
  induction l as [|x r IH]; simpl; [done|].
  destruct (g x); simpl; [destruct (f x)|]; by rewrite IH.
Qed.

Lemma filter_none {A} (f : A -> bool) (l : list A) :
  (forall x, In x l -> f x = false) -> List.filter f l = [].
Proof.
  induction l as [|x r IH]; simpl; intros H; [done|].
  rewrite (H x) by auto. apply IH. auto.
Qed.

(** ** The app files table *)

Import DriveClient.

(** No key of the cache helpers is the key of the app files table: the two
    parts of [Storage] are different items of [localStorage]. *)
Lemma app_cache_key_apart (key : string) :
  CACHE_PREFIX +:+ key <> APP_CACHE_KEY.
Proof. simpl. discriminate. Qed.

Lemma fold_table_delete (r c : AppTable) :
  fold_left (fun c kv => table_delete c kv.1) r c = List.filter (outside r) c.
Proof.
  revert c. induction r as [|x r IH]; intros c; simpl.
  - by rewrite filter_true.
  - rewrite IH. unfold table_delete. rewrite filter_filter_andb.
    apply filter_ext. done.
Qed.

Lemma outside_spec (r : AppTable) (kv : string * AppEntry) :
  outside r kv = true <-> kv.1 ∉ r.*1.
Proof.
  unfold outside. induction r as [|x r IH]; simpl.
  - split; [intros _; apply not_elem_of_nil | done].
  - rewrite andb_true_iff, IH, not_elem_of_cons, negb_true_iff.
    split; intros [H1 H2]; (split; [|done]).
    + intros Heq. by rewrite Heq, String.eqb_refl in H1.
    + by apply String.eqb_neq.
Qed.

Lemma filter_outside (c r rest : AppTable) :
  NoDup c.*1 -> r ++ rest ≡ₚ c -> List.filter (outside r) c ≡ₚ rest.
Proof.
  intros Hnd Hp.
  rewrite <- (filter_Permutation _ _ _ Hp), List.filter_app.
  assert (NoDup (r.*1 ++ rest.*1)) as Hnd'.
  { rewrite <- fmap_app. by rewrite Hp. }
  apply NoDup_app in Hnd' as (_ & Hdisj & _).
  replace (List.filter (outside r) r) with (@nil (string * AppEntry)).
  - simpl. rewrite forallb_filter_id; [done|].
    apply forallb_forall. intros kv Hin. apply outside_spec.
    intros Hk. apply (Hdisj _ Hk).
    apply list_elem_of_fmap. exists kv. split; [done|]. by apply list_elem_of_In.
  - symmetry. apply filter_none. intros kv Hin.
    apply not_true_iff_false. rewrite outside_spec. intros Hk. apply Hk.
    apply list_elem_of_fmap. exists kv. split; [done|]. by apply list_elem_of_In.
Qed.

Lemma table_put_keys (c : AppTable) (k : string) (e : AppEntry) (x : string) :
  x ∈ (table_put c k e).*1 -> x = k \/ x ∈ c.*1.
Proof.
  induction c as [|[k' e'] c IH]; simpl.
  - rewrite list_elem_of_singleton. auto.
  - destruct (String.eqb_spec k' k) as [->|Hne]; simpl.
    + rewrite !elem_of_cons. tauto.
    + rewrite !elem_of_cons. intros [->|H]; [auto|].
      destruct (IH H); auto.
Qed.

Lemma table_put_NoDup (c : AppTable) (k : string) (e : AppEntry) :
  NoDup c.*1 -> NoDup (table_put c k e).*1.
Proof.
  induction c as [|[k' e'] c IH]; simpl; intros Hnd.
  - apply NoDup_singleton.
  - apply NoDup_cons in Hnd as [Hk' Hc].
    destruct (String.eqb_spec k' k) as [->|Hne]; simpl.
    + by apply NoDup_cons.
    + apply NoDup_cons. split; [|by apply IH].
      intros Hin. apply table_put_keys in Hin as [->|Hin]; done.
Qed.

Lemma table_get_put (c : AppTable) (k : string) (e : AppEntry) :
  table_get (table_put c k e) k = Some e.
Proof.
  unfold table_get. induction c as [|[k' e'] c IH]; simpl.
  - by rewrite String.eqb_refl.
  - destruct (String.eqb_spec k' k) as [->|Hne]; simpl.
    + by rewrite String.eqb_refl.
    + apply String.eqb_neq in Hne. by rewrite Hne.
Qed.

Lemma table_put_elem (c : AppTable) (k : string) (e : AppEntry)
    (kv : string * AppEntry) :
  NoDup c.*1 ->
  kv ∈ table_put c k e -> kv = (k, e) \/ (kv ∈ c /\ kv.1 <> k).
Proof.
  induction c as [|[k' e'] c IH]; simpl; intros Hnd.
  - rewrite list_elem_of_singleton. auto.
  - apply NoDup_cons in Hnd as [Hk' Hc].
    destruct (String.eqb_spec k' k) as [->|Hne].
    + rewrite !elem_of_cons. intros [->|H]; [auto|].
      right. split; [by right|].
      intros <-. apply Hk'. apply list_elem_of_fmap. by exists kv.
    + rewrite !elem_of_cons. intros [->|H].
      * right. split; [by left|done].
      * destruct (IH Hc H) as [->|[Hin Hk]]; [by left|].
        right. split; [by right|done].
Qed.

Lemma elem_of_table_put (c : AppTable) (k : string) (e : AppEntry) :
  (k, e) ∈ table_put c k e.
Proof.
  induction c as [|[k' e'] c IH]; simpl.
  - apply list_elem_of_here.
  - destruct (String.eqb k' k); [apply list_elem_of_here|].
    by apply list_elem_of_further.
Qed.

Lemma table_put_length_in (c : AppTable) (k : string) (e e0 : AppEntry) :
  table_get c k = Some e0 -> length (table_put c k e) = length c.
Proof.
  unfold table_get. induction c as [|[k' e'] c IH]; simpl; [done|].
  destruct (String.eqb k' k); simpl; [done|]. intros H. by rewrite IH.
Qed.

Lemma table_get_put_ne (c : AppTable) (k k' : string) (e : AppEntry) :
  k' <> k -> table_get (table_put c k e) k' = table_get c k'.
Proof.
  intros Hne. unfold table_get.
  induction c as [|[k0 e0] c IH]; simpl.
  - apply String.eqb_neq in Hne. by rewrite String.eqb_sym, Hne.
  - destruct (String.eqb_spec k0 k) as [->|Hk]; simpl.
    + assert (String.eqb k k' = false) as -> by by apply String.eqb_neq.
      done.
    + destruct (String.eqb k0 k'); simpl; [done|]. apply IH.
Qed.

Lemma table_put_length (c : AppTable) (k : string) (e : AppEntry) :
  (length c <= length (table_put c k e) <= S (length c))%nat.
Proof.
  induction c as [|[k' e'] c IH]; simpl; [lia|].
  destruct (String.eqb k' k); simpl; lia.
Qed.

Lemma table_get_None (c : AppTable) (k : string) :
  table_get c k = None -> k ∉ c.*1.
Proof.
  unfold table_get. induction c as [|[k' e'] c IH]; simpl.
  - intros _. apply not_elem_of_nil.
  - destruct (String.eqb_spec k' k) as [->|Hne]; simpl; [done|].
    intros H. apply not_elem_of_cons. split; [done|by apply IH].
Qed.

(** The assignment adds or updates an own property, unless the id is
    ["__proto__"] and the table has no such property: then the table is left
    as it is. *)
Lemma table_set_cases (c : AppTable) (k : string) (e : AppEntry) :
  table_set c k e = table_put c k e \/
  (table_set c k e = c /\ k = "__proto__" /\ table_get c k = None).
Proof.
  unfold table_set. destruct (table_get c k) as [e0|]; [by left|].
  destruct (String.eqb_spec k "__proto__") as [->|Hne]; [by right|by left].
Qed.

Lemma table_set_own (c : AppTable) (k : string) (e : AppEntry) :
  k <> "__proto__" \/ is_Some (table_get c k) ->
  table_set c k e = table_put c k e.
Proof.
  intros H. destruct (table_set_cases c k e) as [Hp|(_ & -> & Hn)]; [done|].
  destruct H as [H|[e0 H]]; [done|congruence].
Qed.

Lemma table_set_keys (c : AppTable) (k : string) (e : AppEntry) (x : string) :
  x ∈ (table_set c k e).*1 -> x = k \/ x ∈ c.*1.
Proof.
  destruct (table_set_cases c k e) as [->|(-> & _)]; [|auto].
  apply table_put_keys.
Qed.

Lemma table_set_NoDup (c : AppTable) (k : string) (e : AppEntry) :
  NoDup c.*1 -> NoDup (table_set c k e).*1.
Proof.
  destruct (table_set_cases c k e) as [->|(-> & _)]; [|done].
  apply table_put_NoDup.
Qed.

Lemma table_get_set (c : AppTable) (k : string) (e : AppEntry) :
  k <> "__proto__" \/ is_Some (table_get c k) ->
  table_get (table_set c k e) k = Some e.
Proof. intros H. rewrite table_set_own by done. apply table_get_put. Qed.

(** The evicted entries are a prefix of the entries in ascending [cachedAt]. *)
Lemma toRemove_prefix (c : AppTable) :
  toRemove c =
  firstn (length c - APP_CACHE_MAX) (sort_by entry_time (entries c)).
Proof.
  unfold toRemove. rewrite entries_length.
  destruct (Nat.ltb_spec APP_CACHE_MAX (length c)) as [Hlt|Hge]; [done|].
  by replace (length c - APP_CACHE_MAX)%nat with 0%nat by lia.
Qed.

Lemma toRemove_kept (c : AppTable) : toRemove c ++ kept c ≡ₚ c.
Proof.
  rewrite toRemove_prefix. unfold kept. rewrite firstn_skipn.
  by rewrite sort_by_Permutation, entries_Permutation.
Qed.

Lemma toRemove_length (c : AppTable) :
  length (toRemove c) = (length c - APP_CACHE_MAX)%nat.
Proof.
  rewrite toRemove_prefix, length_firstn, sort_by_length, entries_length. lia.
Qed.

Lemma evict_kept (c : AppTable) : NoDup c.*1 -> evict c ≡ₚ kept c.
Proof.
  intros Hnd. unfold evict. rewrite fold_table_delete.
  apply filter_outside; [done|]. apply toRemove_kept.
Qed.

Lemma evict_length (c : AppTable) :
  (length (evict c) <= APP_CACHE_MAX)%nat.
Proof.
  unfold evict. rewrite fold_table_delete.
  (* every entry of [toRemove c] is deleted, whatever else is *)
  pose proof (toRemove_kept c) as Hp.
  pose proof (filter_Permutation (outside (toRemove c)) _ _ Hp) as Hf.
  rewrite <- Hf, List.filter_app, length_app.
  rewrite (filter_none (outside (toRemove c)) (toRemove c)).
  - simpl. etransitivity; [apply List.filter_length_le|].
    unfold kept. rewrite length_skipn, sort_by_length, entries_length. lia.
  - intros kv Hin. apply not_true_iff_false. rewrite outside_spec.
    intros Hk. apply Hk. apply list_elem_of_fmap. exists kv.
    split; [done|]. by apply list_elem_of_In.
Qed.

Lemma toRemove_oldest (c : AppTable) (e k : string * AppEntry) :
  e ∈ toRemove c -> k ∈ kept c -> entry_time e <= entry_time k.
Proof.
  rewrite toRemove_prefix. unfold kept. intros He Hk.
  pose proof (sort_by_sorted entry_time (entries c)) as Hs.
  rewrite <- (firstn_skipn (length c - APP_CACHE_MAX)) in Hs.
  exact (StronglySorted_app_1_elem_of _ _ _ _ _ Hs He Hk).
Qed.

Lemma persisted_Permutation (c : AppTable) : persisted c ≡ₚ clean_entry <$> c.
Proof. unfold persisted. by rewrite entries_Permutation. Qed.

Lemma entry_time_clean (kv : string * AppEntry) :
  entry_time (clean_entry kv) = entry_time kv.
Proof. done. Qed.

Lemma table_set_elem (c : AppTable) (k : string) (e : AppEntry)
    (kv : string * AppEntry) :
  NoDup c.*1 ->
  kv ∈ table_set c k e -> kv = (k, e) \/ (kv ∈ c /\ kv.1 <> k).
Proof.
  intros Hnd.
  destruct (table_set_cases c k e) as [->|(-> & _ & Hn)];
    [by apply table_put_elem|].
  intros Hin. right. split; [done|].
  intros <-. apply (table_get_None _ _ Hn).
  apply list_elem_of_fmap. by exists kv.
Qed.

Lemma elem_of_table_set (c : AppTable) (k : string) (e : AppEntry) :
  k <> "__proto__" \/ is_Some (table_get c k) ->
  (k, e) ∈ table_set c k e.
Proof. intros H. rewrite table_set_own by done. apply elem_of_table_put. Qed.

Lemma table_get_elem (c : AppTable) (k : string) (e : AppEntry) :
  NoDup c.*1 -> (k, e) ∈ c -> table_get c k = Some e.
Proof.
  unfold table_get.
  induction c as [|[k' e'] c IH]; simpl; intros Hnd Hin.
  - by apply elem_of_nil in Hin.
  - apply NoDup_cons in Hnd as [Hk' Hc].
    apply elem_of_cons in Hin as [Heq|Hin].
    + injection Heq as <- <-. by rewrite String.eqb_refl.
    + destruct (String.eqb_spec k' k) as [->|Hne]; simpl.
      * exfalso. apply Hk'. apply list_elem_of_fmap. by exists (k, e).
      * by apply IH.
Qed.

Lemma clean_entry_keys (c : AppTable) : (clean_entry <$> c).*1 = c.*1.
Proof. rewrite <- list_fmap_compose. by apply list_fmap_ext. Qed.

Lemma kept_NoDup (c : AppTable) : NoDup c.*1 -> NoDup (kept c).*1.
Proof.
  intros Hnd. rewrite <- (toRemove_kept c), fmap_app in Hnd.
  by apply NoDup_app in Hnd as (_ & _ & ?).
Qed.

Lemma updated_table_NoDup (c : AppTable) (appId : string) (data : AppData)
    (now : Z) :
  NoDup c.*1 -> NoDup (updated_table c appId data now).*1.
Proof.
  intros Hnd. unfold updated_table.
  rewrite persisted_Permutation, clean_entry_keys.
  rewrite evict_kept by by apply table_set_NoDup.
  apply kept_NoDup. by apply table_set_NoDup.
Qed.

(** Distinct keys and the bound of four entries are kept by every write. *)
Lemma updated_table_bound (c : AppTable) (appId : string) (data : AppData)
    (now : Z) :
  (length (updated_table c appId data now) <= APP_CACHE_MAX)%nat.
Proof.
  unfold updated_table, persisted.
  rewrite length_fmap, entries_length. apply evict_length.
Qed.

(** What [setAppCache] leaves in [localStorage]. *)
Lemma setAppCache_run (appId : string) (data : AppData) (w : World) :
  let now := clock w (ticks w) in
  let s' := {| items := items (localStorage w);
               appTable := Some (updated_table (getAppCache_in (localStorage w))
                                               appId data now) |} in
  setAppCache appId data w =
  (Ok tt, if quota w s' then set_localStorage s' (set_ticks (S (ticks w)) w)
          else set_ticks (S (ticks w)) w).
Proof. done. Qed.

Lemma getAppFromCache_run (appId : string) (w : World) :
  getAppFromCache appId w =
  (Ok (table_read (getAppCache_in (localStorage w)) appId), w).
Proof. done. Qed.

Lemma table_read_own (c : AppTable) (appId : string) (e : AppEntry) :
  table_get c appId = Some e -> table_read c appId = Entry e.
Proof. unfold table_read. by intros ->. Qed.

Lemma filter_all {A} (f : A -> bool) (l : list A) :
  (forall x, x ∈ l -> f x = true) -> List.filter f l = l.
Proof.
  induction l as [|x r IH]; simpl; intros H; [done|].
  rewrite (H x) by apply list_elem_of_here.
  f_equal. apply IH. intros y Hy. apply H. by apply list_elem_of_further.
Qed.

(** An own property put into a table with one entry per id: the new entry,
    and the entries of the other ids. *)
Lemma table_put_Permutation (c : AppTable) (k : string) (e : AppEntry) :
  NoDup c.*1 ->
  table_put c k e ≡ₚ
  (k, e) :: List.filter (fun kv => negb (String.eqb kv.1 k)) c.
Proof.
  induction c as [|[k' e'] c IH]; simpl; intros Hnd; [done|].
  apply NoDup_cons in Hnd as [Hk' Hc].
  destruct (String.eqb_spec k' k) as [->|Hne]; simpl.
  - rewrite filter_all; [done|].
    intros kv Hin. apply negb_true_iff, String.eqb_neq. intros Heq.
    apply Hk'. apply list_elem_of_fmap. by exists kv.
  - rewrite IH by done. apply perm_swap.
Qed.

(** An entry stamped later than everything in the table is never the one
    dropped: after the write it is there, as stored. *)
Lemma updated_table_keeps_newest (c : AppTable) (appId : string)
    (data : AppData) (now : Z) :
  NoDup c.*1 ->
  appId <> "__proto__" \/ is_Some (table_get c appId) ->
  (forall k, k ∈ c -> cachedAt k.2 < now) ->
  (appId, {| bundle := clean_data data; cachedAt := now |})
    ∈ updated_table c appId data now.
Proof.
  intros Hnd Hown Hold.
  set (x := (appId, {| bundle := data; cachedAt := now |})).
  set (c1 := table_set c appId x.2).
  assert (NoDup c1.*1) as Hnd1 by by apply table_set_NoDup.
  assert (x ∈ kept c1) as Hkept.
  { assert (x ∈ (toRemove c1 ++ kept c1)%list) as Hx.
    { rewrite toRemove_kept. by apply elem_of_table_set. }
    apply elem_of_app in Hx as [Hx|Hx]; [exfalso|done].
    assert (NoDup ((toRemove c1 ++ kept c1)%list).*1) as Hnd2
      by by rewrite toRemove_kept.
    rewrite fmap_app in Hnd2. apply NoDup_app in Hnd2 as (_ & Hdisj & _).
    assert (length (kept c1) = 4%nat) as Hlen.
    { pose proof (toRemove_length c1) as Hr.
      pose proof (toRemove_kept c1) as Hp. apply Permutation_length in Hp.
      rewrite length_app in Hp.
      destruct (toRemove c1) as [|? ?] eqn:E; [by apply elem_of_nil in Hx|].
      simpl in *. unfold APP_CACHE_MAX in *. lia. }
    assert (exists k, k ∈ kept c1) as [k Hk].
    { destruct (kept c1) as [|k rest]; [done|].
      exists k. apply list_elem_of_here. }
    pose proof (toRemove_oldest c1 x k Hx Hk) as Hle.
    assert (k ∈ c1) as Hk1.
    { rewrite <- (toRemove_kept c1). apply elem_of_app. by right. }
    apply table_set_elem in Hk1 as [->|[Hkc _]]; [| |done].
    - apply (Hdisj appId).
      + apply list_elem_of_fmap. by exists x.
      + apply list_elem_of_fmap. by exists (appId, x.2).
    - specialize (Hold k Hkc). unfold entry_time in Hle. simpl in Hle. lia. }
  unfold updated_table. fold c1.
  rewrite persisted_Permutation, evict_kept by done.
  apply list_elem_of_fmap. by exists x.
Qed.

(** C2, as the code has it. The table before the call is [c], with one
    entry per id; the call is made at time [now]. When the storage accepts
    the write, the table holds at most [APP_CACHE_MAX] = 4 entries
    afterwards; and for an id other than ["__proto__"], the entries left
    and the entries dropped make up the new entry together with the former
    entries of the other ids, exactly the excess over 4 is dropped, each
    dropped entry has a [cachedAt] no later than that of each entry left,
    and a new entry stamped later than all those present is among those
    left. When the storage refuses the write, the table is left as it
    was. *)
Theorem setAppCache_bounded_lru (appId : string) (data : AppData) (w : World) :
  let c := getAppCache_in (localStorage w) in
  let now := clock w (ticks w) in
  let new := (appId, {| bundle := data; cachedAt := now |}) in
  let present :=
    new :: List.filter (fun kv => negb (String.eqb kv.1 appId)) c in
  let c' := getAppCache_in (localStorage (setAppCache appId data w).2) in
  NoDup c.*1 ->
  if quota w {| items := items (localStorage w);
                appTable := Some (updated_table c appId data now) |}
  then
    (length c' <= 4)%nat /\
    (appId <> "__proto__" ->
     exists dropped,
       c' ++ (clean_entry <$> dropped) ≡ₚ clean_entry <$> present /\
       length dropped = (length present - 4)%nat /\
       (forall e k, e ∈ dropped -> k ∈ c' -> cachedAt e.2 <= cachedAt k.2) /\
       ((forall k, k ∈ c -> cachedAt k.2 < now) -> clean_entry new ∈ c'))
  else c' = c.
Proof.
  intros c now new present c' Hnd. subst c'. rewrite setAppCache_run.
  fold c now. destruct (quota w _); simpl; [|done].
  split; [apply updated_table_bound|].
  intros Hproto.
  unfold getAppCache_in; simpl.
  set (c1 := table_set c appId {| bundle := data; cachedAt := now |}).
  assert (c1 = table_put c appId {| bundle := data; cachedAt := now |})
    as Hput by (apply table_set_own; by left).
  assert (NoDup c1.*1) as Hnd1 by by apply table_set_NoDup.
  assert (c1 ≡ₚ present) as Hpresent
    by (rewrite Hput; by apply table_put_Permutation).
  exists (toRemove c1). split; [|split; [|split]].
  - unfold updated_table. fold c1.
    rewrite persisted_Permutation, <- fmap_app.
    rewrite evict_kept by done.
    by rewrite (Permutation_app_comm (kept c1)), toRemove_kept, Hpresent.
  - by rewrite toRemove_length, Hpresent.
  - intros e k He Hk. unfold updated_table in Hk. fold c1 in Hk.
    rewrite persisted_Permutation in Hk.
    apply list_elem_of_fmap in Hk as (k0 & -> & Hk0).
    rewrite evict_kept in Hk0 by done.
    exact (toRemove_oldest c1 e k0 He Hk0).
  - intros Hold. apply updated_table_keeps_newest; [done|by left|done].
Qed.

(** ** Frames of the operations *)

Section Frames.
Context (R : World -> World -> Prop) `{!Reflexive R} `{!Transitive R}.

Lemma preserves_ret {A} (a : A) : preserves R (ret a).
Proof. intros w. simpl. reflexivity. Qed.

Lemma preserves_throw {A} (e : exn) : preserves R (@throw A e).
Proof. intros w. simpl. reflexivity. Qed.

Lemma preserves_bind {A B} (m : M A) (k : A -> M B) :
  preserves R m -> (forall a, preserves R (k a)) -> preserves R (bind m k).
Proof.
  intros Hm Hk w. unfold bind. specialize (Hm w).
  destruct (m w) as [[a|e] w1]; simpl in *; [|done].
  etransitivity; [exact Hm|apply Hk].
Qed.

Lemma preserves_try_catch {A} (m : M A) (h : exn -> M A) :
  preserves R m -> (forall e, preserves R (h e)) ->
  preserves R (try_catch m h).
Proof.
  intros Hm Hh w. unfold try_catch. specialize (Hm w).
  destruct (m w) as [[a|e] w1]; simpl in *; [done|].
  etransitivity; [exact Hm|apply Hh].
Qed.

Lemma preserves_if {A} (b : bool) (m1 m2 : M A) :
  preserves R m1 -> preserves R m2 -> preserves R (if b then m1 else m2).
Proof. by destruct b. Qed.
End Frames.

Global Instance net_only_refl : Reflexive net_only.
Proof. by intros w. Qed.

Global Instance net_only_trans : Transitive net_only.
Proof.
  intros w1 w2 w3 (H1 & H2 & H3) (H4 & H5 & H6).
  repeat split; congruence.
Qed.

Create HintDb frame.
#[local] Hint Resolve preserves_ret preserves_throw preserves_bind
  preserves_try_catch preserves_if : frame.
#[local] Hint Extern 1 (Reflexive _) => typeclasses eauto : frame.
#[local] Hint Extern 1 (Transitive _) => typeclasses eauto : frame.

Lemma Date_now_net_only : preserves net_only Date_now.
Proof. by intros w. Qed.

Lemma fetch_net_only r : preserves net_only (fetch r).
Proof. intros w. unfold fetch. by destruct (network w _). Qed.

Lemma member_net_only v k : preserves net_only (member v k).
Proof. intros w. unfold member. by destruct (get_prop v k). Qed.

Lemma first_of_net_only v : preserves net_only (first_of v).
Proof. intros w. unfold first_of. by destruct (get_first v). Qed.

Lemma response_json_net_only P r : preserves net_only (response_json P r).
Proof. intros w. unfold response_json. by destruct (JSON_parse P _). Qed.

Lemma getToken_net_only P : preserves net_only (GoogleAuth.getToken P).
Proof.
  intros w. unfold GoogleAuth.getToken.
  destruct (_ || _); [done|].
  unfold bind, Date_now. simpl.
  destruct (parseInt P _) as [e|]; [|done].
  by destruct (_ >? _).
Qed.

#[local] Hint Resolve Date_now_net_only fetch_net_only member_net_only
  first_of_net_only response_json_net_only getToken_net_only : frame.

Lemma request_net_only P url o : preserves net_only (request P url o).
Proof.
  unfold request. apply preserves_bind; eauto with frame.
  intros token. destruct (GoogleAuth.missing token); eauto 10 with frame.
Qed.

Lemma createFile_net_only P p n c : preserves net_only (createFile P p n c).
Proof. unfold createFile. eauto 10 with frame. Qed.

Lemma updateFile_net_only P f c : preserves net_only (updateFile P f c).
Proof. unfold updateFile. eauto 10 with frame. Qed.

Lemma getFileContent_net_only P f : preserves net_only (getFileContent P f).
Proof. unfold getFileContent. eauto 10 with frame. Qed.

(** ** Authentication *)

Lemma getToken_fetched P (w : World) :
  fetched (GoogleAuth.getToken P w).2 = fetched w /\
  network (GoogleAuth.getToken P w).2 = network w.
Proof.
  unfold GoogleAuth.getToken.
  destruct (_ || _); [done|].
  unfold bind, Date_now. simpl.
  destruct (parseInt P _) as [e|]; [|done].
  by destruct (_ >? _).
Qed.

Lemma fetch_fetched (r : Request) (w : World) :
  fetched (fetch r w).2 = fetched w ++ [r].
Proof. unfold fetch. by destruct (network w _). Qed.

(** C5. Without a valid credential [request] fails with "Not authenticated"
    and sends nothing; [createFile], [updateFile] and [getFileContent] do
    not look at the token they got: each sends its request, with the header
    "Bearer null". *)
Theorem file_operations_skip_token_check (P : Platform) (w w1 : World) :
  GoogleAuth.getToken P w = (Ok None, w1) ->
  (forall url o,
     request P url o w = (Throw (Error "Not authenticated"), w1) /\
     fetched w1 = fetched w) /\
  (forall parentId name content,
     fetched (createFile P parentId name content w).2 =
     fetched w ++
     [unauthorized "POST" (UPLOAD_API +:+ "/files?uploadType=multipart") []
        (FormBody
           [("metadata", "application/json",
             JSON_stringify P
               (VObj [("name", VStr name); ("parents", VArr [parentId])]));
            ("file", "text/plain", content)])]) /\
  (forall fileId content,
     fetched (updateFile P fileId content w).2 =
     fetched w ++
     [unauthorized "PATCH"
        (UPLOAD_API +:+ "/files/" +:+ to_string fileId +:+ "?uploadType=media")
        [("Content-Type", "text/plain")] (TextBody content)]) /\
  (forall fileId,
     fetched (getFileContent P fileId w).2 =
     fetched w ++
     [unauthorized "GET"
        (DRIVE_API +:+ "/files/" +:+ to_string fileId +:+ "?alt=media")
        [] NoBody]).
Proof.
  intros Htok.
  pose proof (getToken_fetched P w) as [Hf _]. rewrite Htok in Hf. simpl in Hf.
  split; [|split; [|split]].
  - intros url o. split; [|done]. unfold request, bind. by rewrite Htok.
  - intros parentId name content. unfold createFile, bind. rewrite Htok.
    unfold fetch. rewrite Hf.
    destruct (network w1 _) as [m|resp]; [done|].
    destruct (negb (ok resp)); [done|].
    unfold response_json. by destruct (JSON_parse P _).
  - intros fileId content. unfold updateFile, bind. rewrite Htok.
    unfold fetch. rewrite Hf.
    destruct (network w1 _) as [m|resp]; [done|].
    destruct (negb (ok resp)); [done|].
    unfold response_json. by destruct (JSON_parse P _).
  - intros fileId. unfold getFileContent, bind. rewrite Htok.
    unfold fetch. rewrite Hf.
    destruct (network w1 _) as [m|resp]; [done|].
    by destruct (negb (ok resp)).
Qed.

(** ** App deletion *)

(** The storage [deleteApp] leaves: six items removed, the table as it was. *)
Lemma deleteApp_storage (P : Platform) (appId : string) (w : World) :
  localStorage (deleteApp P appId w).2 =
  remove_item ("fileId_" +:+ appId +:+ "_params.json")
    (remove_item ("fileId_" +:+ appId +:+ "_app.html")
       (remove_item ("fileId_" +:+ appId +:+ "_manifest.json")
          (remove_item ("sessions_" +:+ appId)
             (remove_item ("sessionsFolderId_" +:+ appId)
                (remove_item ("appFiles_" +:+ appId) (localStorage w)))))).
Proof.
  unfold deleteApp, bind, cacheDelete. simpl.
  match goal with
  | |- localStorage (request P ?u ?o ?w0).2 = _ =>
      destruct (request_net_only P u o w0) as (-> & _ & _)
  end.
  done.
Qed.

(** C1. [deleteApp] removes the items [appFiles_], [sessionsFolderId_],
    [sessions_] and [fileId_] of the app and nothing else: the entry of the
    app in the app files table stays, so [getAppFiles] without force
    refresh answers from it, with no request; and every cached session
    document stays. *)
Theorem deleteApp_leaves_cached_bundle (P : Platform) (appId : string)
    (e : AppEntry) (w : World) :
  table_get (getAppCache_in (localStorage w)) appId = Some e ->
  let w' := (deleteApp P appId w).2 in
  getAppFiles P appId false w' =
    (Ok {| manifest := manifest (bundle e); params := params (bundle e);
           appHtml := appHtml (bundle e); syncTime := VNum (cachedAt e) |},
     w') /\
  forall sessionId,
    cacheGet_in (localStorage w') ("session_" +:+ sessionId) =
    cacheGet_in (localStorage w) ("session_" +:+ sessionId).
Proof.
  intros Hget w'. subst w'. split.
  - unfold getAppFiles. unfold bind at 1. rewrite getAppFromCache_run.
    rewrite deleteApp_storage. unfold getAppCache_in in *. simpl.
    by rewrite (table_read_own _ _ _ Hget).
  - intros sessionId. rewrite deleteApp_storage.
    unfold cacheGet_in, remove_item. simpl.
    by rewrite !lookup_delete_ne by (simpl; discriminate).
Qed.

Global Instance only_item_refl k : Reflexive (only_item k).
Proof. by intros w. Qed.

Global Instance only_item_trans k : Transitive (only_item k).
Proof.
  intros w1 w2 w3 (H1 & H2 & H3 & H4) (H5 & H6 & H7 & H8).
  repeat split; try congruence.
  intros k' Hk. by rewrite H6, H2.
Qed.

Global Instance table_kept_refl : Reflexive table_kept.
Proof. by intros w. Qed.

Global Instance table_kept_trans : Transitive table_kept.
Proof.
  intros w1 w2 w3 (H1 & H2 & H3) (H4 & H5 & H6). repeat split; congruence.
Qed.

Lemma preserves_weaken {A} (R R' : World -> World -> Prop) (m : M A) :
  (forall w w', R w w' -> R' w w') -> preserves R m -> preserves R' m.
Proof. intros HR Hm w. apply HR, Hm. Qed.

Lemma net_only_only_item k w w' : net_only w w' -> only_item k w w'.
Proof. intros (H1 & H2 & H3). unfold only_item. by rewrite H1. Qed.

Lemma only_item_table_kept k w w' : only_item k w w' -> table_kept w w'.
Proof. intros (H1 & _ & H2 & H3). done. Qed.

Lemma net_only_table_kept w w' : net_only w w' -> table_kept w w'.
Proof. intros H. by apply (only_item_table_kept ""), net_only_only_item. Qed.

Lemma cacheGet_net_only key : preserves net_only (cacheGet key).
Proof. by intros w. Qed.

Lemma cacheSet_only_item key v :
  preserves (only_item (CACHE_PREFIX +:+ key)) (cacheSet key v).
Proof.
  intros w. unfold cacheSet, commit. simpl.
  destruct (quota w _); [|done]. repeat split; simpl.
  intros k' Hk. by rewrite lookup_insert_ne.
Qed.

Lemma cacheDelete_only_item key :
  preserves (only_item (CACHE_PREFIX +:+ key)) (cacheDelete key).
Proof.
  intros w. unfold cacheDelete. repeat split; simpl.
  intros k' Hk. by rewrite lookup_delete_ne.
Qed.

#[local] Hint Resolve cacheGet_net_only : frame.

Lemma findFile_only_item P parentId name :
  preserves
    (only_item (CACHE_PREFIX +:+ "fileId_" +:+ parentId +:+ "_" +:+ name))
    (findFile P parentId name).
Proof.
  unfold findFile.
  assert (forall A (m : M A), preserves net_only m ->
            preserves
              (only_item
                 (CACHE_PREFIX +:+ "fileId_" +:+ parentId +:+ "_" +:+ name)) m)
    as Hnet.
  { intros A m. apply preserves_weaken, net_only_only_item. }
  apply preserves_bind; [typeclasses eauto|auto with frame|].
  intros cachedId. apply preserves_if; [apply preserves_ret; typeclasses eauto|].
  apply preserves_bind; [typeclasses eauto|apply Hnet, request_net_only|].
  intros result.
  apply preserves_bind; [typeclasses eauto|apply Hnet, member_net_only|].
  intros files.
  apply preserves_bind; [typeclasses eauto|apply Hnet, first_of_net_only|].
  intros first.
  apply preserves_if; [|apply preserves_ret; typeclasses eauto].
  apply preserves_bind; [typeclasses eauto|apply Hnet, member_net_only|].
  intros id.
  apply preserves_bind; [typeclasses eauto|apply cacheSet_only_item|].
  intros _. apply preserves_ret; typeclasses eauto.
Qed.

Lemma writeFile_net_only P file parentId name content :
  preserves net_only (writeFile P file parentId name content).
Proof.
  unfold writeFile. apply preserves_if.
  - apply preserves_bind; [typeclasses eauto|auto with frame|].
    intros id. apply updateFile_net_only.
  - apply createFile_net_only.
Qed.

Lemma getSessionsFolderId_table_kept P appId :
  preserves table_kept (getSessionsFolderId P appId).
Proof.
  assert (forall A (m : M A), preserves net_only m -> preserves table_kept m)
    as Hnet.
  { intros A m. apply preserves_weaken, net_only_table_kept. }
  assert (forall A k (m : M A), preserves (only_item k) m ->
            preserves table_kept m) as Hitem.
  { intros A k m. apply preserves_weaken, only_item_table_kept. }
  unfold getSessionsFolderId.
  apply preserves_bind; [typeclasses eauto|apply Hnet, cacheGet_net_only|].
  intros cached. apply preserves_if; [apply preserves_ret; typeclasses eauto|].
  apply preserves_bind;
    [typeclasses eauto|eapply Hitem, findFile_only_item|].
  intros folder. apply preserves_if.
  - apply preserves_bind; [typeclasses eauto|apply Hnet, request_net_only|].
    intros newFolder.
    apply preserves_bind; [typeclasses eauto|apply Hnet, member_net_only|].
    intros id.
    apply preserves_bind; [typeclasses eauto|eapply Hitem, cacheSet_only_item|].
    intros _. apply preserves_ret; typeclasses eauto.
  - apply preserves_bind; [typeclasses eauto|apply Hnet, member_net_only|].
    intros id.
    apply preserves_bind; [typeclasses eauto|eapply Hitem, cacheSet_only_item|].
    intros _. apply preserves_ret; typeclasses eauto.
Qed.

Lemma saveManifest_only_item P appId m :
  preserves
    (only_item (CACHE_PREFIX +:+ "fileId_" +:+ appId +:+ "_manifest.json"))
    (saveManifest P appId m).
Proof.
  unfold saveManifest.
  apply preserves_bind; [typeclasses eauto|apply findFile_only_item|].
  intros file.
  eapply preserves_weaken; [apply net_only_only_item|apply writeFile_net_only].
Qed.

Lemma saveParams_only_item P appId p :
  preserves
    (only_item (CACHE_PREFIX +:+ "fileId_" +:+ appId +:+ "_params.json"))
    (saveParams P appId p).
Proof.
  unfold saveParams.
  apply preserves_bind; [typeclasses eauto|apply findFile_only_item|].
  intros file.
  eapply preserves_weaken; [apply net_only_only_item|apply writeFile_net_only].
Qed.

(** ** Saving *)

(** C4, as the code has it. A [saveSession] that throws leaves
    [localStorage] exactly as it was. A [saveAppHtml] that throws leaves the
    app files table and every item as they were, except the item
    [fileId_<appId>_app.html], which the lookup before the write may have
    filled in. *)
Theorem failed_save_keeps_documents (P : Platform) (w : World) :
  (forall sessionId data err w',
     saveSession P sessionId data w = (Throw err, w') ->
     localStorage w' = localStorage w) /\
  (forall appId content err w',
     saveAppHtml P appId content w = (Throw err, w') ->
     appTable (localStorage w') = appTable (localStorage w) /\
     forall k, k <> CACHE_PREFIX +:+ "fileId_" +:+ appId +:+ "_app.html" ->
       items (localStorage w') !! k = items (localStorage w) !! k).
Proof.
  split.
  - intros sessionId data err w'. unfold saveSession, bind.
    pose proof (updateFile_net_only P (VStr sessionId)
                  (JSON_stringify_pretty P data) w) as (Hs & _).
    destruct (updateFile P _ _ w) as [[r|e] w1]; simpl in *.
    + unfold cacheSet, commit; simpl. by destruct (quota _ _).
    + intros [= _ <-]. done.
  - intros appId content err w'. unfold saveAppHtml, bind.
    pose proof (findFile_only_item P appId "app.html" w) as Hfind.
    destruct (findFile P appId "app.html" w) as [[file|e] w1];
      simpl in Hfind.
    + pose proof (writeFile_net_only P file appId "app.html" content w1)
        as Hwrite.
      destruct (writeFile P file appId "app.html" content w1) as [[r|e] w2];
        simpl in Hwrite.
      * rewrite getAppFromCache_run.
        destruct (table_read _ _) as [e| |]; [| |done];
          rewrite setAppCache_run; done.
      * intros [= _ <-].
        apply (net_only_only_item
                 (CACHE_PREFIX +:+ "fileId_" +:+ appId +:+ "_app.html"))
          in Hwrite.
        destruct (only_item_trans _ _ _ _ Hfind Hwrite) as (Ht & Hi & _).
        done.
    + intros [= _ <-]. destruct Hfind as (Ht & Hi & _). done.
Qed.

(** ** JSON documents *)

Lemma json_clean_id (v : value) : is_json v = true -> json_clean v = v.
Proof.
  revert v. fix IH 1. intros [| | | | |l|o]; simpl; try done.
  - intros H. f_equal. induction l as [|x l IHl]; simpl in *; [done|].
    apply andb_prop in H as [Hx Hl]. by rewrite (IH x Hx), (IHl Hl).
  - intros H. f_equal. induction o as [|[k x] o IHo]; simpl in *; [done|].
    apply andb_prop in H as [Hx Ho]. rewrite (IHo Ho).
    rewrite (IH x Hx). by destruct x.
Qed.

(** ** Sessions *)

(** The item a cache write leaves, when the storage accepts it. *)
Lemma cacheGet_put_item (key : string) (v : value) (s : Storage) :
  cacheGet_in (put_item key v s) key =
  match v with VUndef => VNull | _ => json_clean v end.
Proof.
  unfold cacheGet_in, put_item. simpl. rewrite lookup_insert_eq.
  by destruct v.
Qed.

Lemma getToken_clock P (w : World) :
  clock (GoogleAuth.getToken P w).2 = clock w.
Proof.
  unfold GoogleAuth.getToken.
  destruct (_ || _); [done|].
  unfold bind, Date_now. simpl.
  destruct (parseInt P _) as [e|]; [|done].
  by destruct (_ >? _).
Qed.

Lemma updateFile_clock P fileId content (w : World) :
  clock (updateFile P fileId content w).2 = clock w.
Proof.
  unfold updateFile, bind.
  pose proof (getToken_clock P w) as Hc.
  destruct (GoogleAuth.getToken P w) as [[token|e] w1]; simpl in Hc; [|done].
  unfold fetch. destruct (network w1 _) as [m|resp]; [done|].
  destruct (negb (ok resp)); [done|].
  unfold response_json. by destruct (JSON_parse P _).
Qed.

(** C3, as the code has it. After a [saveSession] of a JSON record that
    returned, and whose cache write the storage accepted, [getSession]
    without force refresh returns the record with [syncTime] set to the time
    of the save: the one reading of the clock that [saveSession] takes, when
    the remote write has returned. The answer changes nothing: no request
    goes out. *)
Theorem saveSession_then_getSession (P : Platform) (sessionId : string)
    (fields : obj) (w w' : World) (r : value) :
  is_json (VObj fields) = true ->
  (forall t,
     quota w (put_item ("session_" +:+ sessionId)
                (VObj [("data", VObj fields); ("syncTime", VNum t)])
                (localStorage w)) = true) ->
  saveSession P sessionId (VObj fields) w = (Ok r, w') ->
  let written :=
    (updateFile P (VStr sessionId)
       (JSON_stringify_pretty P (VObj fields)) w).2 in
  ticks w' = S (ticks written) /\
  getSession P sessionId false w' =
  (Ok (VObj (obj_set fields "syncTime" (VNum (clock w (ticks written))))),
   w').
Proof.
  intros Hjson Hquota. unfold saveSession, bind.
  pose proof (updateFile_net_only P (VStr sessionId)
                (JSON_stringify_pretty P (VObj fields)) w) as (Hs & Hq & _).
  pose proof (updateFile_clock P (VStr sessionId)
                (JSON_stringify_pretty P (VObj fields)) w) as Hclock.
  destruct (updateFile P _ _ w) as [[res|e] w1];
    simpl in Hs, Hq, Hclock; [|done].
  unfold Date_now, cacheSet, commit, ret. simpl.
  rewrite Hs, Hq, Hquota. intros [= <- <-].
  split; [done|]. rewrite <- Hclock.
  unfold getSession, bind, cacheGet. simpl.
  rewrite cacheGet_put_item.
  change (json_clean (VObj [("data", VObj fields);
                            ("syncTime", VNum (clock w1 (ticks w1)))]))
    with (VObj [("data", json_clean (VObj fields));
                ("syncTime", VNum (clock w1 (ticks w1)))]).
  rewrite (json_clean_id _ Hjson). done.
Qed.

(** C6. [createSession] stores the bare session document under
    [session_<id>], where [getSession] expects [{ data, syncTime }]: after a
    [createSession] that returned (the storage accepting its writes),
    [getSession] for the new id is answered from the cache, with no request,
    and the answer is [{ syncTime: undefined }], without the name, the
    creation time and the data of the session. *)
Theorem createSession_seed_misread (P : Platform) (appId name : string)
    (w w' : World) (r : value) :
  (forall s, quota w s = true) ->
  createSession P appId name w = (Ok r, w') ->
  exists id t,
    r = VObj [("id", id); ("name", VStr name); ("data", sessionData P name t)] /\
    cacheGet_in (localStorage w') ("session_" +:+ to_string id) =
      sessionData P name t /\
    getSession P (to_string id) false w' =
      (Ok (VObj [("syncTime", VUndef)]), w').
Proof.
  intros Hquota. unfold createSession, bind.
  pose proof (getSessionsFolderId_table_kept P appId w) as (_ & Hq1 & _).
  destruct (getSessionsFolderId P appId w) as [[folder|e] w1];
    simpl in Hq1; [|done].
  unfold Date_now at 1. simpl.
  match goal with
  | |- context [createFile P ?p ?n ?c ?w0] =>
      pose proof (createFile_net_only P p n c w0) as (_ & Hq2 & _);
      destruct (createFile P p n c w0) as [[file|e] w2]; simpl in Hq2; [|done]
  end.
  unfold member. destruct (get_prop file "id") as [id|]; [|done].
  unfold ret, cacheSet, commit, cacheDelete. simpl.
  rewrite Hq2, Hq1, Hquota. intros [= <- <-].
  exists id, (clock w1 (ticks w1)). split; [done|].
  assert (cacheGet_in
            (remove_item ("sessions_" +:+ appId)
               (put_item ("session_" +:+ to_string id)
                  (sessionData P name (clock w1 (ticks w1)))
                  (localStorage w2)))
            ("session_" +:+ to_string id) =
          sessionData P name (clock w1 (ticks w1))) as Hcached.
  { unfold cacheGet_in, remove_item, put_item. simpl.
    rewrite lookup_delete_ne by (simpl; discriminate).
    by rewrite lookup_insert_eq. }
  split; [exact Hcached|].
  unfold getSession, bind, cacheGet.
  cbn [negb andb localStorage set_localStorage fst snd].
  rewrite Hcached. done.
Qed.

(** ** Saving app files *)

Lemma table_set_length_in (c : AppTable) (k : string) (e e0 : AppEntry) :
  table_get c k = Some e0 -> length (table_set c k e) = length c.
Proof.
  intros H. rewrite table_set_own by (right; by exists e0).
  by apply (table_put_length_in _ _ _ e0).
Qed.

Lemma kept_small (c : AppTable) :
  (length c <= APP_CACHE_MAX)%nat -> kept c ≡ₚ c.
Proof.
  intros Hle. unfold kept.
  replace (length c - APP_CACHE_MAX)%nat with 0%nat by lia. simpl.
  by rewrite sort_by_Permutation, entries_Permutation.
Qed.

(** In a table within its bound, rewriting an entry that is there leaves
    it there, as stored. *)
Lemma updated_table_refresh (c : AppTable) (appId : string) (data : AppData)
    (now : Z) (e0 : AppEntry) :
  NoDup c.*1 -> (length c <= APP_CACHE_MAX)%nat ->
  table_get c appId = Some e0 ->
  table_get (updated_table c appId data now) appId =
  Some {| bundle := clean_data data; cachedAt := now |}.
Proof.
  intros Hnd Hlen Hget.
  set (x := (appId, {| bundle := data; cachedAt := now |})).
  apply table_get_elem; [by apply updated_table_NoDup|].
  unfold updated_table.
  rewrite persisted_Permutation, evict_kept by by apply table_set_NoDup.
  rewrite kept_small by by rewrite (table_set_length_in _ _ _ e0).
  apply list_elem_of_fmap. exists x. split; [done|].
  apply elem_of_table_set. right. by exists e0.
Qed.

(** C7, as the code has it. After a [saveAppHtml] that returned, the entry
    of the app in the table, when there was one (the table being within its
    bound and the storage accepting the write), holds the saved html, next
    to the manifest and the parameters it held. [saveManifest] and
    [saveParams] do not write the table: the entry keeps the manifest and
    the parameters it had. *)
Theorem saves_and_the_app_table (P : Platform) (appId : string) (w : World) :
  let c := getAppCache_in (localStorage w) in
  (forall content e r w',
     NoDup c.*1 -> (length c <= 4)%nat ->
     (forall s, quota w s = true) ->
     table_get c appId = Some e ->
     saveAppHtml P appId content w = (Ok r, w') ->
     exists t,
       table_get (getAppCache_in (localStorage w')) appId =
       Some {| bundle :=
                 {| manifest := json_clean_prop (manifest (bundle e));
                    params := json_clean_prop (params (bundle e));
                    appHtml := VStr content;
                    syncTime := json_clean_prop (syncTime (bundle e)) |};
               cachedAt := t |}) /\
  (forall m,
     getAppCache_in (localStorage (saveManifest P appId m w).2) = c) /\
  (forall p,
     getAppCache_in (localStorage (saveParams P appId p w).2) = c).
Proof.
  intros c. split; [|split].
  - intros content e r w' Hnd Hlen Hquota Hget.
    unfold saveAppHtml, bind.
    pose proof (findFile_only_item P appId "app.html" w) as (Ht & _ & Hq & _).
    destruct (findFile P appId "app.html" w) as [[file|err] w1];
      simpl in Ht, Hq; [|done].
    pose proof (writeFile_net_only P file appId "app.html" content w1)
      as (Hs & Hq2 & _).
    destruct (writeFile P file appId "app.html" content w1) as [[res|err] w2];
      simpl in Hs, Hq2; [|done].
    rewrite getAppFromCache_run.
    assert (getAppCache_in (localStorage w2) = c) as Hc.
    { unfold getAppCache_in, c. by rewrite Hs, Ht. }
    rewrite Hc, (table_read_own _ _ _ Hget), setAppCache_run, Hc, Hq2, Hq,
      Hquota.
    intros [= _ <-]. exists (clock w2 (ticks w2)).
    unfold getAppCache_in at 1. simpl.
    by rewrite (updated_table_refresh _ _ _ _ e).
  - intros m. unfold getAppCache_in, c.
    by destruct (saveManifest_only_item P appId m w) as (-> & _).
  - intros p. unfold getAppCache_in, c.
    by destruct (saveParams_only_item P appId p w) as (-> & _).
Qed.

(** ** The guest protocol *)

Lemma sessionForGuest_spec (r : AppRunner.Runner) :
  AppRunner.sessionForGuest r = AppRunner.sessionSent (AppRunner.currentSession r).
Proof.
  unfold AppRunner.sessionForGuest, AppRunner.sessionSent, js_or.
  by destruct (AppRunner.currentSession r).
Qed.

Lemma getToken_total (P : Platform) (w : World) :
  exists token, (GoogleAuth.getToken P w).1 = Ok token.
Proof.
  unfold GoogleAuth.getToken.
  destruct (_ || _); [by eexists|].
  unfold bind, Date_now. simpl.
  destruct (parseInt P _) as [e|]; [|by eexists].
  destruct (_ >? _); by eexists.
Qed.

(** [updateFile] sends its request whatever [getToken] gave. *)
Lemma updateFile_sends (P : Platform) (fileId : value) (content : string)
    (w : World) :
  exists token,
    fetched (updateFile P fileId content w).2 =
    fetched w ++
    [{| req_url :=
          UPLOAD_API +:+ "/files/" +:+ to_string fileId +:+
          "?uploadType=media";
        req_method := "PATCH";
        req_headers := [("Authorization", bearer token);
                        ("Content-Type", "text/plain")];
        req_body := TextBody content |}].
Proof.
  unfold updateFile, bind.
  pose proof (getToken_fetched P w) as [Hf _].
  destruct (getToken_total P w) as [token Htok].
  destruct (GoogleAuth.getToken P w) as [[token'|e] w1];
    simpl in Hf, Htok; [|done].
  exists token'. unfold fetch. rewrite Hf.
  destruct (network w1 _) as [m|resp]; [done|].
  destruct (negb (ok resp)); [done|].
  unfold response_json. by destruct (JSON_parse P _).
Qed.

Lemma saveSession_sends (P : Platform) (sessionId : string) (v : value)
    (w : World) :
  exists token,
    fetched (saveSession P sessionId v w).2 =
    fetched w ++
    [{| req_url :=
          UPLOAD_API +:+ "/files/" +:+ sessionId +:+ "?uploadType=media";
        req_method := "PATCH";
        req_headers := [("Authorization", bearer token);
                        ("Content-Type", "text/plain")];
        req_body := TextBody (JSON_stringify_pretty P v) |}] /\
    posted (saveSession P sessionId v w).2 = posted w.
Proof.
  destruct (updateFile_sends P (VStr sessionId) (JSON_stringify_pretty P v) w)
    as [token Hf].
  pose proof (updateFile_net_only P (VStr sessionId)
                (JSON_stringify_pretty P v) w) as (_ & _ & Hp).
  exists token. unfold saveSession, bind.
  destruct (updateFile P _ _ w) as [[r|e] w1]; simpl in Hf, Hp; [|done].
  unfold Date_now, cacheSet, commit. cbn [fst snd].
  by destruct (quota _ _).
Qed.


(** C10. An accepted [update-session] message that finds no current
    session changes nothing: no state change, no request, no message to the
    guest. *)
Theorem handleMessage_update_without_session (P : Platform)
    (event : AppRunner.MessageEvent) (r : AppRunner.Runner) (w : World)
    (f : AppRunner.Iframe) (fields : obj) :
  AppRunner.iframe r = Some f ->
  AppRunner.source event = AppRunner.contentWindow f ->
  AppRunner.data event = VObj fields ->
  obj_get fields "type" = VStr "update-session" ->
  AppRunner.currentSession r = None ->
  AppRunner.handleMessage P event r w = (Ok r, w).
Proof.
  intros Hf Hsrc Hdata Htype Hnone.
  unfold AppRunner.handleMessage, AppRunner.fromGuest.
  rewrite Hf, bool_decide_eq_true_2 by done.
  rewrite Hdata. simpl. rewrite Htype.
  unfold AppRunner.handleSessionUpdate. by rewrite Hnone.
Qed.

(** C8, as the code has it. To an accepted [ready] message from the guest
    window the host answers with one [init] message to that window, made of
    the manifest, the parameters and the session data of the state at that
    moment; the session field is the data of the current session when that
    data is truthy, and an empty object otherwise (no session, or data that
    is undefined, null, false, 0 or the empty string). The state is not
    changed, so a second [ready] is answered from the state it finds. *)
Theorem handleMessage_ready (P : Platform) (event : AppRunner.MessageEvent)
    (r : AppRunner.Runner) (w : World) (f : AppRunner.Iframe) (win : window)
    (fields : obj) :
  AppRunner.iframe r = Some f ->
  AppRunner.contentWindow f = Some win ->
  AppRunner.source event = Some win ->
  AppRunner.data event = VObj fields ->
  obj_get fields "type" = VStr "ready" ->
  let init (r : AppRunner.Runner) :=
    VObj [("type", VStr "init");
          ("manifest", AppRunner.manifest r);
          ("params", AppRunner.params r);
          ("session", AppRunner.sessionSent (AppRunner.currentSession r))] in
  AppRunner.handleMessage P event r w =
    (Ok r, set_posted (posted w ++ [(win, init r)]) w) /\
  forall (r2 : AppRunner.Runner) (w1 : World),
    AppRunner.iframe r2 = Some f ->
    let w1' := set_posted (posted w ++ [(win, init r)]) w1 in
    AppRunner.handleMessage P event r2 w1' =
      (Ok r2, set_posted (posted w ++ [(win, init r); (win, init r2)]) w1).
Proof.
  intros Hf Hwin Hsrc Hdata Htype init.
  assert (forall r0 w0, AppRunner.iframe r0 = Some f ->
            AppRunner.handleMessage P event r0 w0 =
            (Ok r0, set_posted (posted w0 ++ [(win, init r0)]) w0)) as Hrun.
  { intros r0 w0 Hf0.
    unfold AppRunner.handleMessage, AppRunner.fromGuest.
    rewrite Hf0, bool_decide_eq_true_2 by congruence.
    rewrite Hdata. simpl. rewrite Htype.
    unfold AppRunner.sendInitToIframe, AppRunner.guestWindow, bind.
    rewrite Hf0, Hwin. unfold postMessage, AppRunner.initMessage. simpl.
    by rewrite sessionForGuest_spec. }
  split; [by apply Hrun|].
  intros r2 w1 Hf2 w1'. rewrite Hrun by done. subst w1'. simpl.
  by rewrite <- app_assoc.
Qed.

(** ** The properties at concrete inputs *)

Lemma deleteApp_leaves_cached_bundle_witness :
  let w' := (deleteApp Toy.platform "A" Toy.online).2 in
  getAppFiles Toy.platform "A" false w' =
    (Ok {| manifest := VObj [("name", VStr "a")]; params := VObj [];
           appHtml := VStr "<p>old</p>"; syncTime := VNum 1 |}, w') /\
  cacheGet_in (localStorage w') "session_s1" =
    VObj [("data", VObj [("name", VStr "old")]); ("syncTime", VNum 1)].
Proof.
  destruct (deleteApp_leaves_cached_bundle Toy.platform "A"
              (Toy.entryOf "a" 1) Toy.online eq_refl) as [Hfiles Hsession].
  split; [exact Hfiles|exact (Hsession "s1")].
Defined.

Lemma setAppCache_bounded_lru_witness :
  let new := ("E", {| bundle := Toy.bundleOf "e"; cachedAt := 5 |}) in
  let c' :=
    getAppCache_in
      (localStorage (setAppCache "E" (Toy.bundleOf "e") Toy.online).2) in
  (length c' <= 4)%nat /\
  exists dropped,
    c' ++ (clean_entry <$> dropped) ≡ₚ
      clean_entry <$> new :: getAppCache_in (localStorage Toy.online) /\
    length dropped = 1%nat /\
    (forall e k, e ∈ dropped -> k ∈ c' -> cachedAt e.2 <= cachedAt k.2) /\
    clean_entry new ∈ c'.
Proof.
  assert (NoDup (getAppCache_in (localStorage Toy.online)).*1) as Hnd.
  { apply (bool_decide_unpack _). vm_compute. exact I. }
  pose proof (setAppCache_bounded_lru "E" (Toy.bundleOf "e") Toy.online Hnd)
    as H.
  change (quota Toy.online _) with true in H. cbv iota in H.
  destruct H as [Hlen H].
  assert ("E" <> "__proto__") as Hid by discriminate.
  destruct (H Hid) as (dropped & Hperm & Hdropped & Holdest & Hnew).
  split; [exact Hlen|]. exists dropped.
  split; [exact Hperm|]. split; [exact Hdropped|]. split; [exact Holdest|].
  apply Hnew.
  intros k Hk. vm_compute in Hk.
  repeat (apply elem_of_cons in Hk as [->|Hk]; [simpl; lia|]).
  by apply elem_of_nil in Hk.
Defined.

(** C2 as stated fails when the storage refuses the write: E is inserted
    at time 5 into the table that holds A, B, C and D, cached at 1 to 4; the
    table is left as it was, with A, the least recently cached, in it, and
    without E. *)
Lemma refused_insertion_counterexample :
  let w := Toy.overQuota in
  let c := getAppCache_in (localStorage w) in
  let c' :=
    getAppCache_in (localStorage (setAppCache "E" (Toy.bundleOf "e") w).2) in
  c.*1 = ["A"; "B"; "C"; "D"] /\
  (forall k, k ∈ c -> cachedAt k.2 < clock w (ticks w)) /\
  c'.*1 = ["A"; "B"; "C"; "D"] /\
  c'.*1 <> ["B"; "C"; "D"; "E"].
Proof.
  intros w c c'. split; [reflexivity|]. split; [|split; [reflexivity|]].
  - intros k Hk. vm_compute in Hk.
    repeat (apply elem_of_cons in Hk as [->|Hk]; [simpl; lia|]).
    by apply elem_of_nil in Hk.
  - discriminate.
Qed.

(** The example of the specification: A, B, C, D cached at 1 to 4, then E
    at 5: B, C, D and E are left. *)
Lemma setAppCache_example :
  (getAppCache_in
     (localStorage (setAppCache "E" (Toy.bundleOf "e") Toy.online).2)).*1 =
  ["B"; "C"; "D"; "E"].
Proof. reflexivity. Qed.

Lemma saveSession_then_getSession_witness :
  let w' :=
    (saveSession Toy.platform "s1" (VObj [("name", VStr "new")])
       Toy.online).2 in
  ticks w' = 2%nat /\
  getSession Toy.platform "s1" false w' =
  (Ok (VObj [("name", VStr "new"); ("syncTime", VNum 6)]), w').
Proof.
  apply (saveSession_then_getSession Toy.platform "s1" [("name", VStr "new")]
           Toy.online _ (VObj [("id", VStr "f1")])).
  - reflexivity.
  - intros t. reflexivity.
  - reflexivity.
Defined.

(** C3 as stated fails when the storage refuses the write of the save:
    the save returns, and [getSession] serves the record cached before. *)
Lemma read_your_writes_counterexample :
  let v := [("name", VStr "new")] in
  let w' := (saveSession Toy.platform "s1" (VObj v) Toy.overQuota).2 in
  saveSession Toy.platform "s1" (VObj v) Toy.overQuota =
    (Ok (VObj [("id", VStr "f1")]), w') /\
  getSession Toy.platform "s1" false w' =
    (Ok (VObj [("name", VStr "old"); ("syncTime", VNum 1)]), w') /\
  ~ exists t,
      getSession Toy.platform "s1" false w' =
      (Ok (VObj (obj_set v "syncTime" (VNum t))), w').
Proof.
  intros v w'.
  assert (getSession Toy.platform "s1" false w' =
          (Ok (VObj [("name", VStr "old"); ("syncTime", VNum 1)]), w'))
    as Hold by reflexivity.
  split; [reflexivity|]. split; [exact Hold|].
  intros [t Ht]. rewrite Hold in Ht. discriminate Ht.
Qed.

Lemma failed_save_keeps_documents_witness :
  localStorage
    (saveSession Toy.platform "s1" (VObj [("name", VStr "new")])
       Toy.offline).2 = localStorage Toy.offline /\
  appTable
    (localStorage (saveAppHtml Toy.platform "A" "<p>new</p>" Toy.writeFails).2)
  = appTable (localStorage Toy.writeFails).
Proof.
  split.
  - apply (proj1 (failed_save_keeps_documents Toy.platform Toy.offline)
             "s1" (VObj [("name", VStr "new")])
             (Error "Failed to update file")).
    reflexivity.
  - apply (proj2 (failed_save_keeps_documents Toy.platform Toy.writeFails)
             "A" "<p>new</p>" (Error "Failed to update file")).
    reflexivity.
Defined.

(** C4 as stated fails for [saveAppHtml]: the lookup of the file caches its
    id, then the write fails, and the storage is not what it was. *)
Lemma failed_save_counterexample :
  let w' := (saveAppHtml Toy.platform "A" "<p>new</p>" Toy.writeFails).2 in
  saveAppHtml Toy.platform "A" "<p>new</p>" Toy.writeFails =
    (Throw (Error "Failed to update file"), w') /\
  cacheGet_in (localStorage Toy.writeFails) "fileId_A_app.html" = VNull /\
  cacheGet_in (localStorage w') "fileId_A_app.html" = VStr "f1" /\
  localStorage w' <> localStorage Toy.writeFails.
Proof.
  intros w'. repeat split; try reflexivity.
  intros Heq.
  apply (f_equal (fun s => cacheGet_in s "fileId_A_app.html")) in Heq.
  discriminate Heq.
Qed.

Lemma file_operations_skip_token_check_witness :
  fetched (getFileContent Toy.platform (VStr "f1") Toy.noToken).2 =
    [unauthorized "GET"
       "https://www.googleapis.com/drive/v3/files/f1?alt=media" [] NoBody] /\
  (getFileContent Toy.platform (VStr "f1") Toy.noToken).1 =
    Throw (Error "Failed to get file content").
Proof.
  destruct (file_operations_skip_token_check Toy.platform Toy.noToken
              Toy.noToken eq_refl) as (_ & _ & _ & Hread).
  split; [exact (Hread (VStr "f1"))|reflexivity].
Defined.

Lemma createSession_seed_misread_witness :
  let w' := (createSession Toy.platform "A" "Default" Toy.creating).2 in
  exists id t,
    VObj [("id", VStr "f1"); ("name", VStr "Default");
          ("data", sessionData Toy.platform "Default" 6)] =
    VObj [("id", id); ("name", VStr "Default");
          ("data", sessionData Toy.platform "Default" t)] /\
    cacheGet_in (localStorage w') ("session_" +:+ to_string id) =
      sessionData Toy.platform "Default" t /\
    getSession Toy.platform (to_string id) false w' =
      (Ok (VObj [("syncTime", VUndef)]), w').
Proof.
  apply (createSession_seed_misread Toy.platform "A" "Default" Toy.creating).
  - intros s. reflexivity.
  - reflexivity.
Defined.

Lemma saves_and_the_app_table_witness :
  let w' := (saveAppHtml Toy.platform "A" "<p>new</p>" Toy.saving).2 in
  exists t,
    table_get (getAppCache_in (localStorage w')) "A" =
    Some {| bundle :=
              {| manifest := VObj [("name", VStr "a")];
                 params := VObj [];
                 appHtml := VStr "<p>new</p>";
                 syncTime := VNum 1 |};
            cachedAt := t |}.
Proof.
  apply (proj1 (saves_and_the_app_table Toy.platform "A" Toy.saving)
           "<p>new</p>" (Toy.entryOf "a" 1) (VObj [("id", VStr "f1")])).
  - apply (bool_decide_unpack _). vm_compute. exact I.
  - simpl. lia.
  - intros s. reflexivity.
  - reflexivity.
  - vm_compute. reflexivity.
Defined.

(** C7 as stated fails for [saveManifest]: the manifest is saved, and the
    cached entry still holds the manifest it had. *)
Lemma stale_manifest_counterexample :
  let m := VObj [("name", VStr "renamed")] in
  let run := saveManifest Toy.platform "A" m Toy.saving in
  run.1 = Ok (VObj [("id", VStr "f1")]) /\
  (manifest ∘ bundle <$> table_get (getAppCache_in (localStorage run.2)) "A")
    = Some (VObj [("name", VStr "a")]) /\
  VObj [("name", VStr "a")] <> m.
Proof. repeat split; try reflexivity. discriminate. Qed.

Lemma handleMessage_ready_witness :
  AppRunner.handleMessage Toy.platform (Toy.message (Some Toy.guest) "ready")
    (Toy.runner (Some Toy.liveSession)) Toy.online =
  (Ok (Toy.runner (Some Toy.liveSession)),
   set_posted
     [(Toy.guest,
       VObj [("type", VStr "init");
             ("manifest", VObj [("name", VStr "a")]);
             ("params", VObj []);
             ("session", VObj [("count", VNum 3)])])]
     Toy.online).
Proof.
  apply (proj1 (handleMessage_ready Toy.platform
                  (Toy.message (Some Toy.guest) "ready")
                  (Toy.runner (Some Toy.liveSession)) Toy.online
                  {| AppRunner.contentWindow := Some Toy.guest |} Toy.guest
                  [("type", VStr "ready"); ("data", VNum 7)]
                  eq_refl eq_refl eq_refl eq_refl eq_refl)).
Defined.

(** C8 as stated fails for a session whose data is falsy: the session is
    loaded, its data is [null], and the [init] message carries [{}]. *)
Lemma ready_with_null_data_counterexample :
  let r := Toy.runner (Some Toy.nullSession) in
  let run :=
    AppRunner.handleMessage Toy.platform (Toy.message (Some Toy.guest) "ready")
      r Toy.online in
  AppRunner.currentSession r = Some Toy.nullSession /\
  obj_get Toy.nullSession "data" = VNull /\
  posted run.2 =
    [(Toy.guest,
      VObj [("type", VStr "init");
            ("manifest", VObj [("name", VStr "a")]);
            ("params", VObj []);
            ("session", VObj [])])] /\
  VObj [] <> obj_get Toy.nullSession "data".
Proof. repeat split; try reflexivity. discriminate. Qed.


Lemma handleMessage_update_without_session_witness :
  AppRunner.handleMessage Toy.platform
    (Toy.message (Some Toy.guest) "update-session")
    (Toy.runner None) Toy.online =
  (Ok (Toy.runner None), Toy.online).
Proof.
  apply (handleMessage_update_without_session Toy.platform
           (Toy.message (Some Toy.guest) "update-session") (Toy.runner None)
           Toy.online {| AppRunner.contentWindow := Some Toy.guest |}
           [("type", VStr "update-session"); ("data", VNum 7)]);
    reflexivity.
Defined.

(** * Further properties of the code *)

(** ** Escaping *)

Lemma has_char_app (x : ascii) (s t : string) :
  has_char x (s +:+ t) = has_char x s || has_char x t.
Proof.
  induction s as [|a s IH]; simpl; [done|].
  by rewrite IH, orb_assoc.
Qed.

(** The characters of a replaced string: those of the source other than the
    replaced one, and those of the replacement when it was used. *)
Lemma has_char_replace_all (x c : ascii) (r s : string) :
  has_char x (replace_all_char c r s) =
  (negb (Ascii.eqb x c) && has_char x s) || (has_char c s && has_char x r).
Proof.
  induction s as [|a s IH]; simpl; [by rewrite andb_false_r|].
  rewrite has_char_app, IH.
  destruct (Ascii.eqb_spec a c) as [->|Hac]; simpl.
  - rewrite (Ascii.eqb_sym c x).
    destruct (Ascii.eqb x c), (has_char x r), (has_char x s),
      (has_char c s); done.
  - rewrite orb_false_r.
    destruct (Ascii.eqb_spec a x) as [->|Hax]; simpl.
    + destruct (Ascii.eqb_spec x c) as [->|_]; [done|]. simpl.
      by destruct (has_char c s), (has_char x r).
    + by destruct (negb (Ascii.eqb x c)), (has_char x s), (has_char c s),
        (has_char x r).
Qed.

Lemma replace_all_absent (c : ascii) (r s : string) :
  has_char c s = false -> replace_all_char c r s = s.
Proof.
  induction s as [|a s IH]; simpl; [done|].
  intros H. apply orb_false_elim in H as [Ha Hs].
  by rewrite Ha, IH.
Qed.

(** X1. [escapeAttr] never leaves a double quote in its result, so the result
    cannot end the attribute it is written into; a string with neither [&]
    nor a double quote comes out as it went in. *)
Theorem escapeAttr_safe (str : string) :
  has_char dquote (AppRunner.escapeAttr str) = false /\
  (has_char "&" str = false -> has_char dquote str = false ->
   AppRunner.escapeAttr str = str).
Proof.
  unfold AppRunner.escapeAttr. split.
  - destruct (String.eqb str ""); [done|].
    rewrite has_char_replace_all. simpl. by rewrite andb_false_r.
  - intros Hamp Hq. destruct (String.eqb_spec str "") as [->|_]; [done|].
    by rewrite (replace_all_absent "&"), (replace_all_absent dquote).
Qed.

(** X2. [escapeHtml] leaves none of [<], [>] and the double quote in its
    result; a string without [&], [<], [>] and double quote is unchanged. *)
Theorem escapeHtml_safe (str : string) :
  has_char "<" (SessionManager.escapeHtml str) = false /\
  has_char ">" (SessionManager.escapeHtml str) = false /\
  has_char dquote (SessionManager.escapeHtml str) = false /\
  (has_char "&" str = false -> has_char "<" str = false ->
   has_char ">" str = false -> has_char dquote str = false ->
   SessionManager.escapeHtml str = str).
Proof.
  unfold SessionManager.escapeHtml.
  destruct (String.eqb_spec str "") as [->|_]; [done|].
  repeat split.
  - rewrite !has_char_replace_all. simpl.
    by destruct (has_char "&" str), (has_char "<" str), (has_char ">" str),
      (has_char dquote str).
  - rewrite !has_char_replace_all. simpl.
    by destruct (has_char "&" str), (has_char "<" str), (has_char ">" str),
      (has_char dquote str).
  - rewrite has_char_replace_all. simpl. by rewrite andb_false_r.
  - intros H1 H2 H3 H4.
    by rewrite (replace_all_absent "&"), (replace_all_absent "<"),
      (replace_all_absent ">"), (replace_all_absent dquote).
Qed.

(** ** The freshness label *)

Lemma div_ltb (d a b : Z) : 0 < a -> (d / a <? b) = (d <? a * b).
Proof.
  intros Ha. destruct (Z.ltb_spec (d / a) b) as [H|H];
    destruct (Z.ltb_spec d (a * b)) as [H'|H']; try done.
  - exfalso. apply (Z.div_le_lower_bound d a b) in H'; lia.
  - exfalso. apply (Z.div_lt_upper_bound d a b) in H'; lia.
Qed.

(** X3. [formatSyncTime] reads the clock once and labels the age
    [d = now - timestamp] by whole units: "just now" below a minute (also
    for a timestamp in the future), then whole minutes below an hour, whole
    hours below a day, and whole days. A missing or zero timestamp gives the
    empty label without reading the clock. *)
Theorem formatSyncTime_buckets (t : Z) (w : World) :
  AppRunner.formatSyncTime None w = (Ok "", w) /\
  AppRunner.formatSyncTime (Some 0) w = (Ok "", w) /\
  (t <> 0 ->
   let d := clock w (ticks w) - t in
   AppRunner.formatSyncTime (Some t) w =
   (Ok (if d <? 60000 then "just now"
        else if d <? 3600000 then pretty (d / 60000) +:+ "m ago"
        else if d <? 86400000 then pretty (d / 3600000) +:+ "h ago"
        else pretty (d / 86400000) +:+ "d ago"),
    set_ticks (S (ticks w)) w)).
Proof.
  split; [done|]. split; [done|]. intros Ht d.
  unfold AppRunner.formatSyncTime.
  apply Z.eqb_neq in Ht. rewrite Ht.
  unfold bind, Date_now. cbn [fst snd]. fold d.
  rewrite !Z.div_div by lia.
  rewrite !div_ltb by lia.
  change (1000 * 60) with 60000. change (60000 * 60) with 3600000.
  change (3600000 * 24) with 86400000.
  change (1000 * 60 * 60) with 3600000.
  change (1000 * 60 * 60 * 24) with 86400000.
  by repeat destruct (_ <? _).
Qed.

(** ** Running computations *)

Lemma bind_Ok {A B} (m : M A) (k : A -> M B) (w w' : World) (b : B) :
  bind m k w = (Ok b, w') ->
  exists a w1, m w = (Ok a, w1) /\ k a w1 = (Ok b, w').
Proof.
  unfold bind. destruct (m w) as [[a|e] w1]; [|done]. intros H. by exists a, w1.
Qed.

Lemma bind_Throw {A B} (m : M A) (k : A -> M B) (w w' : World) (e : exn) :
  bind m k w = (Throw e, w') ->
  m w = (Throw e, w') \/
  exists a w1, m w = (Ok a, w1) /\ k a w1 = (Throw e, w').
Proof.
  unfold bind. destruct (m w) as [[a|e0] w1]; intros H.
  - right. by exists a, w1.
  - left. by injection H as -> ->.
Qed.

Lemma preserves_run {A} (R : World -> World -> Prop) (m : M A) (w w' : World)
    (o : Outcome A) :
  preserves R m -> m w = (o, w') -> R w w'.
Proof. intros Hm Hrun. specialize (Hm w). by rewrite Hrun in Hm. Qed.

(** ** The cache helpers *)

Lemma cache_key_inj (k k' : string) :
  CACHE_PREFIX +:+ k = CACHE_PREFIX +:+ k' -> k = k'.
Proof. unfold CACHE_PREFIX. simpl. intros H. by simplify_eq. Qed.

Lemma truthy_json_clean (v : value) : truthy (json_clean v) = truthy v.
Proof. by destruct v. Qed.

(** X4. A JSON value that [cacheSet] writes, the storage accepting it, is
    what [cacheGet] reads under that key; the other keys read as before;
    after [cacheDelete] the key reads [null] and the other keys still read
    as before. A refused write changes nothing. *)
Theorem cache_round_trip (key : string) (v : value) (w : World) :
  let w1 := (cacheSet key v w).2 in
  let w2 := (cacheDelete key w1).2 in
  is_json v = true ->
  (if quota w (put_item key v (localStorage w))
   then cacheGet key w1 = (Ok v, w1)
   else w1 = w) /\
  cacheGet key w2 = (Ok VNull, w2) /\
  forall key', key' <> key ->
    cacheGet_in (localStorage w1) key' = cacheGet_in (localStorage w) key' /\
    cacheGet_in (localStorage w2) key' = cacheGet_in (localStorage w) key'.
Proof.
  intros w1 w2 Hjson. subst w1 w2.
  unfold cacheSet, commit, cacheGet, cacheDelete. cbn [fst snd].
  split; [|split].
  - destruct (quota w _); [|done]. cbn [localStorage set_localStorage].
    rewrite cacheGet_put_item, (json_clean_id _ Hjson). by destruct v.
  - f_equal. f_equal. cbn [localStorage set_localStorage].
    unfold cacheGet_in, remove_item. cbn [items].
    by rewrite lookup_delete_eq.
  - intros key' Hne.
    assert (CACHE_PREFIX +:+ key <> CACHE_PREFIX +:+ key') as Hk.
    { intros Heq. apply cache_key_inj in Heq. congruence. }
    unfold cacheGet_in, remove_item, put_item.
    destruct (quota w _); cbn [localStorage set_localStorage items];
      rewrite ?lookup_delete_ne, ?lookup_insert_ne by done; done.
Qed.

(** ** Lookups in the app files table *)

Lemma table_get_Some_elem (c : AppTable) (k : string) (e : AppEntry) :
  table_get c k = Some e -> (k, e) ∈ c.
Proof.
  unfold table_get. induction c as [|[k' e'] c IH]; simpl; [done|].
  destruct (String.eqb_spec k' k) as [->|Hne]; simpl.
  - intros [= ->]. apply list_elem_of_here.
  - intros H. apply list_elem_of_further. by apply IH.
Qed.

Lemma table_get_Permutation (c c' : AppTable) (k : string) :
  NoDup c.*1 -> c ≡ₚ c' -> table_get c k = table_get c' k.
Proof.
  intros Hnd Hp.
  assert (NoDup c'.*1) as Hnd' by by rewrite <- Hp.
  destruct (table_get c k) as [e|] eqn:E.
  - symmetry. apply table_get_elem; [done|].
    rewrite <- Hp. by apply table_get_Some_elem.
  - destruct (table_get c' k) as [e'|] eqn:E'; [|done].
    apply table_get_Some_elem in E'. rewrite <- Hp in E'.
    apply (table_get_elem _ _ _ Hnd) in E'. congruence.
Qed.

Lemma table_get_clean (c : AppTable) (k : string) :
  table_get (clean_entry <$> c) k = cleaned <$> table_get c k.
Proof.
  unfold table_get. induction c as [|[k' e'] c IH]; simpl; [done|].
  destruct (String.eqb k' k); simpl; [done|]. apply IH.
Qed.

Lemma table_get_set_ne (c : AppTable) (k k' : string) (e : AppEntry) :
  k' <> k -> table_get (table_set c k e) k' = table_get c k'.
Proof.
  intros Hne.
  destruct (table_set_cases c k e) as [->|(-> & _)]; [|done].
  by apply table_get_put_ne.
Qed.

Lemma table_set_length (c : AppTable) (k : string) (e : AppEntry) :
  (length c <= length (table_set c k e) <= S (length c))%nat.
Proof.
  destruct (table_set_cases c k e) as [->|(-> & _)]; [|lia].
  apply table_put_length.
Qed.

(** A table within the bound loses nothing when it is written. *)
Lemma updated_table_small (c : AppTable) (appId : string) (data : AppData)
    (now : Z) :
  let c1 := table_set c appId {| bundle := data; cachedAt := now |} in
  NoDup c.*1 -> (length c1 <= APP_CACHE_MAX)%nat ->
  updated_table c appId data now ≡ₚ clean_entry <$> c1.
Proof.
  intros c1 Hnd Hlen. unfold updated_table. fold c1.
  rewrite persisted_Permutation.
  rewrite evict_kept by by apply table_set_NoDup.
  by rewrite kept_small.
Qed.

(** X5. [setAppCache] keeps the table well formed: a table with one entry
    per id and at most four entries is left so, whether the storage accepts
    the write or refuses it; and an accepted write leaves at most four
    entries whatever the table held. *)
Theorem setAppCache_keeps_table_ok (appId : string) (data : AppData)
    (w : World) :
  let c := getAppCache_in (localStorage w) in
  let c' := getAppCache_in (localStorage (setAppCache appId data w).2) in
  (table_ok c -> table_ok c') /\
  (NoDup c.*1 ->
   quota w {| items := items (localStorage w);
              appTable :=
                Some (updated_table c appId data (clock w (ticks w))) |}
     = true ->
   table_ok c').
Proof.
  intros c c'. subst c'. rewrite setAppCache_run. fold c.
  assert (NoDup c.*1 ->
          table_ok (updated_table c appId data (clock w (ticks w)))) as Hok.
  { intros Hnd. split; [by apply updated_table_NoDup|].
    apply updated_table_bound. }
  split.
  - intros [Hnd Hlen]. destruct (quota w _); simpl; [by apply Hok|done].
  - intros Hnd ->. simpl. by apply Hok.
Qed.

(** X6. An entry written under an id other than ["__proto__"] into a
    table that has room for it (the id is there already, or fewer than four
    entries are) is what [getAppFromCache] then returns, stamped with the
    time of the write, and every other entry is still there: nothing is
    evicted. *)
Theorem setAppCache_then_getAppFromCache (appId : string) (data : AppData)
    (w : World) :
  let c := getAppCache_in (localStorage w) in
  let now := clock w (ticks w) in
  let w' := (setAppCache appId data w).2 in
  table_ok c ->
  appId <> "__proto__" ->
  (is_Some (table_get c appId) \/ length c < APP_CACHE_MAX)%nat ->
  quota w {| items := items (localStorage w);
             appTable := Some (updated_table c appId data now) |} = true ->
  getAppFromCache appId w' =
    (Ok (Entry {| bundle := clean_data data; cachedAt := now |}), w') /\
  forall other, other <> appId ->
    table_get (getAppCache_in (localStorage w')) other =
    cleaned <$> table_get c other.
Proof.
  intros c now w' [Hnd Hlen] Hproto Hroom Hquota. subst w'.
  rewrite setAppCache_run. fold c now. rewrite Hquota.
  rewrite getAppFromCache_run.
  cbn [snd localStorage set_localStorage].
  change (getAppCache_in {| items := items (localStorage w);
                            appTable := Some (updated_table c appId data now) |})
    with (updated_table c appId data now).
  set (c1 := table_set c appId {| bundle := data; cachedAt := now |}).
  assert (length c1 <= APP_CACHE_MAX)%nat as Hlen1.
  { destruct Hroom as [[e He]|Hlt].
    - unfold c1. by rewrite (table_set_length_in _ _ _ e).
    - pose proof (table_set_length c appId
                    {| bundle := data; cachedAt := now |}). unfold c1. lia. }
  pose proof (updated_table_small c appId data now Hnd Hlen1) as Hp.
  pose proof (updated_table_NoDup c appId data now Hnd) as Hnd'.
  split.
  - do 2 f_equal. apply table_read_own.
    rewrite (table_get_Permutation _ _ appId Hnd' Hp), table_get_clean.
    fold c1. unfold c1. rewrite table_get_set by by left. done.
  - intros other Hne.
    rewrite (table_get_Permutation _ _ other Hnd' Hp), table_get_clean.
    fold c1. unfold c1. by rewrite table_get_set_ne.
Qed.

(** ** Looking files up *)

Lemma member_run (v : value) (k : string) (w w' : World) (x : value) :
  member v k w = (Ok x, w') -> get_prop v k = Some x /\ w' = w.
Proof.
  unfold member. destruct (get_prop v k) as [y|]; [|done].
  by intros [= -> ->].
Qed.

Lemma first_of_run (v : value) (w w' : World) (x : value) :
  first_of v w = (Ok x, w') -> get_first v = Some x /\ w' = w.
Proof.
  unfold first_of. destruct (get_first v) as [y|]; [|done].
  by intros [= -> ->].
Qed.

Lemma get_prop_truthy (v : value) (k : string) :
  truthy v = true -> is_Some (get_prop v k).
Proof. destruct v; simpl; try done; eauto. Qed.

(** X7. A file id that is cached answers [findFile] at once: the result is
    [{ id, name }] with the cached id, and nothing changes: no request. *)
Theorem findFile_cached (P : Platform) (parentId name : string) (w : World) :
  let cachedId :=
    cacheGet_in (localStorage w)
                ("fileId_" +:+ parentId +:+ "_" +:+ name) in
  truthy cachedId = true ->
  findFile P parentId name w =
  (Ok (VObj [("id", cachedId); ("name", VStr name)]), w).
Proof.
  intros cachedId Hc. unfold findFile, bind, cacheGet. cbn [fst snd].
  fold cachedId. by rewrite Hc.
Qed.

(** X8. [findFile] answers a file or exactly [null]; when the id was not
    cached and a file is found, one request went out and the id of the file
    is cached (the storage accepting the write), so that a second lookup of
    a file with a truthy id is answered from the cache with that id; when
    no file is found the storage is left as it was. *)
Theorem findFile_caches_found_id (P : Platform) (parentId name : string)
    (w w1 : World) (file : value) :
  let key := "fileId_" +:+ parentId +:+ "_" +:+ name in
  truthy (cacheGet_in (localStorage w) key) = false ->
  (forall s, quota w s = true) ->
  findFile P parentId name w = (Ok file, w1) ->
  if truthy file
  then exists id,
         get_prop file "id" = Some id /\
         localStorage w1 = put_item key id (localStorage w) /\
         (truthy id = true ->
          findFile P parentId name w1 =
          (Ok (VObj [("id", json_clean id); ("name", VStr name)]), w1))
  else file = VNull /\ localStorage w1 = localStorage w.
Proof.
  intros key Hmiss Hquota. unfold findFile. fold key.
  unfold bind at 1. unfold cacheGet at 1. cbn [fst snd]. rewrite Hmiss.
  intros Hrun.
  apply bind_Ok in Hrun as (result & wr & Hreq & Hrun).
  apply (preserves_run _ _ _ _ _ (request_net_only P _ _)) in Hreq
    as (Hs & Hq & _).
  apply bind_Ok in Hrun as (files & w2 & Hfiles & Hrun).
  apply member_run in Hfiles as [_ ->].
  apply bind_Ok in Hrun as (first & w3 & Hfirst & Hrun).
  apply first_of_run in Hfirst as [_ ->].
  destruct (truthy (js_or first VNull)) eqn:Htruthy.
  - apply bind_Ok in Hrun as (id & w4 & Hid & Hrun).
    apply member_run in Hid as [Hid ->].
    apply bind_Ok in Hrun as ([] & w5 & Hset & Hrun).
    injection Hrun as <- <-. rewrite Htruthy.
    unfold cacheSet, commit in Hset. rewrite Hq, Hquota in Hset.
    injection Hset as <-.
    exists id. split; [done|]. cbn [localStorage set_localStorage].
    rewrite Hs. split; [done|]. intros Hidt.
    unfold bind at 1. unfold cacheGet at 1. cbn [fst snd].
    cbn [localStorage set_localStorage].
    rewrite cacheGet_put_item.
    replace (match id with VUndef => VNull | _ => json_clean id end)
      with (json_clean id) by by destruct id.
    by rewrite truthy_json_clean, Hidt.
  - injection Hrun as <- <-. rewrite Htruthy. split; [|done].
    unfold js_or in *. destruct (truthy first) eqn:E; [congruence|done].
Qed.

(** ** Refreshing a session *)

Lemma getFileContent_fetched (P : Platform) (fileId : value) (w : World) :
  exists token,
    fetched (getFileContent P fileId w).2 =
    fetched w ++
    [{| req_url :=
          DRIVE_API +:+ "/files/" +:+ to_string fileId +:+ "?alt=media";
        req_method := "GET";
        req_headers := [("Authorization", bearer token)];
        req_body := NoBody |}].
Proof.
  unfold getFileContent, bind.
  pose proof (getToken_fetched P w) as [Hf _].
  pose proof (getToken_net_only P w) as _.
  destruct (GoogleAuth.getToken P w) as [[token|e] w1] eqn:Htok.
  - exists token. simpl in Hf. unfold fetch. rewrite Hf.
    destruct (network w1 _) as [m|resp]; [done|].
    by destruct (negb (ok resp)).
  - exfalso. revert Htok. unfold GoogleAuth.getToken.
    destruct (_ || _); [done|]. unfold bind, Date_now. simpl.
    destruct (parseInt P _); [|done]. by destruct (_ >? _).
Qed.

Lemma getFileContent_answer (P : Platform) (fileId : value) (w w1 : World)
    (content : string) :
  getFileContent P fileId w = (Ok content, w1) ->
  exists resp,
    network w (length (fetched w)) = NetResp resp /\ ok resp = true /\
    content = body_text resp.
Proof.
  unfold getFileContent, bind.
  pose proof (getToken_fetched P w) as [Hf Hn].
  destruct (GoogleAuth.getToken P w) as [[token|e] w0];
    simpl in Hf, Hn; [|done].
  unfold fetch. rewrite Hf, Hn.
  destruct (network w _) as [m|resp]; [done|].
  destruct (ok resp) eqn:Hok; [|done].
  intros [= <- <-]. by exists resp.
Qed.

(** X9. A forced [getSession] does not look at the cache: whatever the
    storage holds, it sends one GET for the content of the file. When it
    returns, the answer to that request was ok, and the result is the
    document its body parses to, with [syncTime] set to the one reading of
    the clock the call ends with; and (the storage accepting the write) the
    cache holds it: a [getSession] without force that follows returns the
    document as stored, with the same [syncTime], and sends nothing. *)
Theorem getSession_forced_refresh (P : Platform) (sessionId : string)
    (w : World) :
  (exists r,
     fetched (getSession P sessionId true w).2 = fetched w ++ [r] /\
     req_url r = DRIVE_API +:+ "/files/" +:+ sessionId +:+ "?alt=media" /\
     req_method r = "GET") /\
  forall result w',
    (forall s, quota w s = true) ->
    getSession P sessionId true w = (Ok result, w') ->
    exists resp data n,
      network w (length (fetched w)) = NetResp resp /\
      ok resp = true /\
      JSON_parse P (body_text resp) = Some data /\
      ticks w' = S n /\
      result = withSyncTime data (VNum (clock w' n)) /\
      getSession P sessionId false w' =
      (Ok (withSyncTime (json_clean data) (VNum (clock w' n))), w').
Proof.
  split.
  - destruct (getFileContent_fetched P (VStr sessionId) w) as [token Hf].
    exists {| req_url :=
                DRIVE_API +:+ "/files/" +:+ sessionId +:+ "?alt=media";
              req_method := "GET";
              req_headers := [("Authorization", bearer token)];
              req_body := NoBody |}.
    split; [|done].
    unfold getSession, bind. cbn [negb andb ret].
    destruct (getFileContent P (VStr sessionId) w) as [[content|e] w1];
      cbn [snd] in *; [|exact Hf].
    destruct (JSON_parse P content) as [data|]; [|exact Hf].
    unfold Date_now, cacheSet, commit. cbn [fst snd].
    destruct (quota _ _); exact Hf.
  - intros result w' Hquota. unfold getSession at 1. cbn [negb andb].
    unfold bind at 1. unfold ret at 1. intros Hrun.
    apply bind_Ok in Hrun as (content & w1 & Hget & Hrun).
    destruct (getFileContent_answer P _ _ _ _ Hget) as (resp & Hnet & Hok & ->).
    apply (preserves_run _ _ _ _ _ (getFileContent_net_only P _)) in Hget
      as (Hs & Hq & _).
    destruct (JSON_parse P (body_text resp)) as [data|] eqn:Hparse; [|done].
    unfold bind, Date_now, cacheSet, commit, ret in Hrun. cbn [fst snd] in Hrun.
    change (quota (set_ticks (S (ticks w1)) w1)) with (quota w1) in Hrun.
    rewrite Hq, Hquota in Hrun. injection Hrun as <- <-.
    exists resp, data, (ticks w1).
    split; [done|]. split; [done|]. split; [done|]. split; [done|].
    split; [done|].
    unfold getSession, bind, cacheGet. cbn [fst snd negb andb].
    cbn [localStorage set_localStorage set_ticks].
    rewrite cacheGet_put_item.
    destruct data; done.
Qed.

(** X10. A [getSession] that throws (the request fails, or the content is not
    JSON) leaves [localStorage] as it was: the session cached before stays
    readable. *)
Theorem getSession_failure_keeps_cache (P : Platform) (sessionId : string)
    (forceRefresh : bool) (w w' : World) (err : exn) :
  getSession P sessionId forceRefresh w = (Throw err, w') ->
  localStorage w' = localStorage w.
Proof.
  unfold getSession. intros Hrun.
  apply bind_Throw in Hrun as [Hrun|(cached & w1 & Hcached & Hrun)].
  { destruct forceRefresh; discriminate Hrun. }
  assert (w1 = w) as ->.
  { destruct forceRefresh; [by injection Hcached|].
    unfold cacheGet in Hcached. by injection Hcached. }
  destruct (negb forceRefresh && truthy cached) eqn:Hhit.
  - apply andb_prop in Hhit as [_ Htruthy].
    destruct (get_prop_truthy cached "data" Htruthy) as [d Hd].
    destruct (get_prop_truthy cached "syncTime" Htruthy) as [t Ht].
    unfold bind, member in Hrun. rewrite Hd, Ht in Hrun. discriminate Hrun.
  - apply bind_Throw in Hrun as [Hrun|(content & w2 & Hget & Hrun)].
    + by apply (preserves_run _ _ _ _ _ (getFileContent_net_only P _))
        in Hrun as (Hs & _).
    + apply (preserves_run _ _ _ _ _ (getFileContent_net_only P _)) in Hget
        as (Hs & _).
      destruct (JSON_parse P content) as [data|].
      * unfold bind, Date_now, cacheSet, commit, ret in Hrun.
        cbn [fst snd] in Hrun. by destruct (quota _ _).
      * injection Hrun as _ <-. done.
Qed.

(** ** Deleting an app, listing sessions *)

Lemma cacheGet_remove_same (key : string) (s : Storage) :
  cacheGet_in (remove_item key s) key = VNull.
Proof. unfold cacheGet_in, remove_item. simpl. by rewrite lookup_delete_eq. Qed.

Lemma cacheGet_remove_null (key key' : string) (s : Storage) :
  cacheGet_in s key = VNull -> cacheGet_in (remove_item key' s) key = VNull.
Proof.
  unfold cacheGet_in, remove_item. simpl. rewrite lookup_delete.
  by case_decide.
Qed.

(** X11. [deleteApp] removes its six cache items before it asks the remote
    store for anything: whatever comes of the request, each of them then
    reads [null]; with no token stored the call throws "Not authenticated"
    and sends nothing, and the items are removed all the same. *)
Theorem deleteApp_clears_before_request (P : Platform) (appId : string)
    (w : World) :
  let w' := (deleteApp P appId w).2 in
  (forall key,
     key ∈ ["appFiles_" +:+ appId; "sessionsFolderId_" +:+ appId;
            "sessions_" +:+ appId;
            "fileId_" +:+ appId +:+ "_manifest.json";
            "fileId_" +:+ appId +:+ "_app.html";
            "fileId_" +:+ appId +:+ "_params.json"] ->
     cacheGet_in (localStorage w') key = VNull) /\
  (tokenItem (sessionStorage w) = None ->
   deleteApp P appId w = (Throw (Error "Not authenticated"), w') /\
   fetched w' = fetched w).
Proof.
  intros w'. subst w'. split.
  - intros key Hkey. rewrite deleteApp_storage.
    repeat (apply elem_of_cons in Hkey as [->|Hkey];
            [repeat first [apply cacheGet_remove_same
                          |apply cacheGet_remove_null]|]).
    by apply elem_of_nil in Hkey.
  - intros Htoken.
    unfold deleteApp, request, GoogleAuth.getToken, cacheDelete, bind.
    simpl. rewrite Htoken. done.
Qed.

Lemma sessionOf_run (f y : value) (w w' : World) :
  sessionOf f w = (Ok y, w') -> w' = w.
Proof.
  unfold sessionOf. intros Hy.
  apply bind_Ok in Hy as (a & wc & Ha & Hy).
  apply member_run in Ha as [_ ->].
  apply bind_Ok in Hy as (b & wd & Hb & Hy).
  apply member_run in Hb as [_ ->].
  apply bind_Ok in Hy as (c & we & Hc & Hy).
  assert (we = w) as ->.
  { unfold sessionName in Hc. destruct b; try done. by injection Hc. }
  apply bind_Ok in Hy as (d & wf & Hd & Hy).
  apply member_run in Hd as [_ ->]. by injection Hy.
Qed.

Lemma mapM_sessionOf_run (l l' : list value) (w w' : World) :
  mapM sessionOf l w = (Ok l', w') -> w' = w.
Proof.
  revert l' w'. induction l as [|f l IH]; intros l' w' Hl;
    [by injection Hl|].
  cbn [mapM] in Hl.
  apply bind_Ok in Hl as (y & wa & Hy & Hl).
  apply sessionOf_run in Hy as ->.
  apply bind_Ok in Hl as (ys & wb & Hys & Hl).
  apply IH in Hys as ->. by injection Hl.
Qed.

Lemma mapFiles_run (files mapped : value) (w w' : World) :
  mapFiles files w = (Ok mapped, w') -> w' = w /\ exists l, mapped = VArr l.
Proof.
  unfold mapFiles. destruct files as [| | | | |l|]; try done. intros Hmap.
  apply bind_Ok in Hmap as (l' & w5 & Hl & Hret).
  apply mapM_sessionOf_run in Hl as ->.
  injection Hret as <- <-. split; [done|by eexists].
Qed.

(** X12. [listSessions] caches the list it returns under [sessions_<appId>]
    (the storage accepting the write), and a [createSession] that returns
    leaves that item removed: the cached list never lacks a session that was
    created. *)
Theorem session_list_cache (P : Platform) (appId : string) (w : World) :
  (forall sessions w',
     (forall s, quota w s = true) ->
     listSessions P appId w = (Ok sessions, w') ->
     cacheGet_in (localStorage w') ("sessions_" +:+ appId) =
     json_clean sessions) /\
  (forall name r w',
     createSession P appId name w = (Ok r, w') ->
     cacheGet_in (localStorage w') ("sessions_" +:+ appId) = VNull).
Proof.
  split.
  - intros sessions w' Hquota Hrun. unfold listSessions in Hrun.
    apply bind_Ok in Hrun as (folder & w1 & Hfolder & Hrun).
    apply (preserves_run _ _ _ _ _ (getSessionsFolderId_table_kept P _))
      in Hfolder as (_ & Hq1 & _).
    apply bind_Ok in Hrun as (result & w2 & Hreq & Hrun).
    apply (preserves_run _ _ _ _ _ (request_net_only P _ _)) in Hreq
      as (_ & Hq2 & _).
    apply bind_Ok in Hrun as (files & w3 & Hfiles & Hrun).
    apply member_run in Hfiles as [_ ->].
    apply bind_Ok in Hrun as (mapped & w4 & Hmap & Hrun).
    apply mapFiles_run in Hmap as [-> [l ->]].
    apply bind_Ok in Hrun as ([] & w5 & Hset & Hrun).
    injection Hrun as <- <-.
    unfold cacheSet, commit in Hset. rewrite Hq2, Hq1, Hquota in Hset.
    injection Hset as <-. cbn [localStorage set_localStorage].
    by rewrite cacheGet_put_item.
  - intros name r w' Hrun. unfold createSession in Hrun.
    apply bind_Ok in Hrun as (folder & w1 & _ & Hrun).
    apply bind_Ok in Hrun as (created & w2 & _ & Hrun).
    apply bind_Ok in Hrun as (file & w3 & _ & Hrun).
    apply bind_Ok in Hrun as (id & w4 & _ & Hrun).
    apply bind_Ok in Hrun as ([] & w5 & _ & Hrun).
    apply bind_Ok in Hrun as ([] & w6 & Hdel & Hrun).
    injection Hrun as _ <-.
    unfold cacheDelete in Hdel. injection Hdel as <-.
    cbn [localStorage set_localStorage]. apply cacheGet_remove_same.
Qed.

(** ** Session names *)

Lemma starts_with_json_suffix (s : string) :
  s <> "" ->
  starts_with ".json" (s +:+ ".json") = starts_with ".json" s.
Proof.
  intros Hs.
  destruct s as [|a [|b [|c [|d [|e s]]]]]; [done|..]; simpl;
    repeat match goal with
           | |- context [Ascii.eqb ?x ?y] =>
               destruct (Ascii.eqb_spec x y) as [<-|?]; simpl
           end; done.
Qed.

Lemma replace_first_absent (p r s : string) :
  occurs p s = false -> replace_first p r s = s.
Proof.
  induction s as [|c s IH]; cbn [occurs replace_first]; intros H;
    apply orb_false_elim in H as [-> H]; [done|].
  by rewrite IH.
Qed.

Lemma replace_first_json_suffix (name : string) :
  occurs ".json" name = false ->
  replace_first ".json" "" (name +:+ ".json") = name.
Proof.
  induction name as [|c name IH]; [done|].
  cbn [occurs]. intros H. apply orb_false_elim in H as [Hhere Hrest].
  change (String c name +:+ ".json") with (String c (name +:+ ".json")).
  cbn [replace_first].
  change (String c (name +:+ ".json")) with (String c name +:+ ".json").
  rewrite starts_with_json_suffix, Hhere by done.
  by rewrite IH.
Qed.

(** X13. The name [listSessions] shows for a session file undoes the name
    [createSession] gave the file: for a session name in which ".json" does
    not occur, the file "<name>.json" is listed as "<name>"; and a file name
    without ".json" is listed as it is. *)
Theorem sessionName_round_trip (name : string) (w : World) :
  occurs ".json" name = false ->
  sessionName (VStr (name +:+ ".json")) w = (Ok (VStr name), w) /\
  sessionName (VStr name) w = (Ok (VStr name), w).
Proof.
  intros H. unfold sessionName, ret.
  by rewrite replace_first_json_suffix, replace_first_absent.
Qed.

(** ** Requests and the token *)

Lemma getToken_run (P : Platform) (w w' : World) (token : option string) :
  GoogleAuth.getToken P w = (Ok token, w') ->
  fetched w' = fetched w /\ network w' = network w.
Proof.
  intros H. pose proof (getToken_fetched P w) as Hf. by rewrite H in Hf.
Qed.

(** X14. When [request] returns a value, a non-empty token was stored, exactly
    one request went out, carrying the url, the method and the headers asked
    for behind "Authorization: Bearer <token>", the response to it was ok,
    and the value is its parsed body: a response that is not ok never comes
    back as a value. *)
Theorem request_returns_ok_body (P : Platform) (url : string) (o : Options)
    (w w' : World) (v : value) :
  request P url o w = (Ok v, w') ->
  exists token resp,
    token <> "" /\
    tokenItem (sessionStorage w) = Some token /\
    network w (length (fetched w)) = NetResp resp /\
    ok resp = true /\
    JSON_parse P (body_text resp) = Some v /\
    fetched w' =
    fetched w ++
    [{| req_url := url;
        req_method := default "GET" (opt_method o);
        req_headers :=
          ("Authorization", "Bearer " +:+ token) :: opt_headers o;
        req_body := opt_body o |}].
Proof.
  unfold request. intros Hrun.
  apply bind_Ok in Hrun as (tok & w1 & Htok & Hrun).
  destruct (GoogleAuth.missing tok) eqn:Hmiss; [done|].
  destruct tok as [token|]; [|done]. simpl in Hmiss.
  apply String.eqb_neq in Hmiss.
  destruct (getToken_run _ _ _ _ Htok) as [Hf Hn].
  assert (tokenItem (sessionStorage w) = Some token) as Hitem.
  { revert Htok. unfold GoogleAuth.getToken.
    destruct (_ || _); [done|]. unfold bind, Date_now. cbn [fst snd].
    destruct (parseInt P _) as [e|]; [destruct (_ >? _)|];
      cbn; by intros [= -> _]. }
  apply bind_Ok in Hrun as (resp & w2 & Hfetch & Hrun).
  unfold fetch in Hfetch. rewrite Hf, Hn in Hfetch.
  destruct (network w _) as [m|resp'] eqn:Hnet; [done|].
  injection Hfetch as -> <-.
  destruct (ok resp) eqn:Hok; cbn [negb] in Hrun.
  - unfold response_json in Hrun.
    destruct (JSON_parse P (body_text resp)) as [v'|] eqn:Hparse; [|done].
    injection Hrun as -> <-.
    exists token, resp. repeat split; done.
  - exfalso.
    apply bind_Ok in Hrun as (error & w3 & _ & Hrun).
    apply bind_Ok in Hrun as (inner & w4 & _ & Hrun).
    discriminate Hrun.
Qed.

(** X15. A token that [getToken] returns is the stored one, is not empty, and
    is not within five minutes of a numeric expiry; returning it changes
    nothing in [sessionStorage]. *)
Theorem getToken_returns_unexpired (P : Platform) (w w' : World)
    (token : string) :
  GoogleAuth.getToken P w = (Ok (Some token), w') ->
  token <> "" /\
  tokenItem (sessionStorage w) = Some token /\
  sessionStorage w' = sessionStorage w /\
  exists expiry,
    expiryItem (sessionStorage w) = Some expiry /\ expiry <> "" /\
    forall e, parseInt P expiry = Some e ->
      clock w (ticks w) <= e - 300000.
Proof.
  unfold GoogleAuth.getToken.
  destruct (tokenItem (sessionStorage w)) as [t|] eqn:Ht; [|done].
  destruct (expiryItem (sessionStorage w)) as [x|] eqn:Hx;
    [|by rewrite orb_true_r].
  cbn [GoogleAuth.missing default].
  destruct (String.eqb_spec t "") as [->|Hne]; [done|].
  destruct (String.eqb_spec x "") as [->|Hxe]; [done|].
  cbn [orb]. unfold bind, Date_now, id. cbn [fst snd].
  destruct (parseInt P x) as [e|] eqn:Hparse.
  - destruct (Z.gtb_spec (clock w (ticks w)) (e - 300000)) as [Hgt|Hle];
      [by unfold GoogleAuth.signOut|].
    intros [= -> <-]. repeat split; try done.
    exists x. repeat split; try done. intros e' He'. by simplify_eq.
  - intros [= -> <-]. repeat split; try done.
    exists x. repeat split; try done. intros e' He'. by simplify_eq.
Qed.

(** X16. A token within five minutes of its expiry is dropped: [getToken]
    returns [null] and removes the token and the expiry from
    [sessionStorage], after which [isSignedIn] is false without the clock
    being read again, and [request] fails with "Not authenticated" without
    sending anything. *)
Theorem expired_token_signs_out (P : Platform) (w : World)
    (token expiry : string) (e : Z) :
  tokenItem (sessionStorage w) = Some token -> token <> "" ->
  expiryItem (sessionStorage w) = Some expiry -> expiry <> "" ->
  parseInt P expiry = Some e ->
  e - 300000 < clock w (ticks w) ->
  let w' := (GoogleAuth.getToken P w).2 in
  GoogleAuth.getToken P w = (Ok None, w') /\
  sessionStorage w' = {| tokenItem := None; expiryItem := None |} /\
  GoogleAuth.isSignedIn P w' = (Ok false, w') /\
  forall url o,
    request P url o w' = (Throw (Error "Not authenticated"), w').
Proof.
  intros Ht Hne Hx Hxe Hparse Hlate w'. subst w'.
  apply String.eqb_neq in Hne, Hxe.
  assert (GoogleAuth.getToken P w =
          (Ok None,
           set_sessionStorage {| tokenItem := None; expiryItem := None |}
             (set_ticks (S (ticks w)) w))) as Hrun.
  { unfold GoogleAuth.getToken. rewrite Ht, Hx.
    cbn [GoogleAuth.missing default]. rewrite Hne, Hxe. cbn [orb].
    unfold bind, Date_now, id. cbn [fst snd]. rewrite Hparse.
    destruct (Z.gtb_spec (clock w (ticks w)) (e - 300000)); [done|lia]. }
  rewrite Hrun. cbn [snd]. repeat split; try done.
Qed.

(** ** Session updates from the guest *)

Lemma obj_get_set (o : obj) (k : string) (v : value) :
  obj_get (obj_set o k v) k = v.
Proof.
  induction o as [|[k' v'] o IH]; simpl.
  - by rewrite String.eqb_refl.
  - destruct (String.eqb_spec k' k) as [->|Hne]; simpl.
    + by rewrite String.eqb_refl.
    + apply String.eqb_neq in Hne. by rewrite Hne.
Qed.

Lemma obj_get_set_ne (o : obj) (k k' : string) (v : value) :
  k' <> k -> obj_get (obj_set o k v) k' = obj_get o k'.
Proof.
  intros Hne. induction o as [|[k0 v0] o IH]; simpl.
  - apply String.eqb_neq in Hne. by rewrite String.eqb_sym, Hne.
  - destruct (String.eqb_spec k0 k) as [->|Hk]; simpl.
    + assert (String.eqb k k' = false) as -> by by apply String.eqb_neq.
      done.
    + by destruct (String.eqb k0 k').
Qed.

Lemma saveSession_posted (P : Platform) (sessionId : string) (v : value)
    (w : World) :
  posted (saveSession P sessionId v w).2 = posted w.
Proof.
  unfold saveSession, bind.
  pose proof (updateFile_net_only P (VStr sessionId)
                (JSON_stringify_pretty P v) w) as (_ & _ & Hp).
  destruct (updateFile P _ _ w) as [[r|e] w1]; simpl in Hp; [|done].
  unfold Date_now, cacheSet, commit. cbn [fst snd].
  by destruct (quota _ _).
Qed.

Lemma ready_run (P : Platform) (event : AppRunner.MessageEvent)
    (r : AppRunner.Runner) (w : World) (f : AppRunner.Iframe) (win : window)
    (fields : obj) :
  AppRunner.iframe r = Some f ->
  AppRunner.contentWindow f = Some win ->
  AppRunner.source event = Some win ->
  AppRunner.data event = VObj fields ->
  obj_get fields "type" = VStr "ready" ->
  AppRunner.handleMessage P event r w =
  (Ok r, set_posted (posted w ++ [(win, AppRunner.initMessage r)]) w).
Proof.
  intros Hf Hwin Hsrc Hdata Htype.
  unfold AppRunner.handleMessage, AppRunner.fromGuest.
  rewrite Hf, bool_decide_eq_true_2 by congruence.
  rewrite Hdata. simpl. rewrite Htype.
  unfold AppRunner.sendInitToIframe, AppRunner.guestWindow, bind.
  by rewrite Hf, Hwin.
Qed.

(** X17. An accepted [update-session] message that finds a current session
    puts its payload into the session at once and keeps it there whether
    the save succeeds or fails; the save goes to the id of the session with
    its name, its creation time and the payload; and the guest gets exactly
    one [session-saved] message, whose [success] tells how the save ended.
    A [ready] that follows is answered with the payload (an empty object
    for a falsy one), also after a failed save. *)
Theorem handleMessage_update_session (P : Platform)
    (event ready : AppRunner.MessageEvent) (r : AppRunner.Runner) (w : World)
    (f : AppRunner.Iframe) (win : window) (fields readyFields s : obj) :
  AppRunner.iframe r = Some f ->
  AppRunner.contentWindow f = Some win ->
  AppRunner.source event = Some win ->
  AppRunner.data event = VObj fields ->
  obj_get fields "type" = VStr "update-session" ->
  AppRunner.currentSession r = Some s ->
  AppRunner.source ready = Some win ->
  AppRunner.data ready = VObj readyFields ->
  obj_get readyFields "type" = VStr "ready" ->
  let payload := obj_get fields "data" in
  let r' := AppRunner.set_currentSession (Some (obj_set s "data" payload)) r in
  let save :=
    saveSession P (to_string (obj_get s "id"))
      (VObj [("name", obj_get s "name");
             ("createdAt", obj_get s "createdAt");
             ("data", payload)]) w in
  let w' := set_posted (posted w ++ [(win, sessionSaved save.1)]) save.2 in
  AppRunner.handleMessage P event r w = (Ok r', w') /\
  exists init,
    AppRunner.handleMessage P ready r' w' =
      (Ok r',
       set_posted (posted w ++ [(win, sessionSaved save.1); (win, init)])
         save.2) /\
    obj_get (spread init) "session" =
      (if truthy payload then payload else VObj []).
Proof.
  intros Hf Hwin Hsrc Hdata Htype Hs Hrsrc Hrdata Hrtype payload r' save w'.
  split.
  - unfold AppRunner.handleMessage, AppRunner.fromGuest.
    rewrite Hf, bool_decide_eq_true_2 by congruence.
    rewrite Hdata. simpl. rewrite Htype.
    unfold AppRunner.handleSessionUpdate. rewrite Hs. fold payload r'.
    assert (AppRunner.guestWindow r' = Some win) as Hg.
    { unfold AppRunner.guestWindow. simpl. by rewrite Hf, Hwin. }
    unfold bind at 1. unfold AppRunner.saveCurrentSession.
    change (AppRunner.currentSession r')
      with (Some (obj_set s "data" payload)). cbv iota beta.
    rewrite obj_get_set, !obj_get_set_ne by done.
    unfold try_catch, bind, AppRunner.sendMessageToIframe. rewrite Hg.
    pose proof (saveSession_posted P (to_string (obj_get s "id"))
                  (VObj [("name", obj_get s "name");
                         ("createdAt", obj_get s "createdAt");
                         ("data", payload)]) w) as Hposted.
    subst w' save.
    destruct (saveSession P _ _ w) as [[v|e] w1]; cbn [fst snd] in *;
      unfold postMessage, ret; by rewrite Hposted.
  - exists (AppRunner.initMessage r'). split.
    + rewrite (ready_run P ready r' w' f win readyFields) by done.
      subst w'. cbn [posted set_posted]. by rewrite <- app_assoc.
    + cbn [AppRunner.initMessage spread obj_get String.eqb Ascii.eqb].
      simpl. rewrite sessionForGuest_spec.
      cbn [AppRunner.currentSession r' AppRunner.set_currentSession
           AppRunner.sessionSent].
      by rewrite obj_get_set.
Qed.

(** ** Switching sessions *)

Lemma getSession_posted (P : Platform) (sessionId : string)
    (forceRefresh : bool) (w : World) :
  posted (getSession P sessionId forceRefresh w).2 = posted w.
Proof.
  unfold getSession.
  assert (preserves table_kept
            (let* cached :=
               (if forceRefresh then ret VNull
                else cacheGet ("session_" +:+ sessionId)) in
             if negb forceRefresh && truthy cached
             then
               let* data := member cached "data" in
               let* t := member cached "syncTime" in
               ret (withSyncTime data t)
             else
               let* content := getFileContent P (VStr sessionId) in
               match JSON_parse P content with
               | Some data =>
                   let* now := Date_now in
                   cacheSet ("session_" +:+ sessionId)
                     (VObj [("data", data); ("syncTime", VNum now)]) ;;
                   ret (withSyncTime data (VNum now))
               | None => throw (SyntaxError "Unexpected token in JSON")
               end)) as Hp.
  { assert (forall A (m : M A), preserves net_only m ->
              preserves table_kept m) as Hnet.
    { intros A m. apply preserves_weaken, net_only_table_kept. }
    apply preserves_bind; [typeclasses eauto| |].
    { destruct forceRefresh; [apply preserves_ret; typeclasses eauto|].
      apply Hnet, cacheGet_net_only. }
    intros cached. apply preserves_if.
    - apply Hnet. eauto 10 with frame.
    - apply preserves_bind;
        [typeclasses eauto|apply Hnet, getFileContent_net_only|].
      intros content. destruct (JSON_parse P content) as [data|];
        [|apply preserves_throw; typeclasses eauto].
      apply preserves_bind;
        [typeclasses eauto|apply Hnet, Date_now_net_only|].
      intros now. apply preserves_bind; [typeclasses eauto| |].
      + eapply preserves_weaken;
          [apply only_item_table_kept|apply cacheSet_only_item].
      + intros _. apply preserves_ret; typeclasses eauto. }
  by destruct (Hp w) as (_ & _ & ?).
Qed.

(** X18. A session switch never throws and always ends with exactly one
    [init] message to the guest window, built from the state the load left:
    the loaded document under the chosen id when [getSession] returned, and
    the session held before when it threw, so that a failed switch sends the
    previous session again. *)
Theorem handleSessionChange_sends_init (P : Platform) (sessionId : string)
    (r : AppRunner.Runner) (w : World) (f : AppRunner.Iframe) (win : window) :
  AppRunner.iframe r = Some f ->
  AppRunner.contentWindow f = Some win ->
  let load := getSession P sessionId false w in
  let r' :=
    match load.1 with
    | Ok session =>
        AppRunner.set_currentSession
          (Some (obj_assign [("id", VStr sessionId)] (spread session))) r
    | Throw _ => r
    end in
  AppRunner.handleSessionChange P sessionId r w =
  (Ok r', set_posted (posted w ++ [(win, AppRunner.initMessage r')]) load.2).
Proof.
  intros Hf Hwin load r'. subst r' load.
  pose proof (getSession_posted P sessionId false w) as Hposted.
  unfold AppRunner.handleSessionChange, AppRunner.loadSession.
  unfold bind at 1. unfold try_catch. unfold bind at 1.
  destruct (getSession P sessionId false w) as [[session|e] w1];
    cbn [fst snd] in *; unfold ret at 1;
    unfold bind, AppRunner.sendInitToIframe, AppRunner.guestWindow;
    cbn [AppRunner.iframe AppRunner.set_currentSession];
    rewrite Hf, Hwin; unfold postMessage, ret; by rewrite Hposted.
Qed.

(** ** Eviction among entries cached at the same time *)

Lemma filter_before {A} (f : A -> bool) (l X Y Z : list A) (a b : A) :
  List.filter f l = X ++ a :: Y ++ b :: Z -> before a b l.
Proof.
  revert X. induction l as [|x l IH]; intros X Hl.
  - by destruct X.
  - cbn [List.filter] in Hl. destruct (f x).
    + destruct X as [|x0 X]; cbn in Hl; injection Hl as -> Hl.
      * assert (b ∈ l) as Hb.
        { apply list_elem_of_In, (proj1 (List.filter_In f b l)).
          rewrite Hl. apply list_elem_of_In, elem_of_app. right.
          apply list_elem_of_here. }
        apply list_elem_of_split in Hb as (p & q & ->).
        by exists [], p, q.
      * destruct (IH _ Hl) as (l1 & l2 & l3 & ->).
        by exists (x0 :: l1), l2, l3.
    + destruct (IH _ Hl) as (l1 & l2 & l3 & ->).
      by exists (x :: l1), l2, l3.
Qed.

(** X19. Ties are broken by enumeration order: when [setAppCache] evicts an
    entry and keeps another one cached at the same time, the evicted one
    comes first in [Object.entries] order. *)
Theorem eviction_breaks_ties_in_order (c : AppTable)
    (a b : string * AppEntry) :
  NoDup c.*1 ->
  a ∈ toRemove c -> b ∈ evict c -> cachedAt a.2 = cachedAt b.2 ->
  before a b (entries c).
Proof.
  intros Hnd Ha Hb Htie.
  rewrite evict_kept in Hb by done.
  rewrite toRemove_prefix in Ha. unfold kept in Hb.
  apply list_elem_of_split in Ha as (l1 & l2 & Ha).
  apply list_elem_of_split in Hb as (m1 & m2 & Hb).
  pose proof (sort_by_stable entry_time (entries c) (entry_time a)) as Hst.
  rewrite <- (firstn_skipn (length c - APP_CACHE_MAX)
                (sort_by entry_time (entries c))) in Hst at 1.
  rewrite Ha, Hb in Hst.
  rewrite !List.filter_app in Hst. cbn [List.filter] in Hst.
  assert ((entry_time b =? entry_time a) = true) as Hbt.
  { apply Z.eqb_eq. unfold entry_time. congruence. }
  rewrite Z.eqb_refl, Hbt in Hst.
  apply (filter_before (fun y => entry_time y =? entry_time a) _
           (List.filter (fun y => entry_time y =? entry_time a) l1)
           (List.filter (fun y => entry_time y =? entry_time a) l2 ++
            List.filter (fun y => entry_time y =? entry_time a) m1)
           (List.filter (fun y => entry_time y =? entry_time a) m2)).
  rewrite <- Hst, <- !app_assoc. reflexivity.
Qed.

(** ** The sessions folder *)

(** X20. The id of the sessions folder is looked up once: a cached id
    answers [getSessionsFolderId] with nothing sent; and when none is
    cached, the id the call returns (found or newly created) is cached, the
    storage accepting the write, so that the next call returns it as stored
    and sends nothing. *)
Theorem getSessionsFolderId_cached (P : Platform) (appId : string)
    (w : World) :
  let cached :=
    cacheGet_in (localStorage w) ("sessionsFolderId_" +:+ appId) in
  (truthy cached = true ->
   getSessionsFolderId P appId w = (Ok cached, w)) /\
  (forall id w1,
     truthy cached = false ->
     (forall s, quota w s = true) ->
     getSessionsFolderId P appId w = (Ok id, w1) ->
     truthy id = true ->
     getSessionsFolderId P appId w1 = (Ok (json_clean id), w1)).
Proof.
  intros cached. split.
  - intros Hc. unfold getSessionsFolderId, bind, cacheGet. cbn [fst snd].
    fold cached. by rewrite Hc.
  - intros id w1 Hmiss Hquota Hrun Hid.
    assert (exists w0,
              quota w0 = quota w /\
              cacheSet ("sessionsFolderId_" +:+ appId) id w0 = (Ok tt, w1))
      as (w0 & Hq & Hset).
    { unfold getSessionsFolderId in Hrun.
      unfold bind at 1 in Hrun. unfold cacheGet at 1 in Hrun.
      cbn [fst snd] in Hrun. fold cached in Hrun. rewrite Hmiss in Hrun.
      apply bind_Ok in Hrun as (folder & wa & Hfind & Hrun).
      apply (preserves_run _ _ _ _ _ (findFile_only_item P _ _)) in Hfind
        as (_ & _ & Hqa & _).
      destruct (negb (truthy folder)).
      - apply bind_Ok in Hrun as (newFolder & wb & Hreq & Hrun).
        apply (preserves_run _ _ _ _ _ (request_net_only P _ _)) in Hreq
          as (_ & Hqb & _).
        apply bind_Ok in Hrun as (id' & wc & Hmem & Hrun).
        apply member_run in Hmem as [_ ->].
        apply bind_Ok in Hrun as ([] & wd & Hset & Hrun).
        injection Hrun as -> <-. exists wb. split; [congruence|done].
      - apply bind_Ok in Hrun as (id' & wc & Hmem & Hrun).
        apply member_run in Hmem as [_ ->].
        apply bind_Ok in Hrun as ([] & wd & Hset & Hrun).
        injection Hrun as -> <-. exists wa. split; [congruence|done]. }
    unfold cacheSet, commit in Hset. rewrite Hq, Hquota in Hset.
    injection Hset as <-.
    unfold getSessionsFolderId, bind, cacheGet. cbn [fst snd].
    cbn [localStorage set_localStorage]. rewrite cacheGet_put_item.
    replace (match id with VUndef => VNull | _ => json_clean id end)
      with (json_clean id) by by destruct id.
    by rewrite truthy_json_clean, Hid.
Qed.

(** ** Reading app files *)

Lemma parsedOrNull_run (P : Platform) (text : option string) (v : value)
    (w w' : World) :
  parsedOrNull P text w = (Ok v, w') -> w' = w.
Proof.
  unfold parsedOrNull. destruct text as [t|]; [|by intros [= _ <-]].
  destruct (String.eqb t ""); [by intros [= _ <-]|].
  destruct (JSON_parse P t); [by intros [= _ <-]|done].
Qed.

(** The two halves of a function cut at its [await], run one after the
    other, are the function. *)
Lemma fetch_cut (r : Request) (w : World) :
  fetch r w = (let* i := send r in receive i) w.
Proof. unfold fetch, bind, send, receive. simpl. by destruct (network w _). Qed.

Lemma request_cut (P : Platform) (url : string) (o : Options) (w : World) :
  request P url o w =
  (let* i := request_sent P url o in request_answered P i) w.
Proof.
  unfold request, request_sent, request_answered, bind.
  destruct (GoogleAuth.getToken P w) as [[token|e] w1]; [|done].
  destruct (GoogleAuth.missing token); [done|].
  rewrite fetch_cut. unfold bind, send. simpl.
  by destruct (receive _ _) as [[resp|e] w2].
Qed.

Lemma getFileContent_cut (P : Platform) (fileId : value) (w : World) :
  getFileContent P fileId w =
  (let* i := getFileContent_sent P fileId in getFileContent_answered i) w.
Proof.
  unfold getFileContent, getFileContent_sent, getFileContent_answered, bind.
  destruct (GoogleAuth.getToken P w) as [[token|e] w1]; [|done].
  rewrite fetch_cut. unfold bind, send. simpl.
  by destruct (receive _ _) as [[resp|e] w2].
Qed.

Lemma findFile_cut (P : Platform) (parentId name : string) (w : World) :
  findFile P parentId name w =
  (let* s := findFile_sent P parentId name in
   match s with
   | inl f => ret f
   | inr i => findFile_answered P parentId name i
   end) w.
Proof.
  unfold findFile, findFile_sent, findFile_answered.
  cbv [bind cacheGet ret].
  destruct (truthy _); [done|].
  rewrite request_cut. cbv [bind].
  by destruct (request_sent P _ _ w) as [[i|e] w1].
Qed.

Lemma send_net_only r : preserves net_only (send r).
Proof. by intros w. Qed.

Lemma receive_net_only i : preserves net_only (receive i).
Proof. intros w. unfold receive. by destruct (network w i). Qed.

#[local] Hint Resolve send_net_only receive_net_only : frame.

Lemma request_sent_net_only P url o : preserves net_only (request_sent P url o).
Proof.
  unfold request_sent. apply preserves_bind; eauto with frame.
Qed.

Lemma request_answered_net_only P i : preserves net_only (request_answered P i).
Proof. unfold request_answered. eauto 10 with frame. Qed.

Lemma getFileContent_sent_net_only P f :
  preserves net_only (getFileContent_sent P f).
Proof. unfold getFileContent_sent. eauto 10 with frame. Qed.

Lemma getFileContent_answered_net_only i :
  preserves net_only (getFileContent_answered i).
Proof. unfold getFileContent_answered. eauto 10 with frame. Qed.

Section LookupFrames.
Context (P : Platform) (appId : string).

Let from_net {A} (m : M A) : preserves net_only m -> preserves table_kept m.
Proof. apply preserves_weaken, net_only_table_kept. Qed.

Let from_item {A} k (m : M A) :
  preserves (only_item k) m -> preserves table_kept m.
Proof. apply preserves_weaken, only_item_table_kept. Qed.

Lemma findFile_sent_table_kept name :
  preserves table_kept (findFile_sent P appId name).
Proof.
  unfold findFile_sent.
  apply preserves_bind; [typeclasses eauto|apply from_net, cacheGet_net_only|].
  intros cachedId. apply preserves_if; [apply preserves_ret; typeclasses eauto|].
  apply preserves_bind;
    [typeclasses eauto|apply from_net, request_sent_net_only|].
  intros i. apply preserves_ret; typeclasses eauto.
Qed.

Lemma findFile_answered_table_kept name i :
  preserves table_kept (findFile_answered P appId name i).
Proof.
  unfold findFile_answered.
  apply preserves_bind;
    [typeclasses eauto|apply from_net, request_answered_net_only|].
  intros result.
  apply preserves_bind; [typeclasses eauto|apply from_net, member_net_only|].
  intros files.
  apply preserves_bind; [typeclasses eauto|apply from_net, first_of_net_only|].
  intros first.
  apply preserves_if; [|apply preserves_ret; typeclasses eauto].
  apply preserves_bind; [typeclasses eauto|apply from_net, member_net_only|].
  intros id.
  apply preserves_bind;
    [typeclasses eauto|eapply from_item, cacheSet_only_item|].
  intros _. apply preserves_ret; typeclasses eauto.
Qed.

Lemma rejecting_table_kept (m : M FileLookup) :
  preserves table_kept m -> preserves table_kept (rejecting m).
Proof.
  intros Hm. unfold rejecting.
  apply preserves_try_catch; [typeclasses eauto|done|].
  intros e. apply preserves_ret; typeclasses eauto.
Qed.

Lemma lookup_begin_table_kept name :
  preserves table_kept (lookup_begin P appId name).
Proof.
  unfold lookup_begin. apply rejecting_table_kept.
  apply preserves_bind; [typeclasses eauto|apply findFile_sent_table_kept|].
  intros s. apply preserves_ret; typeclasses eauto.
Qed.

Lemma lookup_then_table_kept f : preserves table_kept (lookup_then P f).
Proof.
  unfold lookup_then. apply rejecting_table_kept.
  apply preserves_if; [|apply preserves_ret; typeclasses eauto].
  apply preserves_bind; [typeclasses eauto|apply from_net, member_net_only|].
  intros id.
  apply preserves_bind;
    [typeclasses eauto|apply from_net, getFileContent_sent_net_only|].
  intros i. apply preserves_ret; typeclasses eauto.
Qed.

Lemma lookup_resume_table_kept l :
  preserves table_kept (lookup_resume P appId l).
Proof.
  destruct l as [name i|f|i|t|e]; simpl.
  - apply rejecting_table_kept.
    apply preserves_bind;
      [typeclasses eauto|apply findFile_answered_table_kept|].
    intros f. apply lookup_then_table_kept.
  - apply lookup_then_table_kept.
  - apply rejecting_table_kept.
    apply preserves_bind;
      [typeclasses eauto|apply from_net, getFileContent_answered_net_only|].
    intros text. apply preserves_ret; typeclasses eauto.
  - apply preserves_ret; typeclasses eauto.
  - apply preserves_ret; typeclasses eauto.
Qed.

Lemma advance_table_kept which ls failed :
  preserves table_kept (advance P appId which ls failed).
Proof.
  revert failed. induction ls as [|l rest IH]; intros failed; simpl.
  - apply preserves_ret; typeclasses eauto.
  - apply preserves_bind; [typeclasses eauto| |].
    + apply preserves_if; [apply lookup_resume_table_kept|].
      apply preserves_ret; typeclasses eauto.
    + intros l'. apply preserves_bind; [typeclasses eauto|apply IH|].
      intros r. apply preserves_ret; typeclasses eauto.
Qed.

Lemma deliver_table_kept r : preserves table_kept (deliver P appId r).
Proof.
  intros w. unfold deliver.
  destruct (omap waiting r.1) as [|i0 rest]; [done|].
  apply advance_table_kept.
Qed.

Lemma settle_table_kept n r : preserves table_kept (settle P n appId r).
Proof.
  revert r. induction n as [|n IH]; intros r; simpl.
  - apply preserves_ret; typeclasses eauto.
  - apply preserves_bind; [typeclasses eauto|apply deliver_table_kept|].
    intros r'. apply IH.
Qed.

Lemma mapM_preserves {A B} (R : World -> World -> Prop)
    `{!Reflexive R} `{!Transitive R} (f : A -> M B) (l : list A) :
  (forall x, preserves R (f x)) -> preserves R (mapM f l).
Proof.
  intros Hf. induction l as [|x r IH]; simpl.
  - by apply preserves_ret.
  - apply preserves_bind; [done|apply Hf|].
    intros y. apply preserves_bind; [done|apply IH|].
    intros ys. by apply preserves_ret.
Qed.

Lemma race_table_kept names : preserves table_kept (race P appId names).
Proof.
  unfold race.
  apply preserves_bind; [typeclasses eauto| |].
  { apply mapM_preserves; [typeclasses eauto..|].
    intros name. apply lookup_begin_table_kept. }
  intros started.
  apply preserves_bind; [typeclasses eauto|apply advance_table_kept|].
  intros called. apply settle_table_kept.
Qed.

Lemma lookups_table_kept names : preserves table_kept (lookups P appId names).
Proof.
  unfold lookups.
  apply preserves_bind; [typeclasses eauto|apply race_table_kept|].
  intros r. destruct r.2.
  - apply preserves_throw; typeclasses eauto.
  - apply preserves_ret; typeclasses eauto.
Qed.
End LookupFrames.


(** ** The lookups settle *)

Section Settling.
Context (P : Platform) (appId : string).

Lemma rejecting_returns (m : M FileLookup) (w : World) :
  exists l, (rejecting m w).1 = Ok l /\
            ((m w).1 = Ok l \/ exists e, (m w).1 = Throw e /\ l = Rejected e).
Proof.
  unfold rejecting, try_catch.
  destruct (m w) as [[l|e] w1]; simpl.
  - exists l. auto.
  - exists (Rejected e). split; [done|]. right. by exists e.
Qed.

(** The callback leaves a lookup that waits for its read, or is settled. *)
Lemma lookup_then_returns (f : value) (w : World) :
  exists l, (lookup_then P f w).1 = Ok l /\ (waits l <= 1)%nat.
Proof.
  unfold lookup_then.
  destruct (rejecting_returns
              (if truthy f
               then (let* id := member f "id" in
                     let* i := getFileContent_sent P id in
                     ret (Reading i))
               else ret (Fulfilled None)) w) as (l & Hl & Hcase).
  exists l. split; [done|].
  destruct Hcase as [Hok|(e & _ & ->)]; [|simpl; lia].
  destruct (truthy f).
  - unfold bind in Hok.
    destruct (member f "id" w) as [[id|e] w1]; [|done].
    destruct (getFileContent_sent P id w1) as [[i|e] w2]; [|done].
    injection Hok as <-. simpl. lia.
  - injection Hok as <-. simpl. lia.
Qed.

(** A lookup that is run on comes nearer to its end, or is at it. *)
Lemma lookup_resume_returns (l : FileLookup) (w : World) :
  exists l', (lookup_resume P appId l w).1 = Ok l' /\
    found l' = false /\
    ((waits l' < waits l)%nat \/ (settled l = true /\ l' = l)).
Proof.
  assert (forall l0, (waits l0 <= 1)%nat -> found l0 = false) as Hnf
    by (intros [| | | |]; simpl; (done || lia)).
  destruct l as [name i|f|i|t|e]; simpl.
  - destruct (rejecting_returns
                (let* f := findFile_answered P appId name i in
                 lookup_then P f) w) as (l' & Hl' & Hcase).
    exists l'. split; [done|].
    assert (waits l' <= 1)%nat as Hw.
    { destruct Hcase as [Hok|(e & _ & ->)]; [|simpl; lia].
      unfold bind in Hok.
      destruct (findFile_answered P appId name i w) as [[f|e] w1]; [|done].
      destruct (lookup_then_returns f w1) as (l0 & Hl0 & Hw0).
      rewrite Hl0 in Hok. by injection Hok as <-. }
    split; [by apply Hnf|]. left. lia.
  - destruct (lookup_then_returns f w) as (l' & Hl' & Hw).
    exists l'. split; [done|]. split; [by apply Hnf|]. left. lia.
  - destruct (rejecting_returns
                (let* text := getFileContent_answered i in
                 ret (Fulfilled (Some text))) w) as (l' & Hl' & Hcase).
    exists l'. split; [done|].
    assert (waits l' = 0)%nat as Hw.
    { destruct Hcase as [Hok|(e & _ & ->)]; [|done].
      unfold bind in Hok.
      destruct (getFileContent_answered i w) as [[text|e] w1]; [|done].
      by injection Hok as <-. }
    split; [apply Hnf; lia|]. left. lia.
  - exists (Fulfilled t). auto.
  - exists (Rejected e). auto.
Qed.

Lemma lookup_begin_returns (name : string) (w : World) :
  exists l, (lookup_begin P appId name w).1 = Ok l.
Proof.
  unfold lookup_begin.
  destruct (rejecting_returns
              (let* s := findFile_sent P appId name in
               ret (match s with
                    | inl f => Found f
                    | inr i => Listing name i
                    end)) w) as (l & Hl & _).
  by exists l.
Qed.

Lemma begin_all_returns (names : list string) (w : World) :
  exists ls, (mapM (lookup_begin P appId) names w).1 = Ok ls /\
             length ls = length names.
Proof.
  revert w. induction names as [|name names IH]; intros w; simpl.
  - by exists [].
  - unfold bind.
    destruct (lookup_begin_returns name w) as (l & Hl).
    destruct (lookup_begin P appId name w) as [o w1]. simpl in Hl. subst o.
    destruct (IH w1) as (ls & Hls & Hlen).
    destruct (mapM _ names w1) as [o w2]. simpl in Hls. subst o.
    exists (l :: ls). simpl. by rewrite Hlen.
Qed.

Lemma advance_returns (which : FileLookup -> bool) (ls : list FileLookup)
    (failed : option exn) (w : World) :
  exists ls',
    (advance P appId which ls failed w).1 =
      Ok (ls', match failed with
               | Some e => Some e
               | None => head (omap rejection ls')
               end) /\
    Forall2 (stepped which) ls ls'.
Proof.
  revert failed w. induction ls as [|l rest IH]; intros failed w; simpl.
  - exists []. split; [by destruct failed|constructor].
  - unfold bind.
    assert (exists l', ((if which l then lookup_resume P appId l else ret l)
                          w).1 = Ok l' /\ stepped which l l')
      as (l' & Hl' & Hstep).
    { unfold stepped. destruct (which l).
      - destruct (lookup_resume_returns l w) as (l' & ? & ? & ?).
        by exists l'.
      - by exists l. }
    destruct ((if which l then lookup_resume P appId l else ret l) w)
      as [o w1]. simpl in Hl'. subst o.
    destruct (IH (match failed with
                  | Some e => Some e
                  | None => rejection l'
                  end) w1) as (rest' & Hrest & Hall).
    destruct (advance P appId which rest _ w1) as [o w2].
    simpl in Hrest. subst o. simpl.
    exists (l' :: rest'). split; [|by constructor].
    do 2 f_equal. destruct failed as [e|]; [done|].
    simpl. by destruct (rejection l').
Qed.

Lemma stepped_waits (which : FileLookup -> bool) (l l' : FileLookup) :
  stepped which l l' -> (waits l' <= waits l)%nat.
Proof.
  unfold stepped. destruct (which l); [|by intros ->].
  intros (_ & [Hlt|[_ ->]]); lia.
Qed.

Lemma stepped_total (which : FileLookup -> bool) (ls ls' : list FileLookup) :
  Forall2 (stepped which) ls ls' ->
  (sum_list (waits <$> ls') <= sum_list (waits <$> ls))%nat.
Proof.
  induction 1 as [|l l' ls ls' Hstep _ IH]; csimpl; [done|].
  apply stepped_waits in Hstep. lia.
Qed.

Lemma stepped_total_lt (which : FileLookup -> bool)
    (ls ls' : list FileLookup) (l : FileLookup) :
  Forall2 (stepped which) ls ls' ->
  l ∈ ls -> which l = true -> settled l = false ->
  (sum_list (waits <$> ls') < sum_list (waits <$> ls))%nat.
Proof.
  induction 1 as [|l0 l' ls ls' Hstep Hall IH]; csimpl; intros Hin Hw Hs.
  - by apply elem_of_nil in Hin.
  - apply elem_of_cons in Hin as [<-|Hin].
    + pose proof (stepped_total _ _ _ Hall).
      unfold stepped in Hstep. rewrite Hw in Hstep.
      destruct Hstep as (_ & [Hlt|[Hs' _]]); [lia|congruence].
    + specialize (IH Hin Hw Hs). apply stepped_waits in Hstep. lia.
Qed.

Lemma stepped_found (which : FileLookup -> bool) (ls ls' : list FileLookup) :
  Forall2 (stepped which) ls ls' ->
  (forall l, l ∈ ls -> which l = false -> found l = false) ->
  Forall (fun l => found l = false) ls'.
Proof.
  induction 1 as [|l l' ls ls' Hstep _ IH]; intros Hnf; [constructor|].
  constructor.
  - unfold stepped in Hstep. destruct (which l) eqn:Hw.
    + by destruct Hstep.
    + subst l'. apply Hnf; [apply list_elem_of_here|done].
  - apply IH. intros l0 Hin. apply Hnf. by apply list_elem_of_further.
Qed.

Lemma stepped_rejected (which : FileLookup -> bool)
    (ls ls' : list FileLookup) (e : exn) :
  Forall2 (stepped which) ls ls' -> Rejected e ∈ ls -> Rejected e ∈ ls'.
Proof.
  induction 1 as [|l l' ls ls' Hstep _ IH]; intros Hin.
  - by apply elem_of_nil in Hin.
  - apply elem_of_cons in Hin as [<-|Hin].
    + unfold stepped in Hstep. destruct (which (Rejected e)).
      * destruct Hstep as (_ & [Hlt|[_ ->]]); [simpl in Hlt; lia|].
        apply list_elem_of_here.
      * subst l'. apply list_elem_of_here.
    + apply list_elem_of_further. by apply IH.
Qed.

Lemma head_rejection (ls : list FileLookup) :
  match head (omap rejection ls) with
  | Some e => Rejected e ∈ ls
  | None => omap rejection ls = []
  end.
Proof.
  induction ls as [|l ls IH]; [done|].
  destruct l as [name i|f|i|t|e]; csimpl;
    [destruct (head (omap rejection ls));
       [by apply list_elem_of_further|done]..|].
  apply list_elem_of_here.
Qed.

(** A round of [advance] keeps the record of the first failure right. *)
Lemma advance_consistent (which : FileLookup -> bool)
    (ls ls' : list FileLookup) (failed : option exn) :
  consistent (ls, failed) ->
  Forall2 (stepped which) ls ls' ->
  consistent (ls', match failed with
                   | Some e => Some e
                   | None => head (omap rejection ls')
                   end).
Proof.
  intros [Hnone Hsome] Hall. pose proof (head_rejection ls') as Hhead.
  destruct failed as [e|]; split; simpl in *.
  - done.
  - intros e' [= <-]. apply (stepped_rejected _ _ _ _ Hall). by apply Hsome.
  - intros Hh. by rewrite Hh in Hhead.
  - intros e Hh. by rewrite Hh in Hhead.
Qed.

Lemma nothing_awaited (ls : list FileLookup) :
  Forall (fun l => found l = false) ls ->
  omap waiting ls = [] -> sum_list (waits <$> ls) = 0%nat.
Proof.
  induction 1 as [|l ls Hl _ IH]; csimpl; [done|].
  destruct l as [name i|f|i|t|e]; simpl in *; try done; apply IH.
Qed.

Lemma nothing_waits (ls : list FileLookup) :
  sum_list (waits <$> ls) = 0%nat -> forallb settled ls = true.
Proof.
  induction ls as [|l ls IH]; csimpl; [done|].
  intros Hsum. destruct l; simpl in *; try lia; apply IH; lia.
Qed.

(** One answer: the lookups stay as many, none is back at its callback, the
    record of the failure stays right, and one lookup at least has come
    nearer to its end, when any was waiting. *)
Lemma deliver_returns (r : list FileLookup * option exn) (w : World) :
  Forall (fun l => found l = false) r.1 -> consistent r ->
  exists r',
    (deliver P appId r w).1 = Ok r' /\
    length r'.1 = length r.1 /\
    Forall (fun l => found l = false) r'.1 /\ consistent r' /\
    (sum_list (waits <$> r'.1) <= Nat.pred (sum_list (waits <$> r.1)))%nat.
Proof.
  destruct r as [ls failed]. simpl. intros Hnf Hcons. unfold deliver. simpl.
  destruct (omap waiting ls) as [|i0 rest] eqn:Hpending.
  - exists (ls, failed). simpl.
    rewrite (nothing_awaited ls Hnf Hpending). auto.
  - set (i := nth (arrival w (i0 :: rest)) (i0 :: rest) i0).
    assert (i ∈ omap waiting ls) as Hi.
    { rewrite Hpending. apply list_elem_of_In.
      destruct (Nat.lt_ge_cases (arrival w (i0 :: rest))
                  (length (i0 :: rest))) as [Hlt|Hge].
      - by apply nth_In.
      - unfold i. rewrite nth_overflow by done. by left. }
    apply list_elem_of_omap in Hi as (l & Hl & Hwait).
    destruct (advance_returns
                (fun l => bool_decide (waiting l = Some i)) ls failed w)
      as (ls' & Hrun & Hall).
    eexists. split; [exact Hrun|]. simpl.
    split; [symmetry; by eapply Forall2_length|].
    split; [|split].
    + apply (stepped_found _ _ _ Hall). intros l0 Hin _.
      by apply (proj1 (Forall_forall _ _) Hnf).
    + exact (advance_consistent _ _ _ _ Hcons Hall).
    + assert (sum_list (waits <$> ls') < sum_list (waits <$> ls))%nat; [|lia].
      apply (stepped_total_lt _ _ _ l Hall Hl).
      * by apply bool_decide_eq_true_2.
      * by destruct l.
Qed.

Lemma settle_returns (n : nat) (r : list FileLookup * option exn) (w : World) :
  Forall (fun l => found l = false) r.1 -> consistent r ->
  (sum_list (waits <$> r.1) <= n)%nat ->
  exists r',
    (settle P n appId r w).1 = Ok r' /\
    length r'.1 = length r.1 /\ consistent r' /\
    forallb settled r'.1 = true.
Proof.
  revert r w. induction n as [|n IH]; intros r w Hnf Hcons Hsum; simpl.
  - exists r. split; [done|]. split; [done|]. split; [done|].
    apply nothing_waits. lia.
  - unfold bind.
    destruct (deliver_returns r w Hnf Hcons)
      as (r1 & Hrun & Hlen & Hnf1 & Hcons1 & Hsum1).
    destruct (deliver P appId r w) as [o w1]. simpl in Hrun. subst o.
    destruct (IH r1 w1 Hnf1 Hcons1) as (r' & Hrun' & Hlen' & Hcons' & Hall);
      [lia|].
    exists r'. split; [done|]. split; [congruence|]. done.
Qed.
End Settling.


(** ** The requests of [getAppFiles] *)

Global Instance sent_more_refl : Reflexive sent_more.
Proof. intros w. exists []. by rewrite app_nil_r. Qed.

Global Instance sent_more_trans : Transitive sent_more.
Proof.
  intros w1 w2 w3 [m1 H1] [m2 H2]. exists (m1 ++ m2).
  by rewrite H2, H1, app_assoc.
Qed.

Lemma net_quiet {A} (m : M A) :
  (forall w, fetched (m w).2 = fetched w) -> preserves sent_more m.
Proof. intros H w. exists []. by rewrite H, app_nil_r. Qed.

Lemma send_sent_more r : preserves sent_more (send r).
Proof. intros w. by exists [r]. Qed.

Lemma receive_sent_more i : preserves sent_more (receive i).
Proof. apply net_quiet. intros w. unfold receive. by destruct (network w i). Qed.

Lemma member_sent_more v k : preserves sent_more (member v k).
Proof. apply net_quiet. intros w. unfold member. by destruct (get_prop v k). Qed.

Lemma first_of_sent_more v : preserves sent_more (first_of v).
Proof. apply net_quiet. intros w. unfold first_of. by destruct (get_first v). Qed.

Lemma response_json_sent_more P r : preserves sent_more (response_json P r).
Proof.
  apply net_quiet. intros w. unfold response_json. by destruct (JSON_parse P _).
Qed.

Lemma getToken_sent_more P : preserves sent_more (GoogleAuth.getToken P).
Proof. apply net_quiet. intros w. apply getToken_fetched. Qed.

Lemma cacheSet_sent_more key v : preserves sent_more (cacheSet key v).
Proof.
  apply net_quiet. intros w. unfold cacheSet, commit. simpl.
  by destruct (quota w _).
Qed.

Lemma Date_now_sent_more : preserves sent_more Date_now.
Proof. by apply net_quiet. Qed.

Lemma setAppCache_sent_more appId data :
  preserves sent_more (setAppCache appId data).
Proof.
  apply net_quiet. intros w. rewrite setAppCache_run. simpl.
  by destruct (quota w _).
Qed.

Lemma parsedOrNull_sent_more P text : preserves sent_more (parsedOrNull P text).
Proof.
  apply net_quiet. intros w. unfold parsedOrNull.
  destruct text as [t|]; [|done].
  destruct (String.eqb t ""); [done|]. by destruct (JSON_parse P t).
Qed.

#[local] Hint Resolve send_sent_more receive_sent_more member_sent_more
  first_of_sent_more response_json_sent_more getToken_sent_more
  cacheSet_sent_more Date_now_sent_more setAppCache_sent_more
  parsedOrNull_sent_more : frame.

Section LookupRequests.
Context (P : Platform) (appId : string).

Lemma request_answered_sent_more i :
  preserves sent_more (request_answered P i).
Proof. unfold request_answered. eauto 10 with frame. Qed.

Lemma findFile_answered_sent_more name i :
  preserves sent_more (findFile_answered P appId name i).
Proof.
  unfold findFile_answered.
  pose proof (request_answered_sent_more i). eauto 15 with frame.
Qed.

Lemma rejecting_sent_more (m : M FileLookup) :
  preserves sent_more m -> preserves sent_more (rejecting m).
Proof. intros Hm. unfold rejecting. eauto with frame. Qed.

Lemma lookup_then_sent_more f : preserves sent_more (lookup_then P f).
Proof.
  unfold lookup_then, getFileContent_sent. apply rejecting_sent_more.
  eauto 15 with frame.
Qed.

Lemma lookup_resume_sent_more l :
  preserves sent_more (lookup_resume P appId l).
Proof.
  pose proof lookup_then_sent_more. pose proof findFile_answered_sent_more.
  destruct l as [name i|f|i|t|e]; simpl; [| | |eauto with frame..].
  - apply rejecting_sent_more. eauto with frame.
  - done.
  - apply rejecting_sent_more. unfold getFileContent_answered.
    eauto 10 with frame.
Qed.

Lemma advance_sent_more which ls failed :
  preserves sent_more (advance P appId which ls failed).
Proof.
  pose proof lookup_resume_sent_more.
  revert failed. induction ls as [|l rest IH]; intros failed; simpl;
    eauto 10 with frame.
Qed.

Lemma settle_sent_more n r : preserves sent_more (settle P n appId r).
Proof.
  revert r. induction n as [|n IH]; intros r; simpl; [eauto with frame|].
  apply preserves_bind; [typeclasses eauto| |done].
  intros w. unfold deliver.
  destruct (omap waiting r.1) as [|i0 rest]; [reflexivity|].
  apply advance_sent_more.
Qed.
End LookupRequests.

Lemma bind_run {A B} (m : M A) (k : A -> M B) (w w1 : World) (a : A) :
  m w = (Ok a, w1) -> bind m k w = k a w1.
Proof. unfold bind. by intros ->. Qed.

Lemma bind_assoc_run {A B C} (m : M A) (f : A -> M B) (g : B -> M C)
    (w : World) :
  bind (bind m f) g w = bind m (fun a => bind (f a) g) w.
Proof. unfold bind. by destruct (m w) as [[a|e] w1]. Qed.

Lemma mapM_cons_run {A B} (f : A -> M B) (x : A) (r : list A) (w : World) :
  mapM f (x :: r) w =
  match f x w with
  | (Ok y, w1) =>
      match mapM f r w1 with
      | (Ok ys, w2) => (Ok (y :: ys), w2)
      | (Throw e, w2) => (Throw e, w2)
      end
  | (Throw e, w1) => (Throw e, w1)
  end.
Proof.
  simpl. unfold bind. destruct (f x w) as [[y|e] w1]; [|done].
  by destruct (mapM f r w1) as [[ys|e] w2].
Qed.

(** A token that is stored and not about to expire is what [getToken]
    returns, after one reading of the clock. *)
Lemma getToken_valid (P : Platform) (w : World) (token expiry : string) :
  tokenItem (sessionStorage w) = Some token -> token <> "" ->
  expiryItem (sessionStorage w) = Some expiry -> expiry <> "" ->
  (forall e, parseInt P expiry = Some e -> clock w (ticks w) <= e - 300000) ->
  GoogleAuth.getToken P w = (Ok (Some token), set_ticks (S (ticks w)) w).
Proof.
  intros Htoken Hne Hexpiry Hne' Hvalid.
  unfold GoogleAuth.getToken, GoogleAuth.missing.
  rewrite Htoken, Hexpiry.
  apply String.eqb_neq in Hne, Hne'. rewrite Hne, Hne'. simpl.
  unfold bind, Date_now. simpl.
  destruct (parseInt P expiry) as [e|]; [|done].
  specialize (Hvalid e eq_refl).
  by assert ((clock w (ticks w) >? e - 300000) = false) as -> by lia.
Qed.

(** X23. With a token that does not expire under way and none of the three
    file ids cached, a forced [getAppFiles] sends its three queries first,
    for the manifest, the parameters and the html in that order, before any
    content is read: whatever the network answers, in whatever order, and
    whether the call returns or throws, everything else it sends comes
    after them. *)
Theorem getAppFiles_queries_first (P : Platform) (appId : string) (w : World)
    (token expiry : string) :
  (forall name, name ∈ ["manifest.json"; "params.json"; "app.html"] ->
     truthy (cacheGet_in (localStorage w)
               ("fileId_" +:+ appId +:+ "_" +:+ name)) = false) ->
  tokenItem (sessionStorage w) = Some token -> token <> "" ->
  expiryItem (sessionStorage w) = Some expiry -> expiry <> "" ->
  (forall e k, parseInt P expiry = Some e -> (k < 3)%nat ->
     clock w (ticks w + k) <= e - 300000) ->
  let query name :=
    {| req_url :=
         DRIVE_API +:+ "/files?q=" +:+
         encodeURIComponent P
           ("'" +:+ appId +:+ "' in parents and name='" +:+ name +:+
            "' and trashed=false") +:+
         "&fields=files(id,name)";
       req_method := "GET";
       req_headers := [("Authorization", "Bearer " +:+ token)];
       req_body := NoBody |} in
  exists more,
    fetched (getAppFiles P appId true w).2 =
    fetched w ++
    [query "manifest.json"; query "params.json"; query "app.html"] ++ more.
Proof.
  intros Hmiss Htoken Hne Hexpiry Hne' Hvalid query.
  assert (forall name w0,
            name ∈ ["manifest.json"; "params.json"; "app.html"] ->
            localStorage w0 = localStorage w ->
            sessionStorage w0 = sessionStorage w ->
            (forall e, parseInt P expiry = Some e ->
               clock w0 (ticks w0) <= e - 300000) ->
            lookup_begin P appId name w0 =
            (Ok (Listing name (length (fetched w0))),
             set_fetched (fetched w0 ++ [query name])
               (set_ticks (S (ticks w0)) w0))) as Hbegin.
  { intros name w0 Hname Hs Ha Hv.
    unfold lookup_begin, rejecting, try_catch, findFile_sent.
    unfold bind at 1. unfold bind at 1. unfold cacheGet.
    rewrite Hs, (Hmiss name Hname).
    unfold bind at 1. unfold request_sent. unfold bind at 1.
    rewrite (getToken_valid P w0 token expiry);
      [|congruence|done|congruence|done|done].
    unfold GoogleAuth.missing.
    apply String.eqb_neq in Hne. rewrite Hne. done. }
  set (n := length (fetched w)).
  set (w3 := set_fetched
               (fetched w ++
                [query "manifest.json"; query "params.json"; query "app.html"])
               (set_ticks (S (S (S (ticks w)))) w)).
  assert (mapM (lookup_begin P appId)
            ["manifest.json"; "params.json"; "app.html"] w =
          (Ok [Listing "manifest.json" n; Listing "params.json" (S n);
               Listing "app.html" (S (S n))], w3)) as Hstart.
  { rewrite mapM_cons_run.
    rewrite (Hbegin "manifest.json" w); [|set_solver|done|done|].
    2:{ intros e He. specialize (Hvalid e 0%nat He).
        rewrite Nat.add_0_r in Hvalid. apply Hvalid. lia. }
    rewrite mapM_cons_run.
    rewrite (Hbegin "params.json"); [|set_solver|done|done|].
    2:{ intros e He. specialize (Hvalid e 1%nat He).
        rewrite Nat.add_1_r in Hvalid. apply Hvalid. lia. }
    rewrite mapM_cons_run.
    rewrite (Hbegin "app.html"); [|set_solver|done|done|].
    2:{ intros e He. specialize (Hvalid e 2%nat He).
        replace (ticks w + 2)%nat with (S (S (ticks w))) in Hvalid by lia.
        apply Hvalid. lia. }
    cbn [mapM ret fetched set_fetched set_ticks ticks].
    rewrite !length_app. cbn [length]. fold n.
    replace (n + 1)%nat with (S n) by lia.
    replace (S n + 1)%nat with (S (S n)) by lia.
    unfold w3. by rewrite <- !app_assoc. }
  assert (sent_more w3 (getAppFiles P appId true w).2) as [more Hmore].
  { unfold getAppFiles. unfold bind at 1. unfold ret at 1. cbv iota beta.
    unfold lookups, race.
    rewrite !bind_assoc_run, (bind_run _ _ _ _ _ Hstart).
    pose proof (advance_sent_more P appId).
    pose proof (settle_sent_more P appId).
    match goal with
    | |- sent_more w3 (?m w3).2 =>
        assert (preserves sent_more m) as Hrest; [|apply Hrest]
    end.
    apply preserves_bind; [typeclasses eauto| |].
    - apply preserves_bind; [typeclasses eauto|done|]. by intros called.
    - intros r.
      apply preserves_bind; [typeclasses eauto| |eauto 10 with frame].
      destruct r.2; eauto with frame. }
  exists more. rewrite Hmore. unfold w3. cbn [fetched set_fetched].
  by rewrite <- app_assoc.
Qed.

(** ** Ids that name inherited properties *)

(** X24. An id that is not in the table, but names a property that every
    object inherits ([constructor], [toString], [__proto__], ...), is read
    as cached: [getAppFiles] without force answers at once, with nothing
    sent and nothing changed, and the bundle it answers has no manifest, no
    parameters, no html and no [syncTime]. *)
Theorem getAppFiles_inherited_name (P : Platform) (appId : string)
    (w : World) :
  table_get (getAppCache_in (localStorage w)) appId = None ->
  inherited appId = true ->
  getAppFiles P appId false w =
  (Ok {| manifest := VUndef; params := VUndef; appHtml := VUndef;
         syncTime := VUndef |}, w).
Proof.
  intros Hget Hin. unfold getAppFiles. unfold bind at 1.
  rewrite getAppFromCache_run. unfold table_read. by rewrite Hget, Hin.
Qed.

(** X25. Under the id ["__proto__"] nothing is cached: when the table has
    no entry of that name, [setAppCache] leaves the entries the table had
    (it is within its bound, the storage accepts the write), and the id
    still reads as the inherited property, not as the bundle written. *)
Theorem setAppCache_proto_stores_nothing (data : AppData) (w : World) :
  let c := getAppCache_in (localStorage w) in
  let w' := (setAppCache "__proto__" data w).2 in
  table_ok c ->
  table_get c "__proto__" = None ->
  quota w {| items := items (localStorage w);
             appTable :=
               Some (updated_table c "__proto__" data (clock w (ticks w))) |}
    = true ->
  getAppCache_in (localStorage w') ≡ₚ clean_entry <$> c /\
  getAppFromCache "__proto__" w' = (Ok Builtin, w').
Proof.
  intros c w' [Hnd Hlen] Hget Hquota. subst w'.
  rewrite setAppCache_run. fold c. rewrite Hquota.
  cbn [snd localStorage set_localStorage].
  change (getAppCache_in {| items := _; appTable := Some ?t |}) with t.
  assert (updated_table c "__proto__" data (clock w (ticks w)) ≡ₚ
          clean_entry <$> c) as Hperm.
  { unfold updated_table, table_set. rewrite Hget. simpl.
    rewrite persisted_Permutation, evict_kept by done.
    by rewrite kept_small. }
  split; [exact Hperm|].
  rewrite getAppFromCache_run.
  cbn [localStorage set_localStorage].
  change (getAppCache_in {| items := _; appTable := Some ?t |}) with t.
  unfold table_read.
  rewrite (table_get_Permutation _ _ "__proto__"
             (updated_table_NoDup c _ data _ Hnd) Hperm).
  by rewrite table_get_clean, Hget.
Qed.

(** ** The further properties at concrete inputs *)

Lemma escapeAttr_safe_witness :
  has_char dquote (AppRunner.escapeAttr Toy.quoted) = false /\
  AppRunner.escapeAttr "plain" = "plain".
Proof.
  split.
  - apply (proj1 (escapeAttr_safe Toy.quoted)).
  - apply (proj2 (escapeAttr_safe "plain")); reflexivity.
Defined.

Lemma escapeHtml_safe_witness :
  has_char "<" (SessionManager.escapeHtml "<b>&</b>") = false /\
  SessionManager.escapeHtml "plain" = "plain".
Proof.
  split.
  - apply (proj1 (escapeHtml_safe "<b>&</b>")).
  - apply (proj2 (proj2 (proj2 (escapeHtml_safe "plain")))); reflexivity.
Defined.

(** The examples of the specification: at 45 s "just now", at 125 s
    "2m ago", at 7300 s "2h ago". *)
Lemma formatSyncTime_buckets_witness :
  (AppRunner.formatSyncTime (Some (5 - 45000)) Toy.online).1 = Ok "just now" /\
  (AppRunner.formatSyncTime (Some (5 - 125000)) Toy.online).1 = Ok "2m ago" /\
  (AppRunner.formatSyncTime (Some (5 - 7300000)) Toy.online).1 = Ok "2h ago".
Proof.
  assert (forall t, t <> 0 ->
            (AppRunner.formatSyncTime (Some t) Toy.online).1 =
            Ok (if 5 - t <? 60000 then "just now"
                else if 5 - t <? 3600000
                     then pretty ((5 - t) / 60000) +:+ "m ago"
                else if 5 - t <? 86400000
                     then pretty ((5 - t) / 3600000) +:+ "h ago"
                else pretty ((5 - t) / 86400000) +:+ "d ago")) as H.
  { intros t Ht.
    by rewrite (proj2 (proj2 (formatSyncTime_buckets t Toy.online)) Ht). }
  repeat split; (rewrite H by lia; reflexivity).
Defined.

Lemma cache_round_trip_witness :
  let w1 := (cacheSet "note" (VStr "x") Toy.online).2 in
  cacheGet "note" w1 = (Ok (VStr "x"), w1) /\
  cacheGet "note" (cacheDelete "note" w1).2 =
    (Ok VNull, (cacheDelete "note" w1).2).
Proof.
  destruct (cache_round_trip "note" (VStr "x") Toy.online eq_refl)
    as (Hset & Hdel & _).
  split; [exact Hset|exact Hdel].
Defined.

Lemma toy_table_ok : table_ok (getAppCache_in (localStorage Toy.online)).
Proof.
  split.
  - apply (bool_decide_unpack _). vm_compute. exact I.
  - simpl. unfold APP_CACHE_MAX. lia.
Defined.

Lemma setAppCache_keeps_table_ok_witness :
  table_ok
    (getAppCache_in
       (localStorage (setAppCache "E" (Toy.bundleOf "e") Toy.online).2)).
Proof.
  apply (proj1 (setAppCache_keeps_table_ok "E" (Toy.bundleOf "e") Toy.online)).
  exact toy_table_ok.
Defined.

Lemma setAppCache_then_getAppFromCache_witness :
  let w' := (setAppCache "B" (Toy.bundleOf "b2") Toy.online).2 in
  getAppFromCache "B" w' =
    (Ok (Entry {| bundle := clean_data (Toy.bundleOf "b2"); cachedAt := 5 |}),
     w') /\
  table_get (getAppCache_in (localStorage w')) "A" =
    Some (cleaned (Toy.entryOf "a" 1)).
Proof.
  destruct (setAppCache_then_getAppFromCache "B" (Toy.bundleOf "b2")
              Toy.online toy_table_ok) as [Hnew Hother].
  - discriminate.
  - left. by eexists.
  - reflexivity.
  - split; [exact Hnew|]. apply (Hother "A"). discriminate.
Defined.

Lemma findFile_cached_witness :
  findFile Toy.platform "A" "app.html" Toy.lookedUp =
  (Ok (VObj [("id", VStr "f1"); ("name", VStr "app.html")]), Toy.lookedUp).
Proof. apply (findFile_cached Toy.platform "A" "app.html"). reflexivity. Defined.

Lemma findFile_caches_found_id_witness :
  let w1 := (findFile Toy.platform "A" "app.html" Toy.creating).2 in
  exists id,
    get_prop (VObj [("id", VStr "f1")]) "id" = Some id /\
    localStorage w1 =
      put_item "fileId_A_app.html" id (localStorage Toy.creating) /\
    (truthy id = true ->
     findFile Toy.platform "A" "app.html" w1 =
     (Ok (VObj [("id", json_clean id); ("name", VStr "app.html")]), w1)).
Proof.
  apply (findFile_caches_found_id Toy.platform "A" "app.html" Toy.creating
           (findFile Toy.platform "A" "app.html" Toy.creating).2
           (VObj [("id", VStr "f1")])).
  - reflexivity.
  - intros s. reflexivity.
  - reflexivity.
Defined.

Lemma getSession_forced_refresh_witness :
  let w' := (getSession Toy.timed "s1" true Toy.refreshing).2 in
  exists resp data n,
    network Toy.refreshing (length (fetched Toy.refreshing)) = NetResp resp /\
    ok resp = true /\
    JSON_parse Toy.timed (body_text resp) = Some data /\
    ticks w' = S n /\
    VObj [("name", VStr "fresh"); ("data", VObj []); ("syncTime", VNum 6)] =
      withSyncTime data (VNum (clock w' n)) /\
    getSession Toy.timed "s1" false w' =
      (Ok (withSyncTime (json_clean data) (VNum (clock w' n))), w').
Proof.
  apply (proj2 (getSession_forced_refresh Toy.timed "s1" Toy.refreshing)).
  - intros s. reflexivity.
  - reflexivity.
Defined.

Lemma getSession_failure_keeps_cache_witness :
  localStorage (getSession Toy.platform "s1" true Toy.offline).2 =
  localStorage Toy.offline.
Proof.
  apply (getSession_failure_keeps_cache Toy.platform "s1" true Toy.offline _
           (Error "Failed to get file content")).
  reflexivity.
Defined.

Lemma deleteApp_clears_before_request_witness :
  deleteApp Toy.platform "A" Toy.noToken =
    (Throw (Error "Not authenticated"),
     (deleteApp Toy.platform "A" Toy.noToken).2) /\
  fetched (deleteApp Toy.platform "A" Toy.noToken).2 = [].
Proof.
  apply (proj2 (deleteApp_clears_before_request Toy.platform "A" Toy.noToken)).
  reflexivity.
Defined.

Lemma session_list_cache_witness :
  let w' := (listSessions Toy.timed "A" Toy.listing).2 in
  cacheGet_in (localStorage w') "sessions_A" =
  VArr [VObj [("id", VStr "s1"); ("name", VStr "Default");
              ("modifiedTime", VStr "T1")]].
Proof.
  apply (proj1 (session_list_cache Toy.timed "A" Toy.listing)
           (VArr [VObj [("id", VStr "s1"); ("name", VStr "Default");
                        ("modifiedTime", VStr "T1")]])).
  - intros s. reflexivity.
  - reflexivity.
Defined.

Lemma sessionName_round_trip_witness :
  sessionName (VStr "Default.json") Toy.online = (Ok (VStr "Default"), Toy.online).
Proof.
  apply (proj1 (sessionName_round_trip "Default" Toy.online eq_refl)).
Defined.

Lemma request_returns_ok_body_witness :
  exists token resp,
    token <> "" /\
    tokenItem (sessionStorage Toy.online) = Some token /\
    network Toy.online (length (fetched Toy.online)) = NetResp resp /\
    ok resp = true /\
    JSON_parse Toy.platform (body_text resp) = Some (VObj [("id", VStr "f1")]) /\
    fetched (request Toy.platform "https://drive" no_options Toy.online).2 =
    fetched Toy.online ++
    [{| req_url := "https://drive"; req_method := "GET";
        req_headers := [("Authorization", "Bearer " +:+ token)];
        req_body := NoBody |}].
Proof.
  apply (request_returns_ok_body Toy.platform "https://drive" no_options
           Toy.online).
  reflexivity.
Defined.

Lemma getToken_returns_unexpired_witness :
  tokenItem (sessionStorage Toy.inTime) = Some "token" /\
  5 <= 300010 - 300000.
Proof.
  destruct (getToken_returns_unexpired Toy.timed Toy.inTime
              (GoogleAuth.getToken Toy.timed Toy.inTime).2 "token" eq_refl)
    as (_ & Hitem & _ & expiry & Hexp & _ & Hle).
  split; [exact Hitem|]. injection Hexp as <-.
  exact (Hle 300010 eq_refl).
Defined.

Lemma expired_token_signs_out_witness :
  let w' := (GoogleAuth.getToken Toy.timed Toy.tooLate).2 in
  GoogleAuth.getToken Toy.timed Toy.tooLate = (Ok None, w') /\
  GoogleAuth.isSignedIn Toy.timed w' = (Ok false, w').
Proof.
  assert ("token" <> "") as H1 by discriminate.
  assert ("300010" <> "") as H2 by discriminate.
  assert (300010 - 300000 < clock Toy.tooLate (ticks Toy.tooLate)) as H3
    by (simpl; lia).
  destruct (expired_token_signs_out Toy.timed Toy.tooLate "token" "300010"
              300010 eq_refl H1 eq_refl H2 eq_refl H3)
    as (Hrun & _ & Hsigned & _).
  split; [exact Hrun|exact Hsigned].
Defined.

Lemma handleMessage_update_session_witness :
  (AppRunner.handleMessage Toy.platform
     (Toy.message (Some Toy.guest) "update-session")
     (Toy.runner (Some Toy.liveSession)) Toy.offline).1 =
  Ok (Toy.runner
        (Some [("id", VStr "s1"); ("name", VStr "Default");
               ("data", VNum 7)])) /\
  posted
    (AppRunner.handleMessage Toy.platform
       (Toy.message (Some Toy.guest) "update-session")
       (Toy.runner (Some Toy.liveSession)) Toy.offline).2 =
  [(Toy.guest,
    VObj [("type", VStr "session-saved"); ("success", VBool false);
          ("error", VStr "Failed to update file")])].
Proof.
  destruct (handleMessage_update_session Toy.platform
              (Toy.message (Some Toy.guest) "update-session")
              (Toy.message (Some Toy.guest) "ready")
              (Toy.runner (Some Toy.liveSession)) Toy.offline
              {| AppRunner.contentWindow := Some Toy.guest |} Toy.guest
              [("type", VStr "update-session"); ("data", VNum 7)]
              [("type", VStr "ready"); ("data", VNum 7)]
              Toy.liveSession
              eq_refl eq_refl eq_refl eq_refl eq_refl eq_refl eq_refl eq_refl
              eq_refl) as [Hrun _].
  rewrite Hrun. split; reflexivity.
Defined.

Lemma handleSessionChange_sends_init_witness :
  (AppRunner.handleSessionChange Toy.platform "s9"
     (Toy.runner (Some Toy.liveSession)) Toy.offline).1 =
  Ok (Toy.runner (Some Toy.liveSession)) /\
  posted
    (AppRunner.handleSessionChange Toy.platform "s9"
       (Toy.runner (Some Toy.liveSession)) Toy.offline).2 =
  [(Toy.guest, AppRunner.initMessage (Toy.runner (Some Toy.liveSession)))].
Proof.
  rewrite (handleSessionChange_sends_init Toy.platform "s9"
             (Toy.runner (Some Toy.liveSession)) Toy.offline
             {| AppRunner.contentWindow := Some Toy.guest |} Toy.guest
             eq_refl eq_refl).
  split; reflexivity.
Defined.

Lemma eviction_breaks_ties_in_order_witness :
  before ("A", Toy.entryOf "a" 1) ("B", Toy.entryOf "b" 1)
         (entries Toy.tied).
Proof.
  apply (eviction_breaks_ties_in_order Toy.tied).
  - apply (bool_decide_unpack _). vm_compute. exact I.
  - vm_compute. apply list_elem_of_here.
  - vm_compute. apply list_elem_of_here.
  - reflexivity.
Defined.

Lemma getSessionsFolderId_cached_witness :
  let w1 := (getSessionsFolderId Toy.platform "A" Toy.creating).2 in
  getSessionsFolderId Toy.platform "A" w1 = (Ok (VStr "f1"), w1).
Proof.
  apply (proj2 (getSessionsFolderId_cached Toy.platform "A" Toy.creating)
           (VStr "f1")).
  - reflexivity.
  - intros s. reflexivity.
  - reflexivity.
  - reflexivity.
Defined.


Lemma getAppFiles_queries_first_witness :
  exists more,
    fetched (getAppFiles Toy.platform "A" true Toy.fetching).2 =
    [{| req_url :=
          "https://www.googleapis.com/drive/v3/files?q='A' in parents and name='manifest.json' and trashed=false&fields=files(id,name)";
        req_method := "GET";
        req_headers := [("Authorization", "Bearer token")];
        req_body := NoBody |};
     {| req_url :=
          "https://www.googleapis.com/drive/v3/files?q='A' in parents and name='params.json' and trashed=false&fields=files(id,name)";
        req_method := "GET";
        req_headers := [("Authorization", "Bearer token")];
        req_body := NoBody |};
     {| req_url :=
          "https://www.googleapis.com/drive/v3/files?q='A' in parents and name='app.html' and trashed=false&fields=files(id,name)";
        req_method := "GET";
        req_headers := [("Authorization", "Bearer token")];
        req_body := NoBody |}] ++ more.
Proof.
  apply (getAppFiles_queries_first Toy.platform "A" Toy.fetching
           "token" "later").
  - intros name Hname.
    repeat (apply elem_of_cons in Hname as [->|Hname]; [reflexivity|]).
    by apply elem_of_nil in Hname.
  - reflexivity.
  - discriminate.
  - reflexivity.
  - discriminate.
  - intros e k He. simpl in He. discriminate He.
Defined.

Lemma getAppFiles_inherited_name_witness :
  getAppFiles Toy.platform "constructor" false Toy.online =
  (Ok {| manifest := VUndef; params := VUndef; appHtml := VUndef;
         syncTime := VUndef |}, Toy.online).
Proof.
  apply (getAppFiles_inherited_name Toy.platform "constructor" Toy.online).
  - reflexivity.
  - vm_compute. reflexivity.
Defined.

Lemma setAppCache_proto_stores_nothing_witness :
  let w' := (setAppCache "__proto__" (Toy.bundleOf "p") Toy.online).2 in
  getAppCache_in (localStorage w') ≡ₚ
    clean_entry <$> getAppCache_in (localStorage Toy.online) /\
  getAppFromCache "__proto__" w' = (Ok Builtin, w').
Proof.
  apply (setAppCache_proto_stores_nothing (Toy.bundleOf "p") Toy.online).
  - exact toy_table_ok.
  - reflexivity.
  - reflexivity.
Defined.
